(** * cupoch: point-cloud reduction kernels and dense grid graphs

    A shallow embedding of [PointCloud::SelectByIndex], [VoxelDownSample],
    [UniformDownSample], [RemoveRadiusOutliers], [RemoveStatisticalOutliers]
    (pointcloud down-sampling unit), of the range adaptors of
    [cupoch/utility/range.h] and of [Graph<Dim>::CreateFromAxisAlignedBoundingBox]
    ([graph_factory.cu]).

    Device vectors are lists, the Thrust algorithms are list functions with
    their sequential meaning, and the member functions run in a small
    state-and-error monad over a store of point clouds, so that what a call
    writes (and what it leaves alone) is visible.  Single-precision
    arithmetic is kept abstract behind the class [Float32]. *)

From Stdlib Require Import ZArith QArith Qround Lia List.
From stdpp Require Import functions base gmap list strings sorting.

Local Close Scope Q_scope.
Local Open Scope nat_scope.

(** ** Machine integers *)

(** [int]: 32-bit two's complement. *)
Definition int_wrap (z : Z) : Z := ((z + 2 ^ 31) `mod` 2 ^ 32 - 2 ^ 31)%Z.

(** [size_t]: 64-bit unsigned. *)
Definition size_t_wrap (z : Z) : Z := (z `mod` 2 ^ 64)%Z.

(** [thrust::iterator_difference<Iterator>::type]: 64-bit signed. *)
Definition difference_wrap (z : Z) : Z := ((z + 2 ^ 63) `mod` 2 ^ 64 - 2 ^ 63)%Z.

(** [std::numeric_limits<int>::max()]. *)
Definition INT_MAX : Z := (2 ^ 31 - 1)%Z.

(** [v.size()] of a device vector. *)
Definition vsize {A} (v : list A) : Z := Z.of_nat (length v).

(** ** Single-precision arithmetic

    The operations of [float] that the kernels use.  Nothing is assumed of
    them: rounding, infinities and NaN are whatever the instance says. *)
Class Float32 (F : Type) := {
  F0 : F;                       (* 0.0f *)
  Fhalf : F;                    (* 0.5 *)
  Fminus1 : F;                  (* -1.0 *)
  fadd : F -> F -> F;
  fsub : F -> F -> F;
  fmul : F -> F -> F;
  fdiv : F -> F -> F;
  fltb : F -> F -> bool;        (* x < y *)
  fleb : F -> F -> bool;        (* x <= y *)
  fmax : F -> F -> F;
  ffloor : F -> F;              (* ::floor *)
  fsqrt : F -> F;               (* std::sqrt *)
  fisinf : F -> bool;           (* isinf *)
  of_int : Z -> F;              (* conversion of an integer to float *)
  cast_int : F -> Z             (* Eigen's cast<int>() of one coefficient *)
}.

(** ** Eigen vectors *)

Definition Vector3i : Type := Z * Z * Z.
Definition Vector2i : Type := Z * Z.

Section Vectors.
Context {F : Type} `{Float32 F}.

Definition Vector3f : Type := F * F * F.
Definition Vector2f : Type := F * F.

Definition Zero3 : Vector3f := (F0, F0, F0).

Definition vadd (a b : Vector3f) : Vector3f :=
  let '(ax, ay, az) := a in let '(bx, by_, bz) := b in
  (fadd ax bx, fadd ay by_, fadd az bz).

Definition vsub (a b : Vector3f) : Vector3f :=
  let '(ax, ay, az) := a in let '(bx, by_, bz) := b in
  (fsub ax bx, fsub ay by_, fsub az bz).

(** [v * s] and [v / s] for a scalar [s]. *)
Definition vscale (a : Vector3f) (s : F) : Vector3f :=
  let '(ax, ay, az) := a in (fmul ax s, fmul ay s, fmul az s).

Definition vdiv (a : Vector3f) (s : F) : Vector3f :=
  let '(ax, ay, az) := a in (fdiv ax s, fdiv ay s, fdiv az s).

(** [.array() * .array()]: coefficient-wise product. *)
Definition vcwise_mul (a b : Vector3f) : Vector3f :=
  let '(ax, ay, az) := a in let '(bx, by_, bz) := b in
  (fmul ax bx, fmul ay by_, fmul az bz).

(** [.array() / .array()]: coefficient-wise quotient. *)
Definition vcwise_div (a b : Vector3f) : Vector3f :=
  let '(ax, ay, az) := a in let '(bx, by_, bz) := b in
  (fdiv ax bx, fdiv ay by_, fdiv az bz).

(** [maxCoeff()], a left-to-right reduction as Eigen unrolls it. *)
Definition maxCoeff (a : Vector3f) : F :=
  let '(ax, ay, az) := a in fmax (fmax ax ay) az.

(** [Eigen::Vector3i(...).cast<float>()]. *)
Definition cast_float3 (a : Vector3i) : Vector3f :=
  let '(x, y, z) := a in (of_int x, of_int y, of_int z).

Definition vadd2 (a b : Vector2f) : Vector2f :=
  (fadd a.1 b.1, fadd a.2 b.2).
Definition vsub2 (a b : Vector2f) : Vector2f :=
  (fsub a.1 b.1, fsub a.2 b.2).
Definition vcwise_mul2 (a b : Vector2f) : Vector2f :=
  (fmul a.1 b.1, fmul a.2 b.2).
Definition vcwise_div2 (a b : Vector2f) : Vector2f :=
  (fdiv a.1 b.1, fdiv a.2 b.2).
Definition cast_float2 (a : Vector2i) : Vector2f :=
  (of_int a.1, of_int a.2).
End Vectors.

Arguments Vector3f F : clear implicits.
Arguments Vector2f F : clear implicits.

(** ** Thrust algorithms on device vectors, sequentially *)

Module thrust.

(** An algorithm that writes [vals] through the output iterator
    [dst.begin()]: the first [length vals] slots of [dst] are replaced.
    Writing past the end of the destination is an out-of-bounds device
    access: no result. *)
Definition write_at_begin {A} (dst vals : list A) : option (list A) :=
  if decide (length vals <= length dst)
  then Some (vals ++ drop (length vals) dst)
  else None.

(** [thrust::gather(map.begin(), map.end(), input.begin(), _)]: the values
    [input[map[i]]]; reading outside [input] gives no result. *)
Definition gather {A} (map : list Z) (input : list A) : option (list A) :=
  mapM (fun i : Z => if decide (0 <= i)%Z then input !! Z.to_nat i else None) map.

(** [thrust::transform] with one and with two input ranges. *)
Definition transform {A B} (f : A -> B) (l : list A) : list B := f <$> l.

Definition transform2 {A B C} (f : A -> B -> C)
    (l1 : list A) (l2 : list B) : list C :=
  zip_with f l1 l2.

(** [thrust::copy_if] and [thrust::remove_if] (the kept prefix). *)
Definition copy_if {A} (p : A -> bool) (l : list A) : list A :=
  List.filter p l.

Definition remove_if {A} (p : A -> bool) (l : list A) : list A :=
  List.filter (fun x => negb (p x)) l.

(** [thrust::make_counting_iterator(first)] up to [last]. *)
Definition counting (first last : Z) : list Z := seqZ first (last - first).

(** [enumerate_begin(v)] .. [enumerate_end(v)]: index paired with value. *)
Definition enumerate {A} (v : list A) : list (Z * A) :=
  zip (counting 0 (vsize v)) v.

(** Sorting, by insertion: [x] goes before the first element that is not
    smaller than it. *)
Fixpoint insert_sorted {A} (ltb : A -> A -> bool) (x : A) (s : list A)
    : list A :=
  match s with
  | [] => [x]
  | y :: s' => if ltb y x then y :: insert_sorted ltb x s' else x :: s
  end.

Definition sort {A} (ltb : A -> A -> bool) (l : list A) : list A :=
  foldr (insert_sorted ltb) [] l.

(** [thrust::sort_by_key(keys, values)]: the pairs ordered by key. *)
Definition sort_by_key {K V} (ltb : K -> K -> bool)
    (keys : list K) (values : list V) : list (K * V) :=
  sort (fun a b => ltb a.1 b.1) (zip keys values).

(** [thrust::reduce_by_key]: each run of consecutive equal keys gives its
    first key and the reduction of its values, the first value of the run
    being the start of the reduction. *)
Fixpoint reduce_run {K V} (eqb : K -> K -> bool) (op : V -> V -> V)
    (k : K) (acc : V) (l : list (K * V)) : list (K * V) :=
  match l with
  | [] => [(k, acc)]
  | (k', v') :: l' =>
      if eqb k k' then reduce_run eqb op k (op acc v') l'
      else (k, acc) :: reduce_run eqb op k' v' l'
  end.

Definition reduce_by_key {K V} (eqb : K -> K -> bool) (op : V -> V -> V)
    (l : list (K * V)) : list (K * V) :=
  match l with
  | [] => []
  | (k, v) :: l' => reduce_run eqb op k v l'
  end.

(** [thrust::transform_reduce(first, last, unary_op, init, binary_op)]. *)
Definition transform_reduce {A B} (f : A -> B) (init : B)
    (op : B -> B -> B) (l : list A) : B :=
  foldl op init (f <$> l).

(** [thrust::set_difference] of two sorted ranges. *)
Fixpoint set_difference {A} (ltb : A -> A -> bool) (l1 l2 : list A)
    {struct l1} : list A :=
  let fix scan (l2 : list A) {struct l2} : list A :=
    match l1, l2 with
    | [], _ => []
    | _, [] => l1
    | a :: l1', b :: l2' =>
        if ltb a b then a :: set_difference ltb l1' l2
        else if ltb b a then scan l2'
        else set_difference ltb l1' l2'
    end in
  scan l2.

(** [repeated_range(first, last, repeats)] over a counting range:
    element [i] is [first[i / repeats]], for [i < repeats * (last - first)]. *)
Definition repeated_range (first last repeats : Z) : list Z :=
  (fun i : Z => (first + i `quot` repeats)%Z)
    <$> counting 0 (difference_wrap (repeats * (last - first))).

(** [strided_range(first, last, stride)]: the positions [stride * i] for
    [i < ((last - first) + (stride - 1)) / stride], both computed in the
    iterator's [difference_type]. *)
Definition strided_positions (len stride : Z) : list Z :=
  (fun i : Z => difference_wrap (stride * i))
    <$> counting 0
          (difference_wrap
             (difference_wrap (len + difference_wrap (stride - 1))
                `quot` stride)).

Definition strided_range {A} (v : list A) (stride : Z) : option (list A) :=
  gather (strided_positions (vsize v) stride) v.

End thrust.

(** ** Point clouds, the store and the console *)

(** Severity of a console message ([utility::LogDebug], [LogWarning],
    [LogError]). *)
Inductive level := Debug | Warning | Error.

Record message := Msg { msg_level : level; msg_text : string }.

(** The three device buffers of a [geometry::PointCloud]. *)
Inductive buffer := points | normals | colors.

(** Address of a heap-allocated point cloud ([std::shared_ptr<PointCloud>],
    [this]). *)
Definition loc := nat.

(** How a call ends: it returns, it leaves by a C++ exception, or it touches
    device memory outside a buffer, after which nothing is known. *)
Inductive outcome (W A : Type) : Type :=
  | Ok (a : A) (w : W)
  | Throw (e : string) (w : W)
  | Fault.
Arguments Ok {W A} a w.
Arguments Throw {W A} e w.
Arguments Fault {W A}.

Section Model.
Context {F : Type} `{Float32 F}.

Record PointCloud := mkPointCloud {
  points_ : list (Vector3f F);
  normals_ : list (Vector3f F);
  colors_ : list (Vector3f F)
}.

(** [std::make_shared<PointCloud>()]: all buffers empty. *)
Definition empty_cloud : PointCloud := mkPointCloud [] [] [].

Definition get_buffer (b : buffer) (pc : PointCloud) : list (Vector3f F) :=
  match b with
  | points => points_ pc
  | normals => normals_ pc
  | colors => colors_ pc
  end.

Definition set_buffer (b : buffer) (v : list (Vector3f F)) (pc : PointCloud)
    : PointCloud :=
  match b with
  | points => mkPointCloud v (normals_ pc) (colors_ pc)
  | normals => mkPointCloud (points_ pc) v (colors_ pc)
  | colors => mkPointCloud (points_ pc) (normals_ pc) v
  end.

(** Modelled from the spec: [HasNormals] and [HasColors] are declared in
    [cupoch/geometry/pointcloud.h], which is not among the sources; the
    kernels read the normal (color) of every point whenever the flag is
    set, so the flag is taken to mean a non-empty cloud with one normal
    (color) per point. *)
Definition HasNormals (pc : PointCloud) : bool :=
  bool_decide (points_ pc <> []) &&
  bool_decide (length (normals_ pc) = length (points_ pc)).

Definition HasColors (pc : PointCloud) : bool :=
  bool_decide (points_ pc <> []) &&
  bool_decide (length (colors_ pc) = length (points_ pc)).

Record world := mkWorld {
  heap : gmap loc PointCloud;
  console : list message
}.

Definition M (A : Type) : Type := world -> outcome world A.

Definition ret {A} (a : A) : M A := fun w => Ok a w.

Definition bind {A B} (m : M A) (k : A -> M B) : M B :=
  fun w =>
    match m w with
    | Ok a w' => k a w'
    | Throw e w' => Throw e w'
    | Fault => Fault
    end.

Definition throw {A} (e : string) : M A := fun w => Throw e w.

Definition fault {A} : M A := fun _ => Fault.

(** A device access that must stay inside its buffer. *)
Definition checked {A} (o : option A) : M A :=
  match o with
  | Some a => ret a
  | None => fault
  end.

Definition when (c : bool) (m : M unit) : M unit :=
  if c then m else ret tt.

Definition log (l : level) (text : string) : M unit :=
  fun w => Ok tt (mkWorld (heap w) (console w ++ [Msg l text])).

(** [std::make_shared<PointCloud>()]. *)
Definition make_shared : M loc :=
  fun w =>
    let l := fresh (dom (heap w)) in
    Ok l (mkWorld (<[l := empty_cloud]> (heap w)) (console w)).

(** [*p] for reading. *)
Definition load (p : loc) : M PointCloud :=
  fun w =>
    match heap w !! p with
    | Some pc => Ok pc w
    | None => Fault
    end.

(** Reading and replacing one buffer of the cloud at [p]. *)
Definition read (p : loc) (b : buffer) : M (list (Vector3f F)) :=
  bind (load p) (fun pc => ret (get_buffer b pc)).

Definition write (p : loc) (b : buffer) (v : list (Vector3f F)) : M unit :=
  fun w =>
    match heap w !! p with
    | Some pc => Ok tt (mkWorld (<[p := set_buffer b v pc]> (heap w)) (console w))
    | None => Fault
    end.

(** [device_vector<T>(n)] and [v.resize(n)]; new slots hold [d]. *)
Definition device_vector {A} (n : Z) (d : A) : list A :=
  replicate (Z.to_nat n) d.

Definition resized {A} (n : Z) (d : A) (v : list A) : list A :=
  take (Z.to_nat n) v ++ replicate (Z.to_nat n - length v) d.

Definition resize (p : loc) (b : buffer) (n : Z) : M unit :=
  bind (read p b) (fun v => write p b (resized n Zero3 v)).
End Model.

Arguments PointCloud F : clear implicits.
Arguments world F : clear implicits.
Arguments M F A : clear implicits.

Notation "x <- c1 ;; c2" := (bind c1 (fun x => c2))
  (at level 100, c1 at next level, right associativity).
Notation "c1 ;;; c2" := (bind c1 (fun _ => c2))
  (at level 100, right associativity).

(** ** What the kernels call and the sources do not contain *)

(** The console of [cupoch/utility/console.h], Eigen's [normalize], the
    bounds of a geometry, the order on voxel keys that [thrust::sort_by_key]
    uses and the k-d tree of [cupoch/geometry/kdtree_flann.h].  They are
    parameters of the development.  [SearchRadius] and [SearchKNN] take the
    geometry the tree was built on ([SetGeometry]), the queries and the search
    parameters and give the flat [indices] and [distance2] arrays. *)
Class Platform (F : Type) `{Float32 F} := {
  LogError_throws : bool;
  normalize : Vector3f F -> Vector3f F;
  GetMinBound : PointCloud F -> Vector3f F;
  GetMaxBound : PointCloud F -> Vector3f F;
  less_Vector3i : Vector3i -> Vector3i -> bool;
  SearchRadius : PointCloud F -> list (Vector3f F) -> F -> Z -> list Z * list F;
  SearchKNN : PointCloud F -> list (Vector3f F) -> Z -> list Z * list F
}.

(** ** The member functions of [PointCloud] *)

Section Kernels.
Context {F : Type} `{Float32 F} `{!Platform F}.

Definition LogDebug (text : string) : M F unit := log Debug text.

Definition LogWarning (text : string) : M F unit := log Warning text.

(** [utility::LogError]: the message is recorded; whether control then
    comes back is the platform's. *)
Definition LogError (text : string) : M F unit :=
  log Error text ;;;
  if LogError_throws then throw text else ret tt.

(** An algorithm that reads [n] values through an input iterator. *)
Definition read_n {A} (n : nat) (v : list A) : option (list A) :=
  if decide (n <= length v) then Some (take n v) else None.

(** An algorithm writing [vals] into buffer [b] of the cloud at [p],
    from its beginning. *)
Definition store_at_begin (p : loc) (b : buffer) (vals : list (Vector3f F))
    : M F unit :=
  out <- read p b ;;
  out' <- checked (thrust.write_at_begin out vals) ;;
  write p b out'.

Definition gather_into (indices : list Z) (src dst : loc) (b : buffer)
    : M F unit :=
  input <- read src b ;;
  vals <- checked (thrust.gather indices input) ;;
  store_at_begin dst b vals.

Definition SelectByIndexImpl (src dst : loc) (indices : list Z) : M F unit :=
  s <- load src ;;
  let has_normals := HasNormals s in
  let has_colors := HasColors s in
  when has_normals (resize dst normals (vsize indices)) ;;;
  when has_colors (resize dst colors (vsize indices)) ;;;
  resize dst points (vsize indices) ;;;
  gather_into indices src dst points ;;;
  when has_normals (gather_into indices src dst normals) ;;;
  when has_colors (gather_into indices src dst colors).

Definition compute_key_functor (voxel_min_bound : Vector3f F)
    (voxel_size : F) (pt : Vector3f F) : Vector3i :=
  let '(x, y, z) := vdiv (vsub pt voxel_min_bound) voxel_size in
  (cast_int (ffloor x), cast_int (ffloor y), cast_int (ffloor z)).

(** Modelled from the spec: [add_tuple_functor] and [devide_tuple_functor]
    come from [cupoch/utility/helper.h], which is not among the sources;
    the spec has each output be the mean of its cell, so the first adds
    tuples component by component and the second divides every component
    by the count. *)
Definition add_tuple_functor {A B} (fa : A -> A -> A) (fb : B -> B -> B)
    (x y : A * B) : A * B :=
  (fa x.1 y.1, fb x.2 y.2).

Definition int_add (a b : Z) : Z := int_wrap (a + b).

Definition size_t_add (a b : Z) : Z := size_t_wrap (a + b).

Definition devide (v : Vector3f F) (y : Z) : Vector3f F := vdiv v (of_int y).

Definition devide_tuple_functor1 (x : Vector3f F) (y : Z) : Vector3f F :=
  devide x y.

Definition devide_tuple_functor2 (x : Vector3f F * Vector3f F) (y : Z)
    : Vector3f F * Vector3f F :=
  (devide x.1 y, devide x.2 y).

(** [normalize_and_devide_tuple_functor<1, ...>]: divide everything, then
    normalize component 1. *)
Definition normalize_and_devide_tuple_functor2
    (x : Vector3f F * Vector3f F) (y : Z) : Vector3f F * Vector3f F :=
  (devide x.1 y, normalize (devide x.2 y)).

Definition normalize_and_devide_tuple_functor3
    (x : Vector3f F * Vector3f F * Vector3f F) (y : Z)
    : Vector3f F * Vector3f F * Vector3f F :=
  (devide x.1.1 y, normalize (devide x.1.2 y), devide x.2 y).

Definition check_distance_threshold_functor (distance_threshold : F)
    (x : Z * F) : bool :=
  let dist := x.2 in
  fltb F0 dist && fltb dist distance_threshold.

Definition SelectByIndex (this : loc) (indices : list Z) (invert : bool)
    : M F loc :=
  output <- make_shared ;;
  if invert then
    pts <- read this points ;;
    let n_out := size_t_wrap (vsize pts - vsize indices) in
    let sorted_indices := thrust.sort Z.ltb indices in
    let inv_indices := device_vector n_out 0%Z in
    inv_indices <- checked
      (thrust.write_at_begin inv_indices
         (thrust.set_difference Z.ltb (thrust.counting 0 (vsize pts))
            sorted_indices)) ;;
    SelectByIndexImpl this output inv_indices ;;;
    ret output
  else
    SelectByIndexImpl this output indices ;;;
    ret output.

(** The part of [VoxelDownSample] that the four branches share: sort the
    value tuples by key, then reduce every run of equal keys together with
    a count of ones. *)
Definition sort_and_reduce {T} (add : T -> T -> T)
    (keys : list Vector3i) (values : list T) : list (T * Z) :=
  let sorted := thrust.sort_by_key less_Vector3i keys values in
  snd <$> thrust.reduce_by_key (fun k k' : Vector3i => bool_decide (k = k'))
            (add_tuple_functor add int_add)
            ((fun kv : Vector3i * T => (kv.1, (kv.2, 1%Z))) <$> sorted).

Definition VoxelDownSample (this : loc) (voxel_size : F) : M F loc :=
  output <- make_shared ;;
  if fleb voxel_size F0 then
    LogWarning "[VoxelDownSample] voxel_size <= 0.\n" ;;;
    ret output
  else
    self <- load this ;;
    let voxel_size3 : Vector3f F := (voxel_size, voxel_size, voxel_size) in
    let voxel_min_bound := vsub (GetMinBound self) (vscale voxel_size3 Fhalf) in
    let voxel_max_bound := vadd (GetMaxBound self) (vscale voxel_size3 Fhalf) in
    if fltb (fmul voxel_size (of_int INT_MAX))
            (maxCoeff (vsub voxel_max_bound voxel_min_bound)) then
      LogWarning "[VoxelDownSample] voxel_size is too small.\n" ;;;
      ret output
    else
      let n := int_wrap (vsize (points_ self)) in
      let has_normals := HasNormals self in
      let has_colors := HasColors self in
      let ck_func := compute_key_functor voxel_min_bound voxel_size in
      keys <- checked
        (thrust.write_at_begin (device_vector (size_t_wrap n) (0, 0, 0)%Z)
           (thrust.transform ck_func (points_ self))) ;;
      let sorted_points := points_ self in
      resize output points (size_t_wrap n) ;;;
      let counts := device_vector (size_t_wrap n) 0%Z in
      (if negb has_normals && negb has_colors then
         let reduced := sort_and_reduce vadd keys sorted_points in
         store_at_begin output points (fst <$> reduced) ;;;
         counts <- checked (thrust.write_at_begin counts (snd <$> reduced)) ;;
         let n_out := int_wrap (vsize reduced) in
         ps <- read output points ;;
         store_at_begin output points
           (thrust.transform2 devide_tuple_functor1
              (take (Z.to_nat n_out) ps) counts) ;;;
         resize output points (size_t_wrap n_out)
       else if has_normals && negb has_colors then
         let sorted_normals := normals_ self in
         resize output normals (size_t_wrap n) ;;;
         let reduced :=
           sort_and_reduce (add_tuple_functor vadd vadd) keys
             (zip sorted_points sorted_normals) in
         store_at_begin output points ((fun r => r.1.1) <$> reduced) ;;;
         store_at_begin output normals ((fun r => r.1.2) <$> reduced) ;;;
         counts <- checked (thrust.write_at_begin counts (snd <$> reduced)) ;;
         let n_out := int_wrap (vsize reduced) in
         ps <- read output points ;;
         ns <- read output normals ;;
         let divided :=
           thrust.transform2 normalize_and_devide_tuple_functor2
             (take (Z.to_nat n_out) (zip ps ns)) counts in
         store_at_begin output points (fst <$> divided) ;;;
         store_at_begin output normals (snd <$> divided) ;;;
         resize output points (size_t_wrap n_out) ;;;
         resize output normals (size_t_wrap n_out)
       else if negb has_normals && has_colors then
         let sorted_colors := colors_ self in
         resize output colors (size_t_wrap n) ;;;
         let reduced :=
           sort_and_reduce (add_tuple_functor vadd vadd) keys
             (zip sorted_points sorted_colors) in
         store_at_begin output points ((fun r => r.1.1) <$> reduced) ;;;
         store_at_begin output colors ((fun r => r.1.2) <$> reduced) ;;;
         counts <- checked (thrust.write_at_begin counts (snd <$> reduced)) ;;
         let n_out := int_wrap (vsize reduced) in
         ps <- read output points ;;
         cs <- read output colors ;;
         let divided :=
           thrust.transform2 devide_tuple_functor2
             (take (Z.to_nat n_out) (zip ps cs)) counts in
         store_at_begin output points (fst <$> divided) ;;;
         store_at_begin output colors (snd <$> divided) ;;;
         resize output points (size_t_wrap n_out) ;;;
         resize output colors (size_t_wrap n_out)
       else
         let sorted_normals := normals_ self in
         let sorted_colors := colors_ self in
         resize output normals (size_t_wrap n) ;;;
         resize output colors (size_t_wrap n) ;;;
         let reduced :=
           sort_and_reduce
             (add_tuple_functor (add_tuple_functor vadd vadd) vadd) keys
             (zip (zip sorted_points sorted_normals) sorted_colors) in
         store_at_begin output points ((fun r => r.1.1.1) <$> reduced) ;;;
         store_at_begin output normals ((fun r => r.1.1.2) <$> reduced) ;;;
         store_at_begin output colors ((fun r => r.1.2) <$> reduced) ;;;
         counts <- checked (thrust.write_at_begin counts (snd <$> reduced)) ;;
         let n_out := int_wrap (vsize reduced) in
         ps <- read output points ;;
         ns <- read output normals ;;
         cs <- read output colors ;;
         let divided :=
           thrust.transform2 normalize_and_devide_tuple_functor3
             (take (Z.to_nat n_out) (zip (zip ps ns) cs)) counts in
         store_at_begin output points ((fun r => r.1.1) <$> divided) ;;;
         store_at_begin output normals ((fun r => r.1.2) <$> divided) ;;;
         store_at_begin output colors (snd <$> divided) ;;;
         resize output points (size_t_wrap n_out) ;;;
         resize output normals (size_t_wrap n_out) ;;;
         resize output colors (size_t_wrap n_out)) ;;;
      LogDebug "Pointcloud down sampled from {:d} points to {:d} points.\n" ;;;
      ret output.

Definition strided_copy (src dst : loc) (b : buffer) (stride : Z) : M F unit :=
  input <- read src b ;;
  vals <- checked (thrust.strided_range input stride) ;;
  store_at_begin dst b vals.

Definition UniformDownSample (this : loc) (every_k_points : Z) : M F loc :=
  self <- load this ;;
  let has_normals := HasNormals self in
  let has_colors := HasColors self in
  output <- make_shared ;;
  if (every_k_points =? 0)%Z then
    LogError "[UniformDownSample] Illegal sample rate." ;;;
    ret output
  else
    let n_out := int_wrap (vsize (points_ self) `div` every_k_points) in
    resize output points (size_t_wrap n_out) ;;;
    when has_normals (resize output normals (size_t_wrap n_out)) ;;;
    when has_colors (resize output colors (size_t_wrap n_out)) ;;;
    strided_copy this output points (difference_wrap every_k_points) ;;;
    when has_normals
      (strided_copy this output normals (difference_wrap every_k_points)) ;;;
    when has_colors
      (strided_copy this output colors (difference_wrap every_k_points)) ;;;
    ret output.

(** The tail shared by the two outlier filters: [copy_if] over the
    enumerated per-point values into [indices], which is then cut to the
    number of kept entries, and the selection of those entries. *)
Definition select_where {A} (this : loc) (keep : Z * A -> bool)
    (values : list A) (indices : list Z) : M F (loc * list Z) :=
  let selected := thrust.copy_if keep (thrust.enumerate values) in
  indices <- checked (thrust.write_at_begin indices (fst <$> selected)) ;;
  let indices := resized (vsize selected) 0%Z indices in
  output <- SelectByIndex this indices false ;;
  ret (output, indices).

Definition RemoveRadiusOutliers (this : loc) (nb_points : Z)
    (search_radius : F) : M F (loc * list Z) :=
  when ((nb_points <? 1)%Z || fleb search_radius F0)
    (LogError
       "[RemoveRadiusOutliers] Illegal input parameters,number of points and radius must be positive") ;;;
  self <- load this ;;
  let '(tmp_indices, dist) :=
    SearchRadius self (points_ self) search_radius
      (size_t_add nb_points 1) in
  let n_pt := vsize (points_ self) in
  let counts := device_vector n_pt 0%Z in
  let indices := device_vector n_pt 0%Z in
  let range :=
    thrust.repeated_range 0 n_pt (difference_wrap (size_t_add nb_points 1)) in
  found <- checked (read_n (length range) tmp_indices) ;;
  counts <- checked
    (thrust.write_at_begin counts
       (snd <$> thrust.reduce_by_key Z.eqb size_t_add
          (zip range
             ((fun idx : Z => if (0 <=? idx)%Z then 1%Z else 0%Z) <$> found)))) ;;
  select_where this (fun x : Z * Z => (nb_points <? x.2)%Z) counts indices.

(** The reduction of [RemoveStatisticalOutliers]: a distance that is
    infinite or negative counts for nothing. *)
Definition add_valid_distance (rhs lhs : Z * F) : Z * F :=
  let '(rc, rd) :=
    if fisinf rhs.2 || fltb rhs.2 F0 then (0%Z, F0) else rhs in
  let '(lc, ld) :=
    if fisinf lhs.2 || fltb lhs.2 F0 then (0%Z, F0) else lhs in
  (size_t_add rc lc, fadd rd ld).

Definition RemoveStatisticalOutliers (this : loc) (nb_neighbors : Z)
    (std_ratio : F) : M F (loc * list Z) :=
  when ((nb_neighbors <? 1)%Z || fleb std_ratio F0)
    (LogError
       "[RemoveStatisticalOutliers] Illegal input parameters, number of neighbors and standard deviation ratio must be positive") ;;;
  self <- load this ;;
  if bool_decide (points_ self = []) then
    output <- make_shared ;;
    ret (output, [])
  else
    let n_pt := vsize (points_ self) in
    let avg_distances := device_vector n_pt F0 in
    let indices := device_vector n_pt 0%Z in
    let counts := device_vector n_pt 0%Z in
    let '(tmp_indices, dist) :=
      SearchKNN self (points_ self) (int_wrap nb_neighbors) in
    let range :=
      thrust.repeated_range 0 n_pt (difference_wrap nb_neighbors) in
    found <- checked (read_n (length range) dist) ;;
    let reduced :=
      snd <$> thrust.reduce_by_key Z.eqb add_valid_distance
                (zip range ((fun d : F => (1%Z, d)) <$> found)) in
    counts <- checked (thrust.write_at_begin counts (fst <$> reduced)) ;;
    avg_distances <- checked
      (thrust.write_at_begin avg_distances (snd <$> reduced)) ;;
    let avg_distances :=
      thrust.transform2
        (fun (avg : F) (cnt : Z) =>
           if (0 <? cnt)%Z then fdiv avg (of_int cnt) else Fminus1)
        avg_distances counts in
    let mean_and_count :=
      thrust.transform_reduce
        (fun x : F => (fmax x F0, if fleb F0 x then 1%Z else 0%Z))
        (F0, 0%Z) (add_tuple_functor fadd size_t_add) avg_distances in
    let valid_distances := mean_and_count.2 in
    if (valid_distances =? 0)%Z then
      output <- make_shared ;;
      ret (output, [])
    else
      let cloud_mean := fdiv mean_and_count.1 (of_int valid_distances) in
      let sq_sum :=
        thrust.transform_reduce
          (fun x : F =>
             if fltb F0 x
             then fmul (fsub x cloud_mean) (fsub x cloud_mean) else F0)
          F0 fadd avg_distances in
      (* Bessel's correction *)
      let std_dev :=
        fsqrt (fdiv sq_sum (of_int (size_t_wrap (valid_distances - 1)))) in
      let distance_threshold := fadd cloud_mean (fmul std_ratio std_dev) in
      select_where this (check_distance_threshold_functor distance_threshold)
        avg_distances indices.
End Kernels.

(** ** [graph_factory.cu]: dense grid graphs *)

Definition int_mul (a b : Z) : Z := int_wrap (a * b).

(** An [int] operand of an operation whose other operand is a [size_t]. *)
Definition size_t_of_int (a : Z) : Z := size_t_wrap a.

Module Graph.

(** [Graph<Dim>], as far as the factory fills it: the node positions and
    the lines (pairs of node indices). *)
Record Graph (P : Type) := mkGraph {
  points_ : list P;
  lines_ : list Vector2i
}.
Arguments mkGraph {P} _ _.
Arguments points_ {P} _.
Arguments lines_ {P} _.

(** [Graph<Dim>::ConstructGraph] is defined in [graph.cu], which is not
    among the sources. *)
Class Construct := {
  ConstructGraph : forall P : Type, Graph P -> Graph P
}.

Definition NUM_OFFSET : list Z := [8; 26]%Z.

Definition voxel_offset : list Vector3i :=
  [ (1, 0, 0);  (-1, 0, 0);  (0, 1, 0);   (0, -1, 0);  (0, 0, 1);
    (0, 0, -1); (1, 1, 0);   (1, -1, 0);  (-1, 1, 0);  (-1, -1, 0);
    (1, 0, 1);  (1, 0, -1);  (-1, 0, 1);  (-1, 0, -1); (0, 1, 1);
    (0, 1, -1); (0, -1, 1);  (0, -1, -1); (1, 1, 1);   (-1, -1, -1);
    (-1, 1, 1); (1, -1, -1); (1, -1, 1);  (-1, 1, -1); (-1, -1, 1);
    (1, 1, -1) ]%Z.

Definition voxel_offset_2d : list Vector2i :=
  [ (1, 0);  (-1, 0);  (0, 1);   (0, -1);
    (1, 1);  (1, -1);  (-1, 1);  (-1, -1) ]%Z.

(** [table[k]]; an index outside the table reads no offset. *)
Definition at_index {A} (table : list A) (k : Z) (d : A) : A :=
  if decide (0 <= k)%Z then nth (Z.to_nat k) table d else d.

Section Factory.
Context {F : Type} `{Float32 F} `{!Construct}.
Local Open Scope Z_scope.

Definition create_dense_grid_points_functor3
    (resolutions_ : Vector3i) (min_bound_ steps_ : Vector3f F)
    (idx : Z) : Vector3f F :=
  let '(r0, r1, r2) := resolutions_ in
  let x := int_wrap (idx `div` size_t_of_int (int_mul r1 r2)) in
  let yz := int_wrap (idx `mod` size_t_of_int (int_mul r1 r2)) in
  let y := yz `quot` r2 in
  let z := yz `rem` r2 in
  vadd min_bound_ (vcwise_mul (cast_float3 (x, y, z)) steps_).

Definition create_dense_grid_points_functor2
    (resolutions_ : Vector2i) (min_bound_ steps_ : Vector2f F)
    (idx : Z) : Vector2f F :=
  let '(r0, r1) := resolutions_ in
  let x := int_wrap (idx `div` size_t_of_int r1) in
  let y := int_wrap (idx `mod` size_t_of_int r1) in
  vadd2 min_bound_ (vcwise_mul2 (cast_float2 (x, y)) steps_).

Definition create_dense_grid_lines_functor3
    (resolutions_ : Vector3i) (idx : Z) : Vector2i :=
  let '(r0, r1, r2) := resolutions_ in
  let x := int_wrap (idx `div` size_t_of_int (int_mul (int_mul r1 r2) 26)) in
  let yzk := int_wrap (idx `mod` size_t_of_int (int_mul (int_mul r1 r2) 26)) in
  let y := yzk `quot` int_mul r2 26 in
  let zk := yzk `rem` int_mul r2 26 in
  let z := zk `quot` 26 in
  let k := zk `rem` 26 in
  let sidx : Vector3i := (x, y, z) in
  let '(ox, oy, oz) := at_index voxel_offset k (0, 0, 0) in
  let gidx : Vector3i := (int_wrap (x + ox), int_wrap (y + oy), int_wrap (z + oz)) in
  let '(g0, g1, g2) := gidx in
  if (g0 <? 0) || (r0 <=? g0) || (g1 <? 0) || (r1 <=? g1) ||
     (g2 <? 0) || (r2 <=? g2)
  then (-1, -1)
  else
    let j := int_wrap (int_wrap (int_mul (int_mul g0 r1) r2 + int_mul g1 r2) + g2) in
    let i := int_wrap (int_wrap (int_mul (int_mul x r1) r2 + int_mul y r2) + z) in
    (i, j).

Definition create_dense_grid_lines_functor2
    (resolutions_ : Vector2i) (idx : Z) : Vector2i :=
  let '(r0, r1) := resolutions_ in
  let x := int_wrap (idx `div` size_t_of_int (int_mul r1 8)) in
  let yk := int_wrap (idx `mod` size_t_of_int (int_mul r1 8)) in
  let y := yk `quot` 8 in
  let k := yk `rem` 8 in
  let '(ox, oy) := at_index voxel_offset_2d k (0, 0) in
  let g0 := int_wrap (x + ox) in
  let g1 := int_wrap (y + oy) in
  if (g0 <? 0) || (r0 <=? g0) || (g1 <? 0) || (r1 <=? g1)
  then (-1, -1)
  else
    let j := int_wrap (int_mul g0 r1 + g1) in
    let i := int_wrap (int_mul x r1 + y) in
    (i, j).

(** The body of the template, once the point type, the product of the
    resolutions, the two functors and [NUM_OFFSET[Dim - 2]] are fixed. *)
Definition create_dense_grid {P : Type} (zero : P) (prod : Z)
    (pfunc : Z -> P) (lfunc : Z -> Vector2i) (num_offset : Z)
    : option (Graph P) :=
  let n_points := size_t_of_int prod in
  pts ← thrust.write_at_begin (device_vector n_points zero)
          (thrust.transform pfunc (thrust.counting 0 n_points));
  let n_lines := size_t_wrap (n_points * num_offset) in
  lns ← thrust.write_at_begin (device_vector n_lines (0, 0))
          (thrust.transform lfunc (thrust.counting 0 n_lines));
  let kept := thrust.remove_if (fun l : Vector2i => l.1 <? 0) lns in
  Some (ConstructGraph P (mkGraph pts kept)).

Definition CreateFromAxisAlignedBoundingBox3
    (min_bound max_bound : Vector3f F) (resolutions : Vector3i)
    : option (Graph (Vector3f F)) :=
  let steps := vcwise_div (vsub max_bound min_bound) (cast_float3 resolutions) in
  let '(r0, r1, r2) := resolutions in
  create_dense_grid Zero3 (int_mul (int_mul r0 r1) r2)
    (create_dense_grid_points_functor3 resolutions min_bound steps)
    (create_dense_grid_lines_functor3 resolutions)
    (at_index NUM_OFFSET (3 - 2) 0).

Definition CreateFromAxisAlignedBoundingBox2
    (min_bound max_bound : Vector2f F) (resolutions : Vector2i)
    : option (Graph (Vector2f F)) :=
  let steps := vcwise_div2 (vsub2 max_bound min_bound) (cast_float2 resolutions) in
  let '(r0, r1) := resolutions in
  create_dense_grid (F0, F0) (int_mul r0 r1)
    (create_dense_grid_points_functor2 resolutions min_bound steps)
    (create_dense_grid_lines_functor2 resolutions)
    (at_index NUM_OFFSET (2 - 2) 0).

(** Node index of an in-range grid coordinate. *)
Definition node3 (resolutions : Vector3i) (c : Vector3i) : Z :=
  let '(r0, r1, r2) := resolutions in
  let '(x, y, z) := c in
  x * r1 * r2 + y * r2 + z.

Definition node2 (resolutions : Vector2i) (c : Vector2i) : Z :=
  c.1 * resolutions.2 + c.2.

Definition in_grid3 (resolutions : Vector3i) (c : Vector3i) : Prop :=
  let '(r0, r1, r2) := resolutions in
  let '(x, y, z) := c in
  0 <= x < r0 /\ 0 <= y < r1 /\ 0 <= z < r2.

Definition in_grid2 (resolutions : Vector2i) (c : Vector2i) : Prop :=
  0 <= c.1 < resolutions.1 /\ 0 <= c.2 < resolutions.2.

(** The grid coordinate [c] moved by the offset [o]. *)
Definition shift3 (c o : Vector3i) : Vector3i :=
  (c.1.1 + o.1.1, c.1.2 + o.1.2, c.2 + o.2).

Definition shift2 (c o : Vector2i) : Vector2i :=
  (c.1 + o.1, c.2 + o.2).
End Factory.
End Graph.

(** ** Vocabulary of the statements *)

Global Instance buffer_eq_dec : EqDecision buffer.
Proof. solve_decision. Defined.

Section Vocabulary.
Context {F : Type} `{Float32 F}.

(** The world in which the cloud at [p] is [pc]. *)
Definition set_cloud (p : loc) (pc : PointCloud F) (w : world F) : world F :=
  mkWorld (<[p := pc]> (heap w)) (console w).

(** The world after one more console message. *)
Definition logged (m : message) (w : world F) : world F :=
  mkWorld (heap w) (console w ++ [m]).

(** A call that ended without touching memory outside a buffer. *)
Definition final_world {A} (o : outcome (world F) A) : option (world F) :=
  match o with
  | Ok _ w => Some w
  | Throw _ w => Some w
  | Fault => None
  end.

(** [wp on_fault m Q E w]: run from [w], the computation [m] returns a
    value and a world that satisfy [Q], or raises in a world that satisfies
    [E]; [on_fault] says whether it may also leave a buffer. *)
Definition wp {A} (on_fault : Prop) (m : M F A)
    (Q : A -> world F -> Prop) (E : world F -> Prop) (w : world F) : Prop :=
  match m w with
  | Ok a w' => Q a w'
  | Throw _ w' => E w'
  | Fault => on_fault
  end.

(** In [w] every cloud that [w0] holds is still there, buffer for buffer,
    and the cloud at [out], which [w0] did not have, has buffers of the
    lengths [lens]. *)
Definition output_at (w0 : world F) (out : loc) (lens : buffer -> nat)
    (w : world F) : Prop :=
  heap w0 ⊆ heap w /\ heap w0 !! out = None /\
  exists o, heap w !! out = Some o /\
            forall b, length (get_buffer b o) = lens b.

(** Buffer lengths of an output that has the attributes of [pc]: one
    normal (color) per output point when [pc] has normals (colors), none
    otherwise. *)
Definition presence (pc : PointCloud F) (lens : buffer -> nat) : Prop :=
  lens normals = (if HasNormals pc then lens points else 0) /\
  lens colors = (if HasColors pc then lens points else 0).

(** After a call started in [w] on the cloud [pc] at [this]: the input
    cloud, and every other cloud of [w], is in [w'] with the same
    buffers. *)
Definition input_unchanged (w : world F) (this : loc) (pc : PointCloud F)
    (w' : world F) : Prop :=
  heap w' !! this = Some pc /\ heap w ⊆ heap w'.

(** ... and the call returned the address [out] of a cloud that [w] did
    not have. *)
Definition fresh_output (w : world F) (this : loc) (pc : PointCloud F)
    (out : loc) (w' : world F) : Prop :=
  input_unchanged w this pc w' /\
  heap w !! out = None /\ is_Some (heap w' !! out).

(** The cloud at [out] has one normal per point if [pc] has normals and
    no normal otherwise, and likewise for colors. *)
Definition attributes_follow (pc : PointCloud F) (out : loc) (w' : world F)
    : Prop :=
  exists o, heap w' !! out = Some o /\
    length (normals_ o) = (if HasNormals pc then length (points_ o) else 0) /\
    length (colors_ o) = (if HasColors pc then length (points_ o) else 0).

(** Positions of a buffer of [n] elements. *)
Definition in_range (n : Z) (i : Z) : Prop := (0 <= i < n)%Z.

(** [output] holds, position by position, the elements of [input] that
    [indices] names. *)
Definition gathered {A} (indices : list Z) (input output : list A) : Prop :=
  length output = length indices /\
  forall i j, indices !! i = Some j ->
    (0 <= j)%Z /\ is_Some (input !! Z.to_nat j) /\
    output !! i = input !! Z.to_nat j.

(** [sel] is the sub-cloud of [pc] at [indices]: points, and normals and
    colors when [pc] has them; an attribute that [pc] lacks stays empty. *)
Definition selects (indices : list Z) (pc sel : PointCloud F) : Prop :=
  gathered indices (points_ pc) (points_ sel) /\
  (if HasNormals pc then gathered indices (normals_ pc) (normals_ sel)
   else normals_ sel = []) /\
  (if HasColors pc then gathered indices (colors_ pc) (colors_ sel)
   else colors_ sel = []).

(** What [SelectByIndexImpl] leaves in [dst], given what the gathers read. *)
Definition selection (s d : PointCloud F) (ps ns cs : list (Vector3f F))
    : PointCloud F :=
  mkPointCloud ps
    (if HasNormals s then ns else normals_ d)
    (if HasColors s then cs else colors_ d).

(** The positions of [[0, n)] that [indices] does not contain, ascending. *)
Definition complement (n : Z) (indices : list Z) : list Z :=
  filter (fun i => i ∉ indices) (seqZ 0 n).
End Vocabulary.

(** A reduction that starts from the first value, as [thrust::reduce_by_key]
    reduces a run. *)
Definition reduce1 {V} (op : V -> V -> V) (d : V) (vs : list V) : V :=
  match vs with
  | [] => d
  | v :: vs' => foldl op v vs'
  end.

(** The [i]-th block of [r] consecutive entries of a flat array. *)
Definition block {A} (r i : nat) (l : list A) : list A :=
  take r (drop (i * r) l).

(** Number of valid hits in one block of search results: the k-d tree
    marks a missing neighbour by a negative index. *)
Definition valid_hits (found : list Z) : Z :=
  Z.of_nat (length (List.filter (fun idx => (0 <=? idx)%Z) found)).

(** What [thrust::sort_by_key] needs of the comparison of keys. *)
Definition strict_total_order {K} (ltb : K -> K -> bool) : Prop :=
  (forall x, ltb x x = false) /\
  (forall x y z, ltb x y = true -> ltb y z = true -> ltb x z = true) /\
  (forall x y, x <> y -> ltb x y = true \/ ltb y x = true).

(** The values filed under key [c]. *)
Definition filed_under {K V} `{EqDecision K} (c : K) (l : list (K * V))
    : list V :=
  snd <$> List.filter (fun kv : K * V => bool_decide (kv.1 = c)) l.
Global Arguments filed_under : simpl never.

(** [x] is not after [y] in the order that [ltb] decides. *)
Definition not_after {A} (ltb : A -> A -> bool) (x y : A) : Prop :=
  ltb y x = false.

Section VoxelVocabulary.
Context {F : Type} `{Float32 F} `{!Platform F}.

(** The grid cell of a point: [compute_key_functor] at the lower bound of
    the cloud moved out by half a voxel. *)
Definition voxel_key (pc : PointCloud F) (voxel_size : F)
    : Vector3f F -> Vector3i :=
  compute_key_functor
    (vsub (GetMinBound pc)
       (vscale (voxel_size, voxel_size, voxel_size) Fhalf))
    voxel_size.

(** The values of an attribute (position, normal, color) of the points
    that [key] buckets into cell [c], in input order. *)
Definition in_cell {A} (key : Vector3f F -> Vector3i) (c : Vector3i)
    (pts : list (Vector3f F)) (attr : list A) : list A :=
  filed_under c (zip (key <$> pts) attr).

(** Arithmetic mean: the sum, left to right, divided by the count. *)
Definition mean (vs : list (Vector3f F)) : Vector3f F :=
  devide (reduce1 vadd Zero3 vs) (Z.of_nat (length vs)).

(** The cloud that [VoxelDownSample] leaves in its output, in terms of the
    reduction of each branch. *)
Definition voxel_result (pc : PointCloud F) (keys : list Vector3i)
    : PointCloud F :=
  let ps := points_ pc in
  let ns := normals_ pc in
  let cs := colors_ pc in
  if negb (HasNormals pc) && negb (HasColors pc) then
    let reduced := sort_and_reduce vadd keys ps in
    mkPointCloud
      ((fun r => devide_tuple_functor1 r.1 r.2) <$> reduced) [] []
  else if HasNormals pc && negb (HasColors pc) then
    let reduced :=
      sort_and_reduce (add_tuple_functor vadd vadd) keys (zip ps ns) in
    let divided :=
      (fun r => normalize_and_devide_tuple_functor2 r.1 r.2) <$> reduced in
    mkPointCloud (fst <$> divided) (snd <$> divided) []
  else if negb (HasNormals pc) && HasColors pc then
    let reduced :=
      sort_and_reduce (add_tuple_functor vadd vadd) keys (zip ps cs) in
    let divided :=
      (fun r => devide_tuple_functor2 r.1 r.2) <$> reduced in
    mkPointCloud (fst <$> divided) [] (snd <$> divided)
  else
    let reduced :=
      sort_and_reduce (add_tuple_functor (add_tuple_functor vadd vadd) vadd)
        keys (zip (zip ps ns) cs) in
    let divided :=
      (fun r => normalize_and_devide_tuple_functor3 r.1 r.2) <$> reduced in
    mkPointCloud ((fun x => x.1.1) <$> divided)
                 ((fun x => x.1.2) <$> divided)
                 (snd <$> divided).
End VoxelVocabulary.

(** ** The statistical filter

    The average distance of one point as the code computes it: the valid
    distances of its block of search results, summed and counted by
    [add_valid_distance], then divided; [-1] without a valid one. *)
Definition average_distance {F : Type} `{Float32 F} (found : list F) : F :=
  let s :=
    reduce1 add_valid_distance (0%Z, F0) ((fun d => (1%Z, d)) <$> found) in
  if (0 <? s.1)%Z then fdiv s.2 (of_int s.1) else Fminus1.

(** *** ... as the specification words it

    The per-point average distance and the inliers of
    [0 < d < mean + std_ratio * std_dev] with the mean and the
    Bessel-corrected standard deviation taken over the valid (finite,
    non-negative) average distances.  These follow the specification, not
    the code, and are what [RemoveStatisticalOutliers] is compared with. *)
Section StatisticalVocabulary.
Context {F : Type} `{Float32 F}.

Definition spec_valid (d : F) : bool := negb (fisinf d) && fleb F0 d.

Definition spec_sum (l : list F) : F := foldl fadd F0 l.

Definition spec_average (distances : list F) : F :=
  match List.filter spec_valid distances with
  | [] => Fminus1
  | vs => fdiv (spec_sum vs) (of_int (Z.of_nat (length vs)))
  end.

Definition spec_mean (avg : list F) : F :=
  let vs := List.filter spec_valid avg in
  fdiv (spec_sum vs) (of_int (Z.of_nat (length vs))).

Definition spec_std_dev (avg : list F) : F :=
  let vs := List.filter spec_valid avg in
  let m := spec_mean avg in
  fsqrt (fdiv (spec_sum ((fun d => fmul (fsub d m) (fsub d m)) <$> vs))
              (of_int (Z.of_nat (length vs) - 1))).

Definition spec_inliers (avg : list F) (std_ratio : F) : list Z :=
  let threshold :=
    fadd (spec_mean avg) (fmul std_ratio (spec_std_dev avg)) in
  fst <$>
    List.filter (fun x : Z * F => fltb F0 x.2 && fltb x.2 threshold)
      (thrust.enumerate avg).
End StatisticalVocabulary.

(** ** An instance for concrete runs: exact rational arithmetic

    [Q] with reduced fractions stands for [float] on inputs whose
    intermediate values single precision represents exactly or whose
    comparisons have a wide margin; the square root is rounded down to a
    multiple of [2^-16].  The absent collaborators are given simple
    executable stand-ins: a console whose [LogError] raises or returns as
    asked, Eigen's [normalize], coefficient-wise bounds, the lexicographic
    order on voxel keys and a brute-force neighbour search on squared
    distances. *)
Module Exact.
Local Open Scope Z_scope.

Definition Qlt_bool (x y : Q) : bool := negb (Qle_bool y x).

Definition Qsqrt (q : Q) : Q :=
  Qred (Z.sqrt (Qnum q * Z.pos (Qden q) * 2 ^ 32) # (Qden q * 2 ^ 16)).

(** Conversion to [int] truncates toward zero. *)
Definition Qtrunc (q : Q) : Z := int_wrap (Qnum q `quot` Z.pos (Qden q)).

#[export] Instance Q_Float32 : Float32 Q := {|
  F0 := 0%Q;
  Fhalf := (1 # 2)%Q;
  Fminus1 := (-1 # 1)%Q;
  fadd x y := Qred (x + y);
  fsub x y := Qred (x - y);
  fmul x y := Qred (x * y);
  fdiv x y := Qred (x / y);
  fltb := Qlt_bool;
  fleb := Qle_bool;
  fmax x y := if Qle_bool x y then y else x;
  ffloor x := inject_Z (Qfloor x);
  fsqrt := Qsqrt;
  fisinf _ := false;
  of_int := inject_Z;
  cast_int := Qtrunc
|}.

Definition lexicographic (a b : Vector3i) : bool :=
  let '(a0, a1, a2) := a in
  let '(b0, b1, b2) := b in
  if a0 <? b0 then true else if b0 <? a0 then false
  else if a1 <? b1 then true else if b1 <? a1 then false
  else a2 <? b2.

Definition squaredNorm (v : Vector3f Q) : Q :=
  let '(x, y, z) := v in Qred (x * x + y * y + z * z).

Definition Eigen_normalize (v : Vector3f Q) : Vector3f Q :=
  let z := squaredNorm v in
  if Qlt_bool 0 z then vdiv v (Qsqrt z) else v.

Definition cwise (f : Q -> Q -> Q) (a b : Vector3f Q) : Vector3f Q :=
  let '(ax, ay, az) := a in let '(bx, by_, bz) := b in
  (f ax bx, f ay by_, f az bz).

Definition bound (f : Q -> Q -> Q) (pc : PointCloud Q) : Vector3f Q :=
  match points_ pc with
  | [] => Zero3
  | p :: ps => foldl (cwise f) p ps
  end.

Definition Qmin' (x y : Q) : Q := if Qle_bool x y then x else y.
Definition Qmax' (x y : Q) : Q := if Qle_bool x y then y else x.

(** All points of the geometry with their squared distance to [q],
    nearest first. *)
Definition by_distance (pc : PointCloud Q) (q : Vector3f Q) : list (Z * Q) :=
  thrust.sort (fun a b : Z * Q => Qlt_bool a.2 b.2)
    (thrust.enumerate ((fun p => squaredNorm (vsub p q)) <$> points_ pc)).

Definition padded (k : Z) (found : list (Z * Q)) : list (Z * Q) :=
  resized k (-1, 0%Q) found.

Definition brute_force_knn (pc : PointCloud Q) (queries : list (Vector3f Q))
    (knn : Z) : list Z * list Q :=
  let rows := (fun q => padded knn (by_distance pc q)) <$> queries in
  (fst <$> concat rows, snd <$> concat rows).

Definition brute_force_radius (pc : PointCloud Q) (queries : list (Vector3f Q))
    (radius : Q) (max_nn : Z) : list Z * list Q :=
  let rows :=
    (fun q =>
       padded max_nn
         (List.filter (fun a : Z * Q => Qlt_bool a.2 (Qred (radius * radius)))
            (by_distance pc q))) <$> queries in
  (fst <$> concat rows, snd <$> concat rows).

Definition Q_Platform (throws : bool) : Platform Q := {|
  LogError_throws := throws;
  normalize := Eigen_normalize;
  GetMinBound := bound Qmin';
  GetMaxBound := bound Qmax';
  less_Vector3i := lexicographic;
  SearchRadius := brute_force_radius;
  SearchKNN := brute_force_knn
|}.

(** The console whose [LogError] raises, and the one whose [LogError]
    returns. *)
Definition raising : Platform Q := Q_Platform true.
Definition returning : Platform Q := Q_Platform false.

(** A [ConstructGraph] that leaves the graph as it is. *)
Definition plain_construct : Graph.Construct :=
  {| Graph.ConstructGraph := fun P g => g |}.

Definition pt (x y z : Z) : Vector3f Q := (inject_Z x, inject_Z y, inject_Z z).

(** A world with one cloud, at address [0]. *)
Definition world_with (pc : PointCloud Q) : world Q :=
  mkWorld {[ 0%nat := pc ]} [].

(** Three points on a line, without normals or colors. *)
Definition three_points : PointCloud Q :=
  mkPointCloud [pt 0 0 0; pt 1 0 0; pt 2 0 0] [] [].

(** The same with a normal per point. *)
Definition three_with_normals : PointCloud Q :=
  mkPointCloud [pt 0 0 0; pt 1 0 0; pt 2 0 0]
               [pt 0 0 1; pt 0 1 0; pt 1 0 0] [].

Definition one_point : PointCloud Q := mkPointCloud [pt 5 5 5] [] [].

(** Two coincident points and two more at distances 10 and 16. *)
Definition with_duplicates : PointCloud Q :=
  mkPointCloud [pt 0 0 0; pt 0 0 0; pt 10 0 0; pt 16 0 0] [] [].

(** Four points on a line, no two of them equal. *)
Definition four_distinct : PointCloud Q :=
  mkPointCloud [pt 0 0 0; pt 1 0 0; pt 3 0 0; pt 16 0 0] [] [].
End Exact.

(** ** More vocabulary: copies, sub-sequences *)

Section CopyVocabulary.
Context {F : Type} `{Float32 F}.

(** The cloud with the attributes that count as present: what a member
    that copies point by point can carry over. *)
Definition present_part (pc : PointCloud F) : PointCloud F :=
  mkPointCloud (points_ pc)
    (if HasNormals pc then normals_ pc else [])
    (if HasColors pc then colors_ pc else []).
End CopyVocabulary.

(** ** [cupoch/utility/range.h] over any range

    The range adaptors are templates over the iterator; [thrust.repeated_range]
    above is the instance at counting iterators that the outlier filters
    use.  Here the underlying range is any device vector: the adaptor reads
    [first[f(i)]] through a permutation iterator, for [i] below its
    [end() - begin()]. *)
Module ranges.

(** [repeated_range]: position [i] reads [first[i / repeats]], for
    [i < repeats * (last - first)]. *)
Definition repeated_range {A} (v : list A) (repeats : Z) : option (list A) :=
  thrust.gather
    ((fun i : Z => (i `quot` repeats)%Z)
       <$> thrust.counting 0 (difference_wrap (repeats * vsize v)%Z))
    v.

(** [tiled_range]: position [i] reads [first[i % (last - first)]], for
    [i < tiles * (last - first)]. *)
Definition tiled_range {A} (v : list A) (tiles : Z) : option (list A) :=
  thrust.gather
    ((fun i : Z => (i `rem` vsize v)%Z)
       <$> thrust.counting 0 (difference_wrap (tiles * vsize v)%Z))
    v.

End ranges.

(** ** Neighbouring grid coordinates *)
Module GridVocabulary.
Local Open Scope Z_scope.

(** Two different grid coordinates that differ by at most one along
    every axis. *)
Definition adjacent3 (c d : Vector3i) : Prop :=
  c <> d /\
  -1 <= d.1.1 - c.1.1 <= 1 /\ -1 <= d.1.2 - c.1.2 <= 1 /\
  -1 <= d.2 - c.2 <= 1.

Definition adjacent2 (c d : Vector2i) : Prop :=
  c <> d /\ -1 <= d.1 - c.1 <= 1 /\ -1 <= d.2 - c.2 <= 1.
End GridVocabulary.

(** ** [cupoch_pybind/utility/eigen.cpp]: numpy arrays to vectors *)
Module pybind.

(** A [py::array_t<T, c_style | forcecast>]: its shape, its elements,
    contiguous and row by row, and numpy's [WRITEABLE] flag. *)
Record array_t (T : Type) := mk_array {
  shape_ : list Z;
  data_ : list T;
  writeable_ : bool
}.
Arguments mk_array {T} shape_ data_ writeable_.
Arguments shape_ {T} a.
Arguments data_ {T} a.
Arguments writeable_ {T} a.

Definition ndim {T} (array : array_t T) : Z := vsize (shape_ array).

Definition shape {T} (array : array_t T) (k : nat) : Z :=
  nth k (shape_ array) 0%Z.

(** [array.mutable_unchecked<Dims>()] is pybind11's, which is not among
    the sources: it raises [std::domain_error] for an array that does not
    have [Dims] dimensions or is not writeable, and otherwise gives
    access to the elements without further checks. *)
Definition mutable_unchecked {T} (dims : Z) (array : array_t T)
    : outcome unit (array_t T) :=
  if negb (ndim array =? dims)%Z || negb (writeable_ array)
  then Throw "domain_error" tt
  else Ok array tt.

(** [Eigen::Map<EigenVector>(&array_unchecked(i, 0))]: the
    [SizeAtCompileTime] scalars that start at row [i]; the pointer is not
    checked against the buffer. *)
Definition Map {T} (size : Z) (array : array_t T) (i : Z)
    : option (list T) :=
  let first := Z.to_nat (i * shape array 1) in
  read_n (Z.to_nat size) (drop first (data_ array)).

(** The loop [for (auto i = 0; i < shape(0); ++i) eigen_vectors[i] = ...]
    over a [host_vector] of [shape(0)] vectors, from [i] on; [i] is an
    [int]. *)
Fixpoint assign_rows {T} (size : Z) (array : array_t T) (fuel : nat)
    (i : Z) (eigen_vectors : list (list T)) : option (list (list T)) :=
  if (i <? shape array 0)%Z then
    match fuel with
    | O => None
    | S fuel' =>
        row ← Map size array i;
        if decide (Z.to_nat i < length eigen_vectors) then
          assign_rows size array fuel' (int_wrap (i + 1))
            (<[Z.to_nat i := row]> eigen_vectors)
        else None
    end
  else Some eigen_vectors.

(** [py_array_to_vectors_float], [py_array_to_vectors_int] and
    [py_array_to_vectors_int_eigen_allocator], which differ in the scalar
    type only.  [fresh_vector] is what a vector of the new [host_vector]
    holds before it is assigned.  A C++ exception ([py::cast_error],
    [std::domain_error]) is [Throw]. *)
Definition py_array_to_vectors {T} (eigen_vector_size : Z)
    (fresh_vector : list T) (array : array_t T)
    : outcome unit (list (list T)) :=
  if negb (ndim array =? 2)%Z || negb (shape array 1 =? eigen_vector_size)%Z
  then Throw "cast_error" tt
  else
    let eigen_vectors :=
      device_vector (size_t_wrap (shape array 0)) fresh_vector in
    match mutable_unchecked 2 array with
    | Ok array_unchecked _ =>
        match assign_rows eigen_vector_size array_unchecked
                (Z.to_nat (shape array_unchecked 0)) 0 eigen_vectors with
        | Some vs => Ok vs tt
        | None => Fault
        end
    | Throw e _ => Throw e tt
    | Fault => Fault
    end.

(** The [j]-th run of [d] elements of a buffer: row [j] of an array
    with [d] columns. *)
Definition chunk {T} (d : nat) (data : list T) (j : nat) : list T :=
  take d (drop (j * d) data).

(** An array whose buffer has as many elements as its shape says. *)
Definition well_formed {T} (array : array_t T) : Prop :=
  Forall (fun d => 0 <= d)%Z (shape_ array) /\
  vsize (data_ array) = foldr Z.mul 1%Z (shape_ array).

End pybind.

(** ** [cupoch/io/class_io/pointcloud_io.cpp]: reading and writing by
    file extension *)

(** What the dispatch calls and the sources do not contain: the extension
    of a file name ([utility::filesystem]), the readers and writers of the
    two formats, [PointCloud::RemoveNoneFinitePoints], and the default
    arguments that the declaration of [ReadPointCloud] in
    [pointcloud_io.h] gives to [remove_infinite_points] and
    [print_progress].  Readers and writers act on the cloud at an address
    and answer whether they succeeded. *)
Class PointCloudFiles (F : Type) `{Float32 F} := {
  GetFileExtensionInLowerCase : string -> string;
  ReadPointCloudFromPLY : string -> loc -> bool -> M F bool;
  ReadPointCloudFromPCD : string -> loc -> bool -> M F bool;
  WritePointCloudToPLY : string -> loc -> bool -> bool -> bool -> M F bool;
  WritePointCloudToPCD : string -> loc -> bool -> bool -> bool -> M F bool;
  RemoveNoneFinitePoints : loc -> bool -> bool -> M F unit;
  default_remove_infinite_points : bool;
  default_print_progress : bool
}.

Module io.
Section PointCloudIO.
Context {F : Type} `{Float32 F} `{!PointCloudFiles F}.

Definition file_extension_to_pointcloud_read_function
    : gmap string (string -> loc -> bool -> M F bool) :=
  {[ "ply"%string := ReadPointCloudFromPLY;
     "pcd"%string := ReadPointCloudFromPCD ]}.

Definition file_extension_to_pointcloud_write_function
    : gmap string (string -> loc -> bool -> bool -> bool -> M F bool) :=
  {[ "ply"%string := WritePointCloudToPLY;
     "pcd"%string := WritePointCloudToPCD ]}.

Definition ReadPointCloud (filename : string) (pointcloud : loc)
    (format : string)
    (remove_nan_points remove_infinite_points print_progress : bool)
    : M F bool :=
  let filename_ext :=
    if String.eqb format "auto"
    then GetFileExtensionInLowerCase filename
    else format in
  if String.eqb filename_ext "" then
    LogWarning "Read geometry::PointCloud failed: unknown file extension.\n" ;;;
    ret false
  else
    match file_extension_to_pointcloud_read_function !! filename_ext with
    | None =>
        LogWarning
          "Read geometry::PointCloud failed: unknown file extension.\n" ;;;
        ret false
    | Some read =>
        success <- read filename pointcloud print_progress ;;
        LogDebug "Read geometry::PointCloud: {:d} vertices.\n" ;;;
        when (remove_nan_points || remove_infinite_points)
          (RemoveNoneFinitePoints pointcloud remove_nan_points
             remove_infinite_points) ;;;
        ret success
    end.

(** The call passes four arguments: [print_progress] is the fourth
    parameter of [ReadPointCloud], [remove_nan_points]; the last two take
    their defaults. *)
Definition CreatePointCloudFromFile (filename format : string)
    (print_progress : bool) : M F loc :=
  pointcloud <- make_shared ;;
  ReadPointCloud filename pointcloud format print_progress
    default_remove_infinite_points default_print_progress ;;;
  ret pointcloud.

Definition WritePointCloud (filename : string) (pointcloud : loc)
    (write_ascii compressed print_progress : bool) : M F bool :=
  let filename_ext := GetFileExtensionInLowerCase filename in
  if String.eqb filename_ext "" then
    LogWarning "Write geometry::PointCloud failed: unknown file extension.\n" ;;;
    ret false
  else
    match file_extension_to_pointcloud_write_function !! filename_ext with
    | None =>
        LogWarning
          "Write geometry::PointCloud failed: unknown file extension.\n" ;;;
        ret false
    | Some write =>
        success <- write filename pointcloud write_ascii compressed
                     print_progress ;;
        LogDebug "Write geometry::PointCloud: {:d} vertices.\n" ;;;
        ret success
    end.
End PointCloudIO.
End io.

(** ** Stand-ins for the files of the concrete runs *)
Module Files.
Import Exact.

Definition lower (c : Ascii.ascii) : Ascii.ascii :=
  let n := Ascii.nat_of_ascii c in
  if (65 <=? n)%nat && (n <=? 90)%nat then Ascii.ascii_of_nat (n + 32) else c.

(** The part of a file name after its last dot, in lower case; nothing
    without a dot. *)
Fixpoint extension_from (s : string) (found : option string) : string :=
  match s with
  | EmptyString => default EmptyString found
  | String c s' =>
      if Ascii.eqb c (Ascii.ascii_of_nat 46)
      then extension_from s' (Some EmptyString)
      else extension_from s'
             ((fun e => (e ++ String (lower c) EmptyString)%string) <$> found)
  end.

(** Every [ply] file holds [one_point]; reading a [pcd] file fails. *)
Definition files : PointCloudFiles Q := {|
  GetFileExtensionInLowerCase := fun s => extension_from s None;
  ReadPointCloudFromPLY := fun _ p _ =>
    write p points (points_ one_point) ;;; ret true;
  ReadPointCloudFromPCD := fun _ _ _ => ret false;
  WritePointCloudToPLY := fun _ _ _ _ _ => ret true;
  WritePointCloudToPCD := fun _ _ _ _ _ => ret false;
  RemoveNoneFinitePoints := fun _ _ _ => ret tt;
  default_remove_infinite_points := true;
  default_print_progress := false
|}.
End Files.

(** * Properties *)

(** ** Machine integers in range *)

Lemma int_wrap_small (z : Z) : (- 2 ^ 31 <= z < 2 ^ 31)%Z -> int_wrap z = z.
Proof.
  intros Hz. unfold int_wrap.
  rewrite Z.mod_small by lia. lia.
Qed.

Lemma size_t_wrap_small (z : Z) : (0 <= z < 2 ^ 64)%Z -> size_t_wrap z = z.
Proof. intros Hz. unfold size_t_wrap. now rewrite Z.mod_small. Qed.

Lemma difference_wrap_small (z : Z) :
  (- 2 ^ 63 <= z < 2 ^ 63)%Z -> difference_wrap z = z.
Proof.
  intros Hz. unfold difference_wrap.
  rewrite Z.mod_small by lia. lia.
Qed.

Lemma vsize_nonneg {A} (v : list A) : (0 <= vsize v)%Z.
Proof. unfold vsize. lia. Qed.

(** ** Thrust algorithms *)

Module thrust_facts.
Import thrust.

Lemma write_at_begin_exact {A} (dst vals : list A) :
  length vals = length dst -> write_at_begin dst vals = Some vals.
Proof.
  intros Hlen. unfold write_at_begin.
  rewrite decide_True by lia.
  rewrite drop_ge by lia. now rewrite app_nil_r.
Qed.

Lemma write_at_begin_Some {A} (dst vals : list A) :
  length vals <= length dst ->
  write_at_begin dst vals = Some (vals ++ drop (length vals) dst).
Proof. intros Hlen. unfold write_at_begin. now rewrite decide_True. Qed.

Lemma write_at_begin_None {A} (dst vals : list A) :
  length dst < length vals -> write_at_begin dst vals = None.
Proof. intros Hlen. unfold write_at_begin. rewrite decide_False; [done|lia]. Qed.

(** The values a gather reads, position by position. *)
Lemma gather_Some {A} (map : list Z) (input vals : list A) :
  gather map input = Some vals <->
  Forall2 (fun i v => (0 <= i)%Z /\ input !! Z.to_nat i = Some v) map vals.
Proof.
  unfold gather. rewrite mapM_Some.
  split; intros Hall; eapply Forall2_impl; try exact Hall; simpl.
  - intros i v. case_decide; [tauto | discriminate].
  - intros i v [Hi Hv]. now rewrite decide_True.
Qed.

Lemma gather_in_range {A} (map : list Z) (input : list A) :
  Forall (fun i => (0 <= i < vsize input)%Z) map ->
  is_Some (gather map input).
Proof.
  intros Hall. unfold gather. apply mapM_is_Some.
  eapply Forall_impl; [exact Hall|]. simpl. intros i [Hlo Hhi].
  rewrite decide_True by done. apply lookup_lt_is_Some_2.
  unfold vsize in Hhi. lia.
Qed.

Lemma gather_length {A} (map : list Z) (input vals : list A) :
  gather map input = Some vals -> length vals = length map.
Proof. intros Hg. symmetry. eapply length_mapM, Hg. Qed.

Lemma gather_lookup {A} (map : list Z) (input vals : list A) i j :
  gather map input = Some vals -> map !! i = Some j ->
  (0 <= j)%Z /\ vals !! i = input !! Z.to_nat j /\ is_Some (vals !! i).
Proof.
  intros Hg Hi. apply gather_Some in Hg.
  destruct (Forall2_lookup_l _ _ _ _ _ Hg Hi) as (v & Hv & Hj & Hin).
  rewrite Hv, Hin. eauto.
Qed.
End thrust_facts.

(** ** Running the store monad *)

Section Run.
Context {F : Type} `{Float32 F}.
Implicit Types (w : world F) (pc : PointCloud F) (p : loc) (b : buffer).

Lemma heap_set_cloud_eq p pc w : heap (set_cloud p pc w) !! p = Some pc.
Proof. apply lookup_insert_eq. Qed.

Lemma heap_set_cloud_ne p q pc w :
  p <> q -> heap (set_cloud p pc w) !! q = heap w !! q.
Proof. intros. now apply lookup_insert_ne. Qed.

Lemma set_cloud_twice p pc pc' w :
  set_cloud p pc (set_cloud p pc' w) = set_cloud p pc w.
Proof. unfold set_cloud. simpl. now rewrite insert_insert_eq. Qed.

Lemma get_set_buffer b v pc : get_buffer b (set_buffer b v pc) = v.
Proof. now destruct b. Qed.

Lemma get_set_buffer_ne b b' v pc :
  b <> b' -> get_buffer b' (set_buffer b v pc) = get_buffer b' pc.
Proof. now destruct b, b'. Qed.

Lemma bind_Ok {A B} (m : M F A) (k : A -> M F B) w a w' :
  m w = Ok a w' -> bind m k w = k a w'.
Proof. intros Hm. unfold bind. now rewrite Hm. Qed.

Lemma bind_Fault {A B} (m : M F A) (k : A -> M F B) w :
  m w = Fault -> bind m k w = Fault.
Proof. intros Hm. unfold bind. now rewrite Hm. Qed.

Lemma bind_Throw {A B} (m : M F A) (k : A -> M F B) w e w' :
  m w = Throw e w' -> bind m k w = Throw e w'.
Proof. intros Hm. unfold bind. now rewrite Hm. Qed.

Lemma bind_ret {A B} (a : A) (k : A -> M F B) : bind (ret a) k = k a.
Proof. reflexivity. Qed.

Lemma when_true (m : M F unit) : when true m = m.
Proof. reflexivity. Qed.

Lemma when_false (m : M F unit) : when false m = ret tt.
Proof. reflexivity. Qed.

Lemma load_run p pc w : heap w !! p = Some pc -> load p w = Ok pc w.
Proof. intros Hp. unfold load. now rewrite Hp. Qed.

Lemma read_run p b pc w :
  heap w !! p = Some pc -> read p b w = Ok (get_buffer b pc) w.
Proof. intros Hp. unfold read. now rewrite (bind_Ok _ _ _ _ _ (load_run _ _ _ Hp)). Qed.

Lemma write_run p b v pc w :
  heap w !! p = Some pc ->
  write p b v w = Ok tt (set_cloud p (set_buffer b v pc) w).
Proof. intros Hp. unfold write. now rewrite Hp. Qed.

Lemma resize_run p b n pc w :
  heap w !! p = Some pc ->
  resize p b n w =
    Ok tt (set_cloud p (set_buffer b (resized n Zero3 (get_buffer b pc)) pc) w).
Proof.
  intros Hp. unfold resize.
  rewrite (bind_Ok _ _ _ _ _ (read_run _ _ _ _ Hp)).
  now apply write_run.
Qed.

Lemma make_shared_run w :
  make_shared w =
    Ok (fresh (dom (heap w))) (set_cloud (fresh (dom (heap w))) empty_cloud w).
Proof. reflexivity. Qed.

Lemma fresh_unallocated w : heap w !! fresh (dom (heap w)) = None.
Proof. apply not_elem_of_dom, is_fresh. Qed.

Lemma fresh_ne w p pc : heap w !! p = Some pc -> p <> fresh (dom (heap w)).
Proof. intros Hp ->. rewrite fresh_unallocated in Hp. discriminate. Qed.

Lemma length_resized {A} n (d : A) (v : list A) :
  length (resized n d v) = Z.to_nat n.
Proof. unfold resized. rewrite length_app, length_take, length_replicate. lia. Qed.
End Run.

(** ** [SelectByIndexImpl] and [SelectByIndex] *)

Section Select.
Context {F : Type} `{Float32 F} `{!Platform F}.
Implicit Types (w : world F) (pc : PointCloud F) (p : loc) (b : buffer).
Import thrust thrust_facts.

Lemma store_at_begin_run p b vals out' pc w :
  heap w !! p = Some pc ->
  write_at_begin (get_buffer b pc) vals = Some out' ->
  store_at_begin p b vals w = Ok tt (set_cloud p (set_buffer b out' pc) w).
Proof.
  intros Hp Hw. unfold store_at_begin.
  rewrite (bind_Ok _ _ _ _ _ (read_run _ _ _ _ Hp)).
  rewrite Hw. simpl. unfold bind at 1, ret at 1.
  now apply write_run.
Qed.

Lemma store_at_begin_Fault p b vals pc w :
  heap w !! p = Some pc ->
  write_at_begin (get_buffer b pc) vals = None ->
  store_at_begin (F:=F) p b vals w = Fault.
Proof.
  intros Hp Hw. unfold store_at_begin.
  rewrite (bind_Ok _ _ _ _ _ (read_run _ _ _ _ Hp)).
  now rewrite Hw.
Qed.

Lemma gather_into_run indices src dst b s d vals w :
  heap w !! src = Some s -> heap w !! dst = Some d ->
  gather indices (get_buffer b s) = Some vals ->
  length (get_buffer b d) = length indices ->
  gather_into indices src dst b w = Ok tt (set_cloud dst (set_buffer b vals d) w).
Proof.
  intros Hs Hd Hg Hlen. unfold gather_into.
  rewrite (bind_Ok _ _ _ _ _ (read_run _ _ _ _ Hs)).
  rewrite Hg. simpl. unfold bind at 1, ret at 1.
  eapply store_at_begin_run; [exact Hd|].
  apply write_at_begin_exact. rewrite (gather_length _ _ _ Hg). lia.
Qed.

Lemma gather_into_Fault indices src dst b s w :
  heap w !! src = Some s ->
  gather indices (get_buffer b s) = None ->
  gather_into (F:=F) indices src dst b w = Fault.
Proof.
  intros Hs Hg. unfold gather_into.
  rewrite (bind_Ok _ _ _ _ _ (read_run _ _ _ _ Hs)).
  now rewrite Hg.
Qed.

Lemma gather_same_length {A B} (map : list Z) (l1 : list A) (l2 : list B) :
  length l1 = length l2 -> is_Some (gather map l1) -> is_Some (gather map l2).
Proof.
  intros Hlen [vals Hg]. apply gather_Some in Hg.
  unfold gather. apply mapM_is_Some. apply list.Forall_forall. intros i Hi. simpl.
  apply list_elem_of_lookup in Hi as [n Hn].
  destruct (Forall2_lookup_l _ _ _ _ _ Hg Hn) as (v & _ & Hlo & Hv).
  rewrite decide_True by done.
  apply lookup_lt_is_Some_2. rewrite <- Hlen. eapply lookup_lt_Some, Hv.
Qed.

Lemma HasNormals_length pc :
  HasNormals pc = true -> length (normals_ pc) = length (points_ pc).
Proof.
  unfold HasNormals. rewrite andb_true_iff, !bool_decide_eq_true. tauto.
Qed.

Lemma HasColors_length pc :
  HasColors pc = true -> length (colors_ pc) = length (points_ pc).
Proof.
  unfold HasColors. rewrite andb_true_iff, !bool_decide_eq_true. tauto.
Qed.

Lemma SelectByIndexImpl_run src dst indices s d ps w :
  src <> dst ->
  heap w !! src = Some s -> heap w !! dst = Some d ->
  gather indices (points_ s) = Some ps ->
  exists ns cs,
    (HasNormals s = true -> gather indices (normals_ s) = Some ns) /\
    (HasColors s = true -> gather indices (colors_ s) = Some cs) /\
    SelectByIndexImpl src dst indices w =
      Ok tt (set_cloud dst (selection s d ps ns cs) w).
Proof.
  intros Hne Hs Hd Hps.
  assert (Hns : HasNormals s = true -> is_Some (gather indices (normals_ s))).
  { intros Hn. eapply (gather_same_length _ (points_ s)); [|eauto].
    symmetry. now apply HasNormals_length. }
  assert (Hcs : HasColors s = true -> is_Some (gather indices (colors_ s))).
  { intros Hc. eapply (gather_same_length _ (points_ s)); [|eauto].
    symmetry. now apply HasColors_length. }
  assert (Hsz : Z.to_nat (vsize indices) = length indices)
    by (unfold vsize; lia).
  unfold SelectByIndexImpl, selection.
  rewrite (bind_Ok _ _ _ _ _ (load_run _ _ _ Hs)).
  destruct (HasNormals s) eqn:En, (HasColors s) eqn:Ec;
    rewrite ?when_true, ?when_false, ?bind_ret.
  - destruct (Hns eq_refl) as [ns Hn], (Hcs eq_refl) as [cs Hc].
    exists ns, cs. split; [done|]. split; [done|].
    erewrite bind_Ok by (eapply resize_run; eauto).
    erewrite bind_Ok by (eapply resize_run; apply heap_set_cloud_eq).
    rewrite set_cloud_twice.
    erewrite bind_Ok by (eapply resize_run; apply heap_set_cloud_eq).
    rewrite set_cloud_twice.
    erewrite bind_Ok.
    2:{ eapply (gather_into_run _ _ _ points);
        [rewrite heap_set_cloud_ne by done; eauto
        |apply heap_set_cloud_eq|exact Hps|].
        simpl. rewrite length_resized. done. }
    rewrite set_cloud_twice.
    erewrite bind_Ok.
    2:{ eapply (gather_into_run _ _ _ normals);
        [rewrite heap_set_cloud_ne by done; eauto
        |apply heap_set_cloud_eq|exact Hn|].
        simpl. rewrite length_resized. done. }
    rewrite set_cloud_twice.
    erewrite (gather_into_run _ _ _ colors);
        [|rewrite heap_set_cloud_ne by done; eauto
        |apply heap_set_cloud_eq|exact Hc|].
    2:{ simpl. rewrite length_resized. done. }
    rewrite set_cloud_twice. reflexivity.
  - destruct (Hns eq_refl) as [ns Hn].
    exists ns, []. split; [done|]. split; [done|].
    erewrite bind_Ok by (eapply resize_run; eauto).
    erewrite bind_Ok by (eapply resize_run; apply heap_set_cloud_eq).
    rewrite set_cloud_twice.
    erewrite bind_Ok.
    2:{ eapply (gather_into_run _ _ _ points);
        [rewrite heap_set_cloud_ne by done; eauto
        |apply heap_set_cloud_eq|exact Hps|].
        simpl. rewrite length_resized. done. }
    rewrite set_cloud_twice.
    erewrite bind_Ok.
    2:{ eapply (gather_into_run _ _ _ normals);
        [rewrite heap_set_cloud_ne by done; eauto
        |apply heap_set_cloud_eq|exact Hn|].
        simpl. rewrite length_resized. done. }
    rewrite set_cloud_twice. reflexivity.
  - destruct (Hcs eq_refl) as [cs Hc].
    exists [], cs. split; [done|]. split; [done|].
    erewrite bind_Ok by (eapply resize_run; eauto).
    erewrite bind_Ok by (eapply resize_run; apply heap_set_cloud_eq).
    rewrite set_cloud_twice.
    erewrite bind_Ok.
    2:{ eapply (gather_into_run _ _ _ points);
        [rewrite heap_set_cloud_ne by done; eauto
        |apply heap_set_cloud_eq|exact Hps|].
        simpl. rewrite length_resized. done. }
    rewrite set_cloud_twice.
    erewrite (gather_into_run _ _ _ colors);
        [|rewrite heap_set_cloud_ne by done; eauto
        |apply heap_set_cloud_eq|exact Hc|].
    2:{ simpl. rewrite length_resized. done. }
    rewrite set_cloud_twice. reflexivity.
  - exists [], []. split; [done|]. split; [done|].
    erewrite bind_Ok by (eapply resize_run; eauto).
    erewrite bind_Ok.
    2:{ eapply (gather_into_run _ _ _ points);
        [rewrite heap_set_cloud_ne by done; eauto
        |apply heap_set_cloud_eq|exact Hps|].
        simpl. rewrite length_resized. done. }
    rewrite set_cloud_twice.
    destruct d; reflexivity.
Qed.
End Select.

(** ** Sorting and the set difference *)

Section Sorting.
Context {A : Type} (ltb : A -> A -> bool).
Import thrust.

Hypothesis ltb_asym : forall x y, ltb x y = true -> ltb y x = false.
Hypothesis not_after_trans :
  forall x y z, not_after ltb x y -> not_after ltb y z -> not_after ltb x z.

Lemma insert_sorted_perm x s : insert_sorted ltb x s ≡ₚ x :: s.
Proof.
  induction s as [|y s IH]; simpl; [done|].
  destruct (ltb y x); [|done].
  rewrite IH. apply Permutation_swap.
Qed.

Lemma sort_perm l : sort ltb l ≡ₚ l.
Proof.
  induction l as [|x l IH]; simpl; [done|].
  rewrite insert_sorted_perm. now rewrite IH.
Qed.

Lemma insert_sorted_sorted x s :
  StronglySorted (not_after ltb) s ->
  StronglySorted (not_after ltb) (insert_sorted ltb x s).
Proof.
  induction 1 as [|y s Hs IH Hy]; simpl.
  - repeat constructor.
  - destruct (ltb y x) eqn:Hyx.
    + constructor; [done|].
      rewrite insert_sorted_perm. constructor; [|done].
      unfold not_after. now apply ltb_asym.
    + constructor; [now constructor|].
      constructor; [done|].
      eapply Forall_impl; [exact Hy|]. simpl. intros z Hz.
      now apply (not_after_trans x y z).
Qed.

Lemma sort_sorted l : StronglySorted (not_after ltb) (sort ltb l).
Proof.
  induction l as [|x l IH]; simpl; [constructor|].
  now apply insert_sorted_sorted.
Qed.

(** The sort is stable: the elements that a predicate picks keep their
    order, when the predicate never picks two elements of which one is
    smaller than the other. *)
Lemma insert_sorted_filter (p : A -> bool) x s :
  (forall y, p x = true -> p y = true -> ltb y x = false) ->
  List.filter p (insert_sorted ltb x s) = List.filter p (x :: s).
Proof.
  intros Hp. induction s as [|y s IH]; [done|].
  cbn [insert_sorted]. destruct (ltb y x) eqn:Hyx; [|done].
  cbn [List.filter] in *. rewrite IH.
  destruct (p x) eqn:Hx, (p y) eqn:Hy; try done.
  rewrite (Hp y) in Hyx; done.
Qed.

Lemma sort_filter (p : A -> bool) l :
  (forall x y, p x = true -> p y = true -> ltb y x = false) ->
  List.filter p (sort ltb l) = List.filter p l.
Proof.
  intros Hp. induction l as [|x l IH]; [done|].
  cbn [sort foldr]. rewrite insert_sorted_filter by (intros y; apply Hp).
  cbn [List.filter]. fold (sort ltb l). now rewrite IH.
Qed.
End Sorting.

Section SetDifference.
Import thrust.
Local Open Scope Z_scope.

Lemma set_difference_nil_r {A} (ltb : A -> A -> bool) l1 :
  set_difference ltb l1 [] = l1.
Proof. now destruct l1. Qed.

Lemma set_difference_cons {A} (ltb : A -> A -> bool) a l1 b l2 :
  set_difference ltb (a :: l1) (b :: l2) =
    if ltb a b then a :: set_difference ltb l1 (b :: l2)
    else if ltb b a then set_difference ltb (a :: l1) l2
    else set_difference ltb l1 l2.
Proof. reflexivity. Qed.

Lemma filter_ext_Forall {A} (P Q : A -> Prop)
    `{!forall x, Decision (P x)} `{!forall x, Decision (Q x)} (l : list A) :
  Forall (fun x => P x <-> Q x) l -> filter P l = filter Q l.
Proof.
  induction 1 as [|x l Hx Hl IH]; [done|].
  rewrite !filter_cons, IH.
  destruct (decide (P x)), (decide (Q x)); tauto.
Qed.

Lemma sort_Z_sorted (l : list Z) : StronglySorted Z.le (sort Z.ltb l).
Proof.
  assert (Hs : StronglySorted (not_after Z.ltb) (sort Z.ltb l)).
  { apply sort_sorted; unfold not_after; intros; lia. }
  induction Hs as [|x s Hs IH Hx]; constructor; [done|].
  eapply Forall_impl; [exact Hx|]. unfold not_after. simpl. intros y Hy. lia.
Qed.

Lemma StronglySorted_seqZ m n : StronglySorted Z.lt (seqZ m n).
Proof.
  destruct (decide (n <= 0)) as [Hn|Hn]; [rewrite seqZ_nil by done; constructor|].
  rewrite <- (Z2Nat.id n) by lia. generalize (Z.to_nat n) as k. clear.
  intros k. revert m. induction k as [|k IH]; intros m.
  - rewrite seqZ_nil by done. constructor.
  - rewrite seqZ_cons by lia. constructor.
    + replace (Z.pred (Z.of_nat (S k))) with (Z.of_nat k) by lia. apply IH.
    + apply Forall_seqZ. lia.
Qed.

(** On a strictly increasing first range, the set difference keeps what
    does not occur in the second range. *)
Lemma set_difference_filter (l1 l2 : list Z) :
  StronglySorted Z.lt l1 -> StronglySorted Z.le l2 ->
  set_difference Z.ltb l1 l2 = filter (fun a => a ∉ l2) l1.
Proof.
  intros H1. revert l2. induction H1 as [|a l1 Hl1 IH1 Ha]; intros l2 H2.
  - now destruct l2.
  - induction H2 as [|b l2 Hl2 IH2 Hb].
    + rewrite set_difference_nil_r. symmetry.
      erewrite (filter_ext_Forall _ (fun _ => True)).
      * clear. induction (a :: l1) as [|x l IH]; [done|].
        rewrite filter_cons_True by done. now rewrite IH.
      * apply Forall_forall. intros x _. split; [done|]. intros _. apply not_elem_of_nil.
    + rewrite set_difference_cons.
      destruct (Z.ltb_spec a b) as [Hab|Hab].
      * rewrite IH1 by now constructor.
        rewrite filter_cons_True; [done|].
        rewrite not_elem_of_cons. split; [lia|].
        intros Hin. rewrite Forall_forall in Hb. specialize (Hb _ Hin). lia.
      * destruct (Z.ltb_spec b a) as [Hba|Hba].
        -- rewrite IH2. apply filter_ext_Forall.
           assert (Hall : Forall (fun x => b < x) (a :: l1)).
           { constructor; [done|]. eapply Forall_impl; [exact Ha|]. simpl. lia. }
           eapply Forall_impl; [exact Hall|]. simpl. intros x Hx.
           rewrite not_elem_of_cons. split; [intros; split; [lia|done]|tauto].
        -- assert (a = b) as -> by lia.
           rewrite IH1 by done.
           rewrite filter_cons_False by (intros Hn; apply Hn; left).
           apply filter_ext_Forall.
           eapply Forall_impl; [exact Ha|]. simpl. intros x Hx.
           rewrite not_elem_of_cons. split; [intros; split; [lia|done]|tauto].
Qed.

(** Positions of [[0, n)] that an index list leaves out, ascending. *)
Lemma length_complement (n : Z) (indices : list Z) :
  0 <= n -> NoDup indices -> Forall (fun i => 0 <= i < n) indices ->
  Z.of_nat (length (filter (fun a => a ∉ indices) (seqZ 0 n))) =
    n - Z.of_nat (length indices).
Proof.
  intros Hn Hnd Hall.
  assert (Hperm : filter (fun a => a ∈ indices) (seqZ 0 n) ≡ₚ indices).
  { apply NoDup_Permutation; [apply NoDup_filter, NoDup_seqZ|done|].
    intros x. rewrite list_elem_of_filter, elem_of_seqZ.
    rewrite Forall_forall in Hall. split; [tauto|].
    intros Hx. split; [done|]. specialize (Hall _ Hx). lia. }
  pose proof (filter_app_complement (fun a => a ∈ indices) (seqZ 0 n)) as Hc.
  apply Permutation_length in Hc. rewrite length_app, length_seqZ in Hc.
  apply Permutation_length in Hperm.
  lia.
Qed.
End SetDifference.

Section SelectByIndex.
Context {F : Type} `{Float32 F} `{!Platform F}.
Implicit Types (w : world F) (pc : PointCloud F) (p : loc) (b : buffer).
Import thrust thrust_facts.

Lemma gather_gathered {A} (indices : list Z) (input output : list A) :
  gather indices input = Some output -> gathered indices input output.
Proof.
  intros Hg. split; [eapply gather_length, Hg|].
  intros i j Hi.
  destruct (gather_lookup _ _ _ _ _ Hg Hi) as (Hj & Heq & Hsome).
  rewrite <- Heq. auto.
Qed.

Lemma selection_selects indices (s : PointCloud F) ps ns cs :
  gather indices (points_ s) = Some ps ->
  (HasNormals s = true -> gather indices (normals_ s) = Some ns) ->
  (HasColors s = true -> gather indices (colors_ s) = Some cs) ->
  selects indices s (selection s empty_cloud ps ns cs).
Proof.
  intros Hps Hns Hcs. unfold selects, selection. simpl.
  split; [now apply gather_gathered|].
  split.
  - destruct (HasNormals s); [apply gather_gathered; auto|done].
  - destruct (HasColors s); [apply gather_gathered; auto|done].
Qed.

(** [SelectByIndexImpl] on a fresh output: the selection lands there, or
    the gather of the points leaves the input buffer. *)
Lemma select_into_fresh this indices pc w :
  heap w !! this = Some pc ->
  Forall (in_range (vsize (points_ pc))) indices ->
  let output := fresh (dom (heap w)) in
  exists sel,
    SelectByIndexImpl this output indices (set_cloud output empty_cloud w) =
      Ok tt (set_cloud output sel w) /\
    selects indices pc sel.
Proof.
  intros Hthis Hall output.
  destruct (gather_in_range indices (points_ pc) Hall) as [ps Hps].
  assert (Hne : this <> output) by (eapply fresh_ne; eauto).
  destruct (SelectByIndexImpl_run this output indices pc empty_cloud ps
              (set_cloud output empty_cloud w)) as (ns & cs & Hns & Hcs & Hrun);
    [done|rewrite heap_set_cloud_ne by done; exact Hthis
    |apply heap_set_cloud_eq|exact Hps|].
  exists (selection pc empty_cloud ps ns cs). split.
  - rewrite Hrun. now rewrite set_cloud_twice.
  - now apply selection_selects.
Qed.

Lemma SelectByIndex_plain this indices pc w :
  heap w !! this = Some pc ->
  Forall (in_range (vsize (points_ pc))) indices ->
  let output := fresh (dom (heap w)) in
  exists sel,
    SelectByIndex this indices false w = Ok output (set_cloud output sel w) /\
    selects indices pc sel.
Proof.
  intros Hthis Hall output.
  destruct (select_into_fresh this indices pc w Hthis Hall) as (sel & Hrun & Hsel).
  exists sel. split; [|done].
  unfold SelectByIndex.
  rewrite (bind_Ok _ _ _ _ _ (make_shared_run w)).
  fold output. now rewrite (bind_Ok _ _ _ _ _ Hrun).
Qed.

Lemma elem_of_complement n indices i :
  i ∈ complement n indices <-> in_range n i /\ i ∉ indices.
Proof.
  unfold complement, in_range. rewrite list_elem_of_filter, elem_of_seqZ.
  split; intros; (split; [|lia || tauto]); tauto || lia.
Qed.

Lemma complement_ascending n indices :
  StronglySorted Z.lt (complement n indices).
Proof.
  unfold complement. generalize (StronglySorted_seqZ 0 n).
  generalize (seqZ 0 n) as l. intros l.
  induction 1 as [|x l Hl IH Hx]; [constructor|].
  rewrite filter_cons. destruct (decide (x ∉ indices)); [|done].
  constructor; [done|].
  apply Forall_forall. intros y Hy%list_elem_of_filter.
  rewrite Forall_forall in Hx. now apply Hx.
Qed.
End SelectByIndex.

(** ** Symbolic execution of the members *)

Section WP.
Context {F : Type} `{Float32 F} `{!Platform F}.
Implicit Types (w : world F) (pc : PointCloud F) (p : loc) (b : buffer).
Implicit Types (E : world F -> Prop) (X : Prop).

Lemma wp_ret {A} X (a : A) (Q : A -> world F -> Prop) E w :
  Q a w -> wp X (ret a) Q E w.
Proof. done. Qed.

Lemma wp_bind {A B} X (m : M F A) (k : A -> M F B) Q E w :
  wp X m (fun a w' => wp X (k a) Q E w') E w -> wp X (bind m k) Q E w.
Proof. unfold wp, bind. now destruct (m w). Qed.

Lemma wp_throw {A} X e (Q : A -> world F -> Prop) E w :
  E w -> wp X (throw e) Q E w.
Proof. done. Qed.

Lemma wp_checked {A} X (o : option A) (Q : A -> world F -> Prop) E w :
  (o = None -> X) -> (forall a, o = Some a -> Q a w) ->
  wp X (checked o) Q E w.
Proof. destruct o; unfold wp; simpl; auto. Qed.

Lemma wp_when X (c : bool) (m : M F unit) Q E w :
  (c = true -> wp X m Q E w) -> (c = false -> Q tt w) ->
  wp X (when c m) Q E w.
Proof. intros Ht Hf. destruct c; simpl; [now apply Ht|now apply wp_ret, Hf]. Qed.

Lemma wp_log X l text (Q : unit -> world F -> Prop) E w :
  Q tt (logged (Msg l text) w) -> wp X (log l text) Q E w.
Proof. done. Qed.

Lemma wp_LogError X text (Q : unit -> world F -> Prop) E w :
  (LogError_throws = true -> E (logged (Msg Error text) w)) ->
  (LogError_throws = false -> Q tt (logged (Msg Error text) w)) ->
  wp X (LogError text) Q E w.
Proof.
  intros HE HQ. unfold LogError. apply wp_bind, wp_log.
  destruct LogError_throws; [apply wp_throw|apply wp_ret]; auto.
Qed.

Lemma wp_make_shared X (Q : loc -> world F -> Prop) E w :
  Q (fresh (dom (heap w))) (set_cloud (fresh (dom (heap w))) empty_cloud w) ->
  wp X make_shared Q E w.
Proof. done. Qed.

Lemma wp_load X p pc (Q : PointCloud F -> world F -> Prop) E w :
  heap w !! p = Some pc -> Q pc w -> wp X (load p) Q E w.
Proof. intros Hp HQ. unfold wp. now rewrite (load_run _ _ _ Hp). Qed.

Lemma wp_read X p b pc (Q : list (Vector3f F) -> world F -> Prop) E w :
  heap w !! p = Some pc -> Q (get_buffer b pc) w -> wp X (read p b) Q E w.
Proof. intros Hp HQ. unfold wp. now rewrite (read_run _ _ _ _ Hp). Qed.

Lemma wp_write X p b v pc (Q : unit -> world F -> Prop) E w :
  heap w !! p = Some pc ->
  Q tt (set_cloud p (set_buffer b v pc) w) -> wp X (write p b v) Q E w.
Proof. intros Hp HQ. unfold wp. now rewrite (write_run _ _ _ _ _ Hp). Qed.

Lemma wp_resize X p b n pc (Q : unit -> world F -> Prop) E w :
  heap w !! p = Some pc ->
  Q tt (set_cloud p (set_buffer b (resized n Zero3 (get_buffer b pc)) pc) w) ->
  wp X (resize p b n) Q E w.
Proof. intros Hp HQ. unfold wp. now rewrite (resize_run _ _ _ _ _ Hp). Qed.

Lemma wp_store_at_begin X p b vals pc (Q : unit -> world F -> Prop) E w :
  heap w !! p = Some pc ->
  (thrust.write_at_begin (get_buffer b pc) vals = None -> X) ->
  (forall out', thrust.write_at_begin (get_buffer b pc) vals = Some out' ->
                Q tt (set_cloud p (set_buffer b out' pc) w)) ->
  wp X (store_at_begin p b vals) Q E w.
Proof.
  intros Hp HX HQ. unfold store_at_begin.
  apply wp_bind. eapply wp_read; [exact Hp|].
  apply wp_bind, wp_checked; [done|]. intros out' Hout.
  eapply wp_write; eauto.
Qed.

Lemma wp_conseq {A} X (m : M F A) (Q Q' : A -> world F -> Prop) E E' w :
  wp X m Q E w -> (forall a w', Q a w' -> Q' a w') ->
  (forall w', E w' -> E' w') -> wp X m Q' E' w.
Proof. unfold wp. destruct (m w); auto. Qed.

(** The run, once its weakest precondition is known to hold without
    fault. *)
Lemma wp_exact {A} (m : M F A) (a : A) w w' :
  wp False m (fun a' w'' => a' = a /\ w'' = w') (fun _ => False) w ->
  m w = Ok a w'.
Proof. unfold wp. destruct (m w); try done. now intros [-> ->]. Qed.

Lemma wp_of_run {A} X (m : M F A) (Q : A -> world F -> Prop) E a w w' :
  m w = Ok a w' -> Q a w' -> wp X m Q E w.
Proof. intros Hm HQ. unfold wp. now rewrite Hm. Qed.
End WP.

(** ** What a member leaves of the store it started from *)

Section Frame.
Context {F : Type} `{Float32 F} `{!Platform F}.
Implicit Types (w : world F) (pc : PointCloud F) (p : loc) (b : buffer).
Implicit Types (E : world F -> Prop) (lens : buffer -> nat).

Lemma output_at_keeps w0 out lens w : output_at w0 out lens w -> heap w0 ⊆ heap w.
Proof. now intros [? _]. Qed.

Lemma output_at_input w0 out lens w p pc :
  output_at w0 out lens w -> heap w0 !! p = Some pc ->
  heap w !! p = Some pc /\ p <> out.
Proof.
  intros (Hsub & Hout & _) Hp. split; [eapply lookup_weaken; eauto|].
  intros ->. rewrite Hout in Hp. discriminate.
Qed.

Lemma output_at_logged w0 out lens m w :
  output_at w0 out lens w -> output_at w0 out lens (logged m w).
Proof. done. Qed.

Lemma output_at_set w0 out lens lens' o w :
  output_at w0 out lens w ->
  (forall b, length (get_buffer b o) = lens' b) ->
  output_at w0 out lens' (set_cloud out o w).
Proof.
  intros (Hsub & Hout & _) Hlen. split; [|split; [done|]].
  - now apply insert_subseteq_r.
  - exists o. split; [apply heap_set_cloud_eq|done].
Qed.

Lemma wp_make_shared_output X w0 (Q : loc -> world F -> Prop) E w :
  heap w0 ⊆ heap w ->
  (forall out w', output_at w0 out (fun _ => 0) w' -> Q out w') ->
  wp X make_shared Q E w.
Proof.
  intros Hsub HQ. apply wp_make_shared, HQ.
  assert (Hfresh : heap w0 !! fresh (dom (heap w)) = None).
  { destruct (heap w0 !! fresh (dom (heap w))) eqn:Hl; [|done].
    eapply lookup_weaken in Hl; [|exact Hsub].
    now rewrite fresh_unallocated in Hl. }
  split; [now apply insert_subseteq_r|]. split; [done|].
  exists empty_cloud. split; [apply heap_set_cloud_eq|]. now intros [].
Qed.

Lemma wp_load_input X w0 p pc (Q : PointCloud F -> world F -> Prop) E w :
  heap w0 ⊆ heap w -> heap w0 !! p = Some pc -> Q pc w ->
  wp X (load p) Q E w.
Proof. intros Hsub Hp HQ. eapply wp_load; [eapply lookup_weaken; eauto|done]. Qed.

Lemma wp_read_any p b (Q : list (Vector3f F) -> world F -> Prop) E w :
  (forall v, Q v w) -> wp True (read p b) Q E w.
Proof.
  intros HQ. unfold wp, read, bind, load. destruct (heap w !! p); [apply HQ|done].
Qed.

Lemma wp_resize_output w0 out lens b n (Q : unit -> world F -> Prop) E w :
  output_at w0 out lens w ->
  (forall w', output_at w0 out (<[b := Z.to_nat n]> lens) w' -> Q tt w') ->
  wp True (resize out b n) Q E w.
Proof.
  intros Hout HQ. destruct (Hout) as (_ & _ & o & Ho & Hlen).
  eapply wp_resize; [exact Ho|]. apply HQ.
  eapply output_at_set; [exact Hout|]. intros b'.
  destruct (decide (b = b')) as [<-|Hne].
  - rewrite get_set_buffer, fn_lookup_insert. apply length_resized.
  - rewrite get_set_buffer_ne, fn_lookup_insert_ne by done. apply Hlen.
Qed.

Lemma length_write_at_begin {A} (dst vals out' : list A) :
  thrust.write_at_begin dst vals = Some out' -> length out' = length dst.
Proof.
  unfold thrust.write_at_begin. case_decide; [|done].
  intros [= <-]. rewrite length_app, length_drop. lia.
Qed.

Lemma wp_store_output w0 out lens b vals (Q : unit -> world F -> Prop) E w :
  output_at w0 out lens w ->
  (forall w', output_at w0 out lens w' -> Q tt w') ->
  wp True (store_at_begin out b vals) Q E w.
Proof.
  intros Hout HQ. destruct (Hout) as (_ & _ & o & Ho & Hlen).
  eapply wp_store_at_begin; [exact Ho|done|]. intros out' Hw. apply HQ.
  eapply output_at_set; [exact Hout|]. intros b'.
  destruct (decide (b = b')) as [<-|Hne].
  - rewrite get_set_buffer, (length_write_at_begin _ _ _ Hw). apply Hlen.
  - rewrite get_set_buffer_ne by done. apply Hlen.
Qed.

Lemma wp_gather_output w0 out lens indices src b
    (Q : unit -> world F -> Prop) E w :
  output_at w0 out lens w ->
  (forall w', output_at w0 out lens w' -> Q tt w') ->
  wp True (gather_into indices src out b) Q E w.
Proof.
  intros Hout HQ. unfold gather_into.
  apply wp_bind, wp_read_any. intros v.
  apply wp_bind, wp_checked; [done|]. intros vals _.
  eapply wp_store_output; eauto.
Qed.

Lemma wp_strided_output w0 out lens src b stride
    (Q : unit -> world F -> Prop) E w :
  output_at w0 out lens w ->
  (forall w', output_at w0 out lens w' -> Q tt w') ->
  wp True (strided_copy src out b stride) Q E w.
Proof.
  intros Hout HQ. unfold strided_copy.
  apply wp_bind, wp_read_any. intros v.
  apply wp_bind, wp_checked; [done|]. intros vals _.
  eapply wp_store_output; eauto.
Qed.

Lemma wp_when_output w0 out lens lens' (c : bool) (m : M F unit)
    (Q : unit -> world F -> Prop) E w :
  (c = true ->
   wp True m (fun _ w' => output_at w0 out lens' w') (fun _ => False) w) ->
  output_at w0 out lens w ->
  (forall w', output_at w0 out (if c then lens' else lens) w' -> Q tt w') ->
  wp True (when c m) Q E w.
Proof.
  intros Hm Hout HQ. destruct c; simpl.
  - eapply wp_conseq; [apply Hm; done| |done]. simpl. intros [] w'. apply HQ.
  - apply wp_ret, HQ, Hout.
Qed.
End Frame.

Section FrameOfMembers.
Context {F : Type} `{Float32 F} `{!Platform F}.
Implicit Types (w : world F) (pc : PointCloud F) (p : loc) (b : buffer).
Implicit Types (E : world F -> Prop) (lens : buffer -> nat).

Lemma output_at_ext w0 out lens lens' w :
  (forall b, lens b = lens' b) ->
  output_at w0 out lens w -> output_at w0 out lens' w.
Proof.
  intros Hext (Hsub & Hout & o & Ho & Hlen). split; [done|]. split; [done|].
  exists o. split; [done|]. intros b. now rewrite Hlen.
Qed.

Ltac step_output :=
  lazymatch goal with
  | |- wp _ (resize _ _ _) _ _ _ => eapply wp_resize_output; [eassumption|]
  | |- wp _ (store_at_begin _ _ _) _ _ _ => eapply wp_store_output; [eassumption|]
  | |- wp _ (gather_into _ _ _ _) _ _ _ => eapply wp_gather_output; [eassumption|]
  | |- wp _ (strided_copy _ _ _ _) _ _ _ => eapply wp_strided_output; [eassumption|]
  end;
  let w' := fresh "w" in
  let Hw' := fresh "Hout" in
  intros w' Hw'.

Ltac when_output :=
  eapply wp_when_output;
    [ intros _; step_output; eassumption
    | eassumption
    | let w' := fresh "w" in
      let Hw' := fresh "Hout" in
      intros w' Hw' ].

Lemma SelectByIndexImpl_output w0 this out indices pc lens
    (Q : unit -> world F -> Prop) E w :
  heap w0 !! this = Some pc ->
  output_at w0 out lens w ->
  (forall lens' w',
     lens' points = length indices ->
     lens' normals = (if HasNormals pc then length indices else lens normals) ->
     lens' colors = (if HasColors pc then length indices else lens colors) ->
     output_at w0 out lens' w' -> Q tt w') ->
  wp True (SelectByIndexImpl this out indices) Q E w.
Proof.
  intros Hthis Hout HQ. unfold SelectByIndexImpl.
  apply wp_bind.
  eapply wp_load_input; [eapply output_at_keeps; eauto|exact Hthis|].
  assert (HL : Z.to_nat (vsize indices) = length indices) by (unfold vsize; lia).
  apply wp_bind. when_output.
  apply wp_bind. when_output.
  apply wp_bind. step_output.
  apply wp_bind. step_output.
  apply wp_bind. when_output.
  eapply wp_when_output; [intros _; step_output; eassumption|eassumption|].
  intros w6 Hout6. eapply HQ; [| | |exact Hout6];
    destruct (HasNormals pc), (HasColors pc); simpl;
    rewrite ?fn_lookup_insert, ?fn_lookup_insert_ne by done; try done;
    rewrite ?fn_lookup_insert, ?fn_lookup_insert_ne by done; done.
Qed.

Lemma SelectByIndex_output w0 this indices invert pc
    (Q : loc -> world F -> Prop) E w :
  heap w0 !! this = Some pc ->
  heap w0 ⊆ heap w ->
  (forall out lens w',
     presence pc lens -> output_at w0 out lens w' -> Q out w') ->
  wp True (SelectByIndex this indices invert) Q E w.
Proof.
  intros Hthis Hsub HQ. unfold SelectByIndex.
  apply wp_bind. eapply wp_make_shared_output; [exact Hsub|].
  intros out w1 Hout1.
  assert (Himpl : forall idx w',
    output_at w0 out (fun _ => 0) w' ->
    wp True (SelectByIndexImpl this out idx;;; ret out) Q E w').
  { intros idx w' Hw'. apply wp_bind.
    eapply SelectByIndexImpl_output; [exact Hthis|exact Hw'|].
    intros lens' w'' Hp Hn Hc Hw''. apply wp_ret.
    eapply HQ; [|exact Hw'']. unfold presence. rewrite Hp, Hn, Hc.
    now destruct (HasNormals pc), (HasColors pc). }
  destruct invert; [|now apply Himpl].
  apply wp_bind, wp_read_any. intros pts.
  apply wp_bind, wp_checked; [done|]. intros inv_indices _.
  now apply Himpl.
Qed.

Lemma UniformDownSample_output w0 this every_k_points pc
    (Q : loc -> world F -> Prop) E w :
  heap w0 !! this = Some pc ->
  heap w0 ⊆ heap w ->
  (forall out lens w',
     presence pc lens -> output_at w0 out lens w' -> Q out w') ->
  (forall w', heap w0 ⊆ heap w' -> E w') ->
  wp True (UniformDownSample this every_k_points) Q E w.
Proof.
  intros Hthis Hsub HQ HE. unfold UniformDownSample.
  apply wp_bind. eapply wp_load_input; [exact Hsub|exact Hthis|].
  apply wp_bind. eapply wp_make_shared_output; [exact Hsub|].
  intros out w1 Hout1.
  destruct (every_k_points =? 0)%Z.
  - apply wp_bind, wp_LogError; intros _.
    + apply HE. eapply output_at_keeps, output_at_logged, Hout1.
    + apply wp_ret. eapply HQ; [|eapply output_at_logged, Hout1].
      unfold presence. now destruct (HasNormals pc), (HasColors pc).
  - apply wp_bind. step_output.
    apply wp_bind. when_output.
    apply wp_bind. when_output.
    apply wp_bind. step_output.
    apply wp_bind. when_output.
    apply wp_bind. when_output.
    apply wp_ret. eapply HQ; [|eassumption].
    unfold presence.
    destruct (HasNormals pc), (HasColors pc); simpl;
      rewrite ?fn_lookup_insert, ?fn_lookup_insert_ne by done; try done;
      rewrite ?fn_lookup_insert, ?fn_lookup_insert_ne by done; done.
Qed.

Ltac run_output :=
  repeat first
    [ progress cbv beta
    | step_output
    | lazymatch goal with
      | |- wp _ (bind _ _) _ _ _ => apply wp_bind
      | |- wp _ (read _ _) _ _ _ => apply wp_read_any; intros ?
      | |- wp _ (checked _) _ _ _ => apply wp_checked; [done|intros ? _]
      | |- wp _ (LogDebug _) _ _ _ => apply wp_log
      end ].

Ltac lens_lookup :=
  repeat (rewrite fn_lookup_insert || rewrite fn_lookup_insert_ne by done).

Lemma VoxelDownSample_output w0 this voxel_size pc
    (Q : loc -> world F -> Prop) E w :
  heap w0 !! this = Some pc ->
  heap w0 ⊆ heap w ->
  (forall out lens w',
     presence pc lens -> output_at w0 out lens w' -> Q out w') ->
  wp True (VoxelDownSample this voxel_size) Q E w.
Proof.
  intros Hthis Hsub HQ. unfold VoxelDownSample.
  apply wp_bind. eapply wp_make_shared_output; [exact Hsub|].
  intros out w1 Hout1.
  assert (Hempty : forall text w',
    output_at w0 out (fun _ => 0) w' ->
    wp True (LogWarning text;;; ret out) Q E w').
  { intros text w' Hw'. apply wp_bind, wp_log, wp_ret.
    eapply HQ; [|eapply output_at_logged, Hw'].
    unfold presence. now destruct (HasNormals pc), (HasColors pc). }
  destruct (fleb voxel_size F0); [now apply Hempty|].
  apply wp_bind.
  eapply wp_load_input; [eapply output_at_keeps; eauto|exact Hthis|].
  match goal with |- context [if ?c then _ else _] => destruct c end;
    [now apply Hempty|].
  apply wp_bind, wp_checked; [done|]. intros keys _.
  apply wp_bind. step_output.
  apply wp_bind.
  destruct (HasNormals pc) eqn:Hn, (HasColors pc) eqn:Hc; simpl negb; simpl andb;
    cbv iota; run_output; apply wp_ret;
    (eapply HQ; [|eapply output_at_logged; eassumption]);
    unfold presence; rewrite Hn, Hc; lens_lookup; done.
Qed.

Lemma select_where_output {A} w0 this (keep : Z * A -> bool)
    (values : list A) (indices : list Z) pc
    (Q : loc * list Z -> world F -> Prop) E w :
  heap w0 !! this = Some pc ->
  heap w0 ⊆ heap w ->
  (forall out kept lens w',
     presence pc lens -> output_at w0 out lens w' -> Q (out, kept) w') ->
  wp True (select_where this keep values indices) Q E w.
Proof.
  intros Hthis Hsub HQ. unfold select_where.
  apply wp_bind, wp_checked; [done|]. intros indices' _.
  apply wp_bind. eapply SelectByIndex_output; [exact Hthis|exact Hsub|].
  intros out lens w' Hp Hout. apply wp_ret. eauto.
Qed.

Lemma RemoveRadiusOutliers_output w0 this nb_points search_radius pc
    (Q : loc * list Z -> world F -> Prop) E w :
  heap w0 !! this = Some pc ->
  heap w0 ⊆ heap w ->
  (forall out kept lens w',
     presence pc lens -> output_at w0 out lens w' -> Q (out, kept) w') ->
  (forall w', heap w0 ⊆ heap w' -> E w') ->
  wp True (RemoveRadiusOutliers this nb_points search_radius) Q E w.
Proof.
  intros Hthis Hsub HQ HE. unfold RemoveRadiusOutliers.
  apply wp_bind.
  assert (Hrest : forall w', heap w0 ⊆ heap w' ->
    wp True
      (self <- load this;;
       let '(tmp_indices, dist) :=
         SearchRadius self (points_ self) search_radius (size_t_add nb_points 1) in
       let n_pt := vsize (points_ self) in
       let counts := device_vector n_pt 0%Z in
       let indices := device_vector n_pt 0%Z in
       let range :=
         thrust.repeated_range 0 n_pt (difference_wrap (size_t_add nb_points 1)) in
       found <- checked (read_n (length range) tmp_indices);;
       counts <- checked
         (thrust.write_at_begin counts
            (snd <$> thrust.reduce_by_key Z.eqb size_t_add
               (zip range
                  ((fun idx : Z => if (0 <=? idx)%Z then 1%Z else 0%Z) <$> found))));;
       select_where this (fun x : Z * Z => (nb_points <? x.2)%Z) counts indices)
      Q E w').
  { intros w' Hw'. apply wp_bind.
    eapply wp_load_input; [exact Hw'|exact Hthis|].
    destruct (SearchRadius pc (points_ pc) search_radius (size_t_add nb_points 1))
      as [tmp_indices dist].
    apply wp_bind, wp_checked; [done|]. intros found _.
    apply wp_bind, wp_checked; [done|]. intros counts _.
    eapply select_where_output; eauto. }
  apply wp_when.
  - intros _. apply wp_LogError; intros _; [now apply HE|now apply Hrest].
  - intros _. now apply Hrest.
Qed.

Lemma RemoveStatisticalOutliers_output w0 this nb_neighbors std_ratio pc
    (Q : loc * list Z -> world F -> Prop) E w :
  heap w0 !! this = Some pc ->
  heap w0 ⊆ heap w ->
  (forall out kept lens w',
     presence pc lens -> output_at w0 out lens w' -> Q (out, kept) w') ->
  (forall w', heap w0 ⊆ heap w' -> E w') ->
  wp True (RemoveStatisticalOutliers this nb_neighbors std_ratio) Q E w.
Proof.
  intros Hthis Hsub HQ HE. unfold RemoveStatisticalOutliers.
  assert (Hempty : forall w', heap w0 ⊆ heap w' ->
    wp True (output <- make_shared;; ret (output, [])) Q E w').
  { intros w' Hw'. apply wp_bind.
    eapply wp_make_shared_output; [exact Hw'|].
    intros out w'' Hout. apply wp_ret. eapply HQ; [|exact Hout].
    unfold presence. now destruct (HasNormals pc), (HasColors pc). }
  apply wp_bind.
  set (rest := bind (load this) _).
  assert (Hrest : forall w', heap w0 ⊆ heap w' -> wp True rest Q E w').
  { intros w' Hw'. subst rest. apply wp_bind.
    eapply wp_load_input; [exact Hw'|exact Hthis|].
    case_bool_decide; [now apply Hempty|].
    destruct (SearchKNN pc (points_ pc) (int_wrap nb_neighbors))
      as [tmp_indices dist].
    apply wp_bind, wp_checked; [done|]. intros found _.
    apply wp_bind, wp_checked; [done|]. intros counts _.
    apply wp_bind, wp_checked; [done|]. intros avg_distances _.
    match goal with |- context [if ?c then _ else _] => destruct c end;
      [now apply Hempty|].
    eapply select_where_output; eauto. }
  apply wp_when.
  - intros _. apply wp_LogError; intros _; [now apply HE|now apply Hrest].
  - intros _. now apply Hrest.
Qed.
End FrameOfMembers.

(** ** Reduction by key over the blocks of a repeated range *)

Section ReduceBlocks.
Import thrust.
Context {V : Type} (op : V -> V -> V).

Lemma reduce_run_same (k : Z) (acc : V) (vs : list V) rest :
  reduce_run Z.eqb op k acc (((fun v => (k, v)) <$> vs) ++ rest) =
    reduce_run Z.eqb op k (foldl op acc vs) rest.
Proof.
  revert acc. induction vs as [|v vs IH]; intros acc; [done|].
  simpl. rewrite Z.eqb_refl. apply IH.
Qed.

Lemma reduce_run_other (k : Z) (acc : V) rest :
  match rest with [] => True | (k', _) :: _ => k <> k' end ->
  reduce_run Z.eqb op k acc rest = (k, acc) :: reduce_by_key Z.eqb op rest.
Proof.
  destruct rest as [|[k' v'] rest]; [done|]. intros Hne. simpl.
  destruct (Z.eqb_spec k k'); done.
Qed.

Lemma zip_replicate_l {A B} (n : nat) (a : A) (l : list B) :
  length l = n -> zip (replicate n a) l = (fun v => (a, v)) <$> l.
Proof.
  revert n. induction l as [|x l IH]; intros [|n] Hn; try done.
  simpl in *. f_equal. apply IH. lia.
Qed.

(** Keys [start, start + 1, ...], each repeated [r] times, against a flat
    array of [n * r] values: one reduction per block. *)
Lemma reduce_by_key_blocks (r : nat) (d : V) (n : nat) :
  0 < r ->
  forall (start : Z) (vals : list V),
    length vals = n * r ->
    reduce_by_key Z.eqb op
      (zip (flat_map (replicate r) (seqZ start (Z.of_nat n))) vals) =
    (fun i : nat => ((start + Z.of_nat i)%Z, reduce1 op d (block r i vals)))
      <$> seq 0 n.
Proof.
  intros Hr. induction n as [|n IH]; intros start vals Hlen.
  - destruct vals; [done|]. simpl in Hlen. lia.
  - rewrite seqZ_cons by lia. cbn [flat_map].
    replace (Z.pred (Z.of_nat (S n))) with (Z.of_nat n) by lia.
    rewrite <- (take_drop r vals) at 1.
    rewrite zip_with_app by (rewrite length_replicate, length_take; lia).
    rewrite zip_replicate_l by (rewrite length_take; lia).
    cbn [seq fmap list_fmap]. rewrite <- seq_shift, <- list_fmap_compose.
    assert (Hblock0 : block r 0 vals = take r vals) by (unfold block; now rewrite drop_0).
    rewrite Hblock0.
    destruct (take r vals) as [|v vs] eqn:Htake.
    { apply (f_equal length) in Htake. rewrite length_take in Htake.
      simpl in *. lia. }
    cbn [fmap list_fmap app reduce_by_key].
    rewrite reduce_run_same.
    rewrite reduce_run_other.
    + rewrite IH by (rewrite length_drop; lia).
      rewrite Z.add_0_r. cbn [reduce1]. f_equal.
      apply list_fmap_ext. intros _ i _. cbn.
      f_equal; [lia|]. unfold block. rewrite drop_drop.
      replace (r + i * r) with (S i * r) by lia. done.
    + destruct n as [|n]; [rewrite seqZ_nil by lia; done|].
      rewrite seqZ_cons by lia. cbn [flat_map].
      destruct r as [|r']; [lia|]. cbn [replicate app].
      destruct (drop (S r') vals); cbn; [done|lia].
Qed.

Lemma repeated_range_blocks (n r : nat) :
  0 < r -> (Z.of_nat r * Z.of_nat n < 2 ^ 63)%Z ->
  repeated_range 0 (Z.of_nat n) (Z.of_nat r) =
    flat_map (replicate r) (seqZ 0 (Z.of_nat n)).
Proof.
  intros Hr Hfit. unfold repeated_range, counting.
  rewrite !Z.sub_0_r, difference_wrap_small by lia.
  clear Hfit. induction n as [|n IH].
  - rewrite Z.mul_0_r. done.
  - replace (Z.of_nat r * Z.of_nat (S n))%Z
      with (Z.of_nat r * Z.of_nat n + Z.of_nat r)%Z by lia.
    rewrite seqZ_app, fmap_app, IH by lia.
    rewrite seqZ_S, flat_map_app. f_equal. cbn [flat_map].
    rewrite app_nil_r, Z.add_0_l.
    apply list_eq. intros i.
    rewrite list_lookup_fmap.
    destruct (decide (i < r)) as [Hi|Hi].
    + rewrite lookup_seqZ_lt by lia. rewrite lookup_replicate_2 by done.
      simpl. f_equal.
      rewrite Z.add_0_l, Z.quot_div_nonneg by lia.
      rewrite Z.mul_comm, Z.div_add_l by lia.
      rewrite Z.div_small by lia. lia.
    + rewrite lookup_seqZ_ge by lia. simpl. symmetry.
      apply lookup_replicate_None. lia.
Qed.
End ReduceBlocks.

(** ** The tail of the outlier filters *)

Section SelectWhere.
Context {F : Type} `{Float32 F} `{!Platform F}.
Implicit Types (w : world F) (pc : PointCloud F).
Import thrust thrust_facts.

Lemma seqZ_seq (n : nat) : seqZ 0 (Z.of_nat n) = Z.of_nat <$> seq 0 n.
Proof.
  unfold seqZ. rewrite Nat2Z.id. apply list_fmap_ext. intros _ i _. lia.
Qed.

Lemma enumerate_fmap_seq {A} (g : nat -> A) (n : nat) :
  enumerate (g <$> seq 0 n) = (fun i => (Z.of_nat i, g i)) <$> seq 0 n.
Proof.
  unfold enumerate, counting, vsize.
  rewrite length_fmap, length_seq, Z.sub_0_r, seqZ_seq.
  rewrite zip_with_fmap_l, zip_with_fmap_r.
  rewrite zip_with_diag. done.
Qed.

Lemma filter_fmap {A B} (p : B -> bool) (f : A -> B) (l : list A) :
  List.filter p (f <$> l) = f <$> List.filter (fun a => p (f a)) l.
Proof.
  induction l as [|a l IH]; [done|]. cbn. destruct (p (f a)); cbn; now rewrite IH.
Qed.

Lemma length_List_filter {A} (p : A -> bool) (l : list A) :
  length (List.filter p l) <= length l.
Proof. induction l as [|a l IH]; [done|]. cbn. destruct (p a); cbn; lia. Qed.

Lemma resized_prefix {A} (d : A) (vals rest : list A) :
  resized (vsize vals) d (vals ++ rest) = vals.
Proof.
  unfold resized, vsize. rewrite Nat2Z.id, take_app_length.
  rewrite length_app. replace (length vals - _) with 0 by lia.
  apply app_nil_r.
Qed.

(** [select_where] over per-point values [g 0 .. g (n - 1)]: the kept
    indices are those whose value passes, ascending, and the output is the
    selection of the cloud at them. *)
Lemma select_where_run {A} this pc w (keep : Z * A -> bool)
    (g : nat -> A) (d : Z) :
  heap w !! this = Some pc ->
  let n := length (points_ pc) in
  let kept :=
    Z.of_nat <$> List.filter (fun i => keep (Z.of_nat i, g i)) (seq 0 n) in
  let output := fresh (dom (heap w)) in
  exists sel,
    select_where this keep (g <$> seq 0 n) (device_vector (Z.of_nat n) d) w =
      Ok (output, kept) (set_cloud output sel w) /\
    selects kept pc sel.
Proof.
  intros Hthis n kept output. unfold select_where.
  rewrite enumerate_fmap_seq. unfold copy_if. rewrite filter_fmap.
  rewrite <- list_fmap_compose.
  change ((fst ∘ (fun i : nat => (Z.of_nat i, g i))) <$> ?l) with (Z.of_nat <$> l).
  fold kept.
  assert (Hk : length kept <= n).
  { unfold kept. rewrite length_fmap.
    etransitivity; [apply length_List_filter|]. now rewrite length_seq. }
  rewrite write_at_begin_Some
    by (unfold device_vector; rewrite length_replicate; lia).
  simpl checked. rewrite bind_ret.
  replace (vsize (_ <$> List.filter _ (seq 0 n))) with (vsize kept)
    by (unfold kept, vsize; now rewrite !length_fmap).
  rewrite resized_prefix.
  destruct (SelectByIndex_plain this kept pc w Hthis) as (sel & Hrun & Hsel).
  { unfold kept. apply Forall_fmap, Forall_forall. intros i Hi. simpl.
    apply list_elem_of_In, filter_In in Hi as [Hi _].
    apply in_seq in Hi. unfold in_range, vsize. fold n. lia. }
  exists sel. split; [|done].
  now rewrite (bind_Ok _ _ _ _ _ Hrun).
Qed.

Lemma foldl_count_valid (acc : Z) (found : list Z) :
  (0 <= acc)%Z -> (acc + Z.of_nat (length found) < 2 ^ 64)%Z ->
  foldl size_t_add acc
    ((fun idx : Z => if (0 <=? idx)%Z then 1%Z else 0%Z) <$> found) =
  (acc + valid_hits found)%Z.
Proof.
  unfold valid_hits. revert acc.
  induction found as [|x found IH]; intros acc Hacc Hfit; cbn; [lia|].
  cbn in Hfit. pose proof (length_List_filter (fun idx => (0 <=? idx)%Z) found).
  destruct (0 <=? x)%Z; unfold size_t_add at 2;
    rewrite size_t_wrap_small by lia; rewrite IH by lia; cbn; lia.
Qed.

Lemma reduce1_count_valid (found : list Z) :
  (Z.of_nat (length found) < 2 ^ 64)%Z ->
  reduce1 size_t_add 0%Z
    ((fun idx : Z => if (0 <=? idx)%Z then 1%Z else 0%Z) <$> found) =
  valid_hits found.
Proof.
  destruct found as [|x found]; [done|]. intros Hfit. cbn [fmap list_fmap reduce1].
  cbn in Hfit. rewrite foldl_count_valid by (destruct (0 <=? x)%Z; lia).
  unfold valid_hits. cbn. destruct (0 <=? x)%Z; cbn; lia.
Qed.
End SelectWhere.

(** ** Reduction by key over a sorted range *)

Section ReduceSorted.
Import thrust.
Context {K V : Type} `{EqDecision K} (ltb : K -> K -> bool).
Context (op : V -> V -> V) (d : V).
Hypothesis order : strict_total_order ltb.

#[local] Abbreviation eqb := (fun k k' : K => bool_decide (k = k')).
#[local] Abbreviation by_key := (fun a b : K * V => ltb a.1 b.1).

Lemma ltb_asym x y : ltb x y = true -> ltb y x = false.
Proof.
  destruct order as (Hirr & Htrans & _). intros Hxy.
  destruct (ltb y x) eqn:Hyx; [|done].
  pose proof (Hirr x) as Hx. now rewrite (Htrans x y x Hxy Hyx) in Hx.
Qed.

Lemma not_after_trans x y z :
  not_after ltb x y -> not_after ltb y z -> not_after ltb x z.
Proof.
  destruct order as (Hirr & Htrans & Htot). unfold not_after.
  intros Hyx Hzy. destruct (ltb z x) eqn:Hzx; [|done].
  destruct (decide (x = y)) as [->|Hne]; [congruence|].
  destruct (Htot x y Hne) as [Hxy|Hxy]; [|congruence].
  now rewrite (Htrans z x y Hzx Hxy) in Hzy.
Qed.

Lemma filed_under_cons_eq c v (l : list (K * V)) :
  filed_under c ((c, v) :: l) = v :: filed_under c l.
Proof. unfold filed_under. cbn. now rewrite bool_decide_eq_true_2. Qed.

Lemma filed_under_cons_ne c k v (l : list (K * V)) :
  k <> c -> filed_under c ((k, v) :: l) = filed_under c l.
Proof. intros Hne. unfold filed_under. cbn. now rewrite bool_decide_eq_false_2. Qed.

Lemma filed_under_none c (l : list (K * V)) :
  c ∉ l.*1 -> filed_under c l = [].
Proof.
  induction l as [|[k v] l IH]; [done|]. intros Hnin.
  cbn in Hnin. apply not_elem_of_cons in Hnin as [Hne Hnin].
  rewrite filed_under_cons_ne by done. auto.
Qed.

(** A run that starts at key [k] with [acc], over a sorted rest none of
    whose keys is before [k]. *)
Lemma reduce_run_sorted (l : list (K * V)) :
  StronglySorted (not_after by_key) l ->
  forall k acc,
    Forall (fun kv => ltb kv.1 k = false) l ->
    exists cells,
      reduce_run eqb op k acc l =
        (k, foldl op acc (filed_under k l))
          :: ((fun c => (c, reduce1 op d (filed_under c l))) <$> cells) /\
      NoDup (k :: cells) /\
      (forall c, c ∈ cells <-> c ∈ l.*1 /\ c <> k).
Proof.
  destruct order as (Hirr & Htrans & Htot).
  induction 1 as [|[k' v'] l Hl IH Hk']; intros k acc Hk.
  - exists []. split; [done|]. split; [apply NoDup_singleton|].
    intros c. cbn. split; [intros Hc|intros [Hc _]]; now apply elem_of_nil in Hc.
  - apply Forall_cons in Hk as [Hkk' Hk]. cbn in Hkk'.
    cbn [reduce_run]. case_bool_decide as Heq.
    + subst k'. destruct (IH k (op acc v') Hk) as (cells & Hrun & Hnd & Hin).
      exists cells. split; [|split; [done|]].
      * rewrite Hrun, filed_under_cons_eq. cbn. f_equal.
        apply list_fmap_ext. intros i c Hc. cbn.
        rewrite filed_under_cons_ne; [done|].
        apply list_elem_of_lookup_2, Hin in Hc. intros ->. tauto.
      * intros c. rewrite Hin. cbn. rewrite elem_of_cons. intuition congruence.
    + assert (Hlt : ltb k k' = true).
      { destruct (Htot k k' Heq) as [?|?]; [done|congruence]. }
      assert (Hafter : Forall (fun kv : K * V => ltb k' kv.1 = true \/ kv.1 = k') l).
      { eapply Forall_impl; [exact Hk'|]. unfold not_after. cbn. intros [k2 v2] Hn. cbn in *.
        destruct (decide (k2 = k')) as [|Hne]; [by right|left].
        destruct (Htot k2 k' Hne) as [?|?]; [congruence|done]. }
      assert (Hgt : Forall (fun kv : K * V => ltb k kv.1 = true) l).
      { eapply Forall_impl; [exact Hafter|]. cbn. intros [k2 v2] [Hn| ->]; cbn in *; eauto. }
      assert (Hk'' : Forall (fun kv : K * V => ltb kv.1 k' = false) l).
      { eapply Forall_impl; [exact Hk'|]. done. }
      destruct (IH k' v' Hk'') as (cells & Hrun & Hnd & Hin).
      assert (Hknot : k ∉ ((k', v') :: l).*1).
      { cbn. rewrite not_elem_of_cons. split; [done|].
        intros (kv & -> & Hkv)%list_elem_of_fmap.
        rewrite Forall_forall in Hgt. specialize (Hgt _ Hkv).
        pose proof (Hirr kv.1) as Hx. cbn in Hgt. congruence. }
      exists (k' :: cells). split; [|split].
      * rewrite Hrun, (filed_under_none k) by done. cbn [foldl fmap list_fmap].
        f_equal. f_equal.
        -- f_equal. now rewrite filed_under_cons_eq.
        -- apply list_fmap_ext. intros i c Hc. cbn.
           rewrite filed_under_cons_ne; [done|].
           apply list_elem_of_lookup_2, Hin in Hc. intros ->. tauto.
      * constructor; [|done]. intros Hc. apply Hknot. cbn.
        apply elem_of_cons in Hc as [->|Hc]; [left|right]. now apply Hin in Hc.
      * intros c. cbn. rewrite !elem_of_cons, Hin. split.
        -- intros [->|[Hc Hne]]; (split; [tauto|]); intros ->; apply Hknot; cbn;
             [left|right; done].
        -- intros [[->|Hc] Hne]; [by left|].
           destruct (decide (c = k')) as [->|]; [by left|right; done].
Qed.

(** C1's heart: on a sorted range every key that occurs gives exactly one
    output, the reduction of everything filed under it. *)
Lemma reduce_by_key_sorted (l : list (K * V)) :
  StronglySorted (not_after by_key) l ->
  exists cells,
    reduce_by_key eqb op l =
      (fun c => (c, reduce1 op d (filed_under c l))) <$> cells /\
    NoDup cells /\
    (forall c, c ∈ cells <-> c ∈ l.*1).
Proof.
  intros Hs. destruct l as [|[k v] l].
  - exists []. split; [done|]. split; [constructor|]. intros c. done.
  - apply StronglySorted_inv in Hs as [Hs Hk].
    destruct (reduce_run_sorted l Hs k v) as (cells & Hrun & Hnd & Hin).
    { eapply Forall_impl; [exact Hk|]. done. }
    exists (k :: cells). split; [|split; [done|]].
    + cbn [reduce_by_key]. rewrite Hrun. cbn. f_equal.
      * f_equal. now rewrite filed_under_cons_eq.
      * apply list_fmap_ext. intros i c Hc. cbn.
        rewrite filed_under_cons_ne; [done|].
        apply list_elem_of_lookup_2, Hin in Hc. intros ->. tauto.
    + intros c. cbn. rewrite !elem_of_cons, Hin.
      destruct (decide (c = k)); intuition congruence.
Qed.
End ReduceSorted.

(** ** The reduction of [VoxelDownSample], cell by cell *)

Section Cells.
Context {F : Type} `{Float32 F} `{!Platform F}.
Import thrust.

Lemma length_reduce_run {K V} (eqb : K -> K -> bool) (op : V -> V -> V)
    k acc (l : list (K * V)) :
  length (reduce_run eqb op k acc l) <= S (length l).
Proof.
  revert k acc. induction l as [|[k' v'] l IH]; intros k acc; cbn; [lia|].
  destruct (eqb k k'); cbn.
  - specialize (IH k (op acc v')). lia.
  - specialize (IH k' v'). lia.
Qed.

Lemma length_reduce_by_key {K V} (eqb : K -> K -> bool) (op : V -> V -> V)
    (l : list (K * V)) :
  length (reduce_by_key eqb op l) <= length l.
Proof. destruct l as [|[k v] l]; [done|]. cbn. apply length_reduce_run. Qed.

Lemma length_sort {A} (ltb : A -> A -> bool) (l : list A) :
  length (sort ltb l) = length l.
Proof. apply Permutation_length, sort_perm. Qed.

Lemma length_sort_and_reduce {T} (add : T -> T -> T) keys (values : list T) :
  length (sort_and_reduce add keys values) <= length keys.
Proof.
  unfold sort_and_reduce, sort_by_key. rewrite length_fmap.
  etransitivity; [apply length_reduce_by_key|].
  rewrite length_fmap, length_sort, length_zip. lia.
Qed.

Lemma foldl_add_count {T} (add : T -> T -> T) (a : T) (n : Z) (vs : list T) :
  (0 <= n)%Z -> (n + Z.of_nat (length vs) <= INT_MAX)%Z ->
  foldl (add_tuple_functor add int_add) (a, n) ((fun t => (t, 1%Z)) <$> vs) =
    (foldl add a vs, (n + Z.of_nat (length vs))%Z).
Proof.
  revert a n. induction vs as [|v vs IH]; intros a n Hn Hfit; cbn.
  - f_equal. lia.
  - cbn in Hfit. unfold add_tuple_functor at 2. cbn. unfold int_add.
    rewrite int_wrap_small by (unfold INT_MAX in *; lia).
    rewrite IH by lia. f_equal. lia.
Qed.

Lemma reduce1_add_count {T} (add : T -> T -> T) (d : T) (vs : list T) :
  (Z.of_nat (length vs) <= INT_MAX)%Z ->
  reduce1 (add_tuple_functor add int_add) (d, 0%Z) ((fun t => (t, 1%Z)) <$> vs) =
    (reduce1 add d vs, Z.of_nat (length vs)).
Proof.
  destruct vs as [|v vs]; [done|]. intros Hfit. cbn [fmap list_fmap reduce1].
  cbn in Hfit. rewrite foldl_add_count by lia. f_equal. cbn. lia.
Qed.

Lemma filed_under_fmap {K A B} `{EqDecision K} (f : A -> B) c (l : list (K * A)) :
  filed_under c ((fun kv => (kv.1, f kv.2)) <$> l) = f <$> filed_under c l.
Proof.
  unfold filed_under. induction l as [|[k v] l IH]; [done|].
  cbn. case_bool_decide; cbn; now rewrite IH.
Qed.

Lemma length_filed_under {K A} `{EqDecision K} c (l : list (K * A)) :
  length (filed_under c l) <= length l.
Proof.
  unfold filed_under. rewrite length_fmap.
  induction l as [|kv l IH]; [done|]. cbn. destruct (bool_decide _); cbn; lia.
Qed.

(** Every occupied cell once, with the sum and the count of what was
    bucketed into it. *)
Lemma sort_and_reduce_cells {T} (add : T -> T -> T) (d : T)
    (keys : list Vector3i) (values : list T) :
  strict_total_order less_Vector3i ->
  (Z.of_nat (length keys) <= INT_MAX)%Z ->
  exists cells,
    NoDup cells /\
    (forall c, c ∈ cells <-> c ∈ (zip keys values).*1) /\
    sort_and_reduce add keys values =
      (fun c =>
         (reduce1 add d (filed_under c (zip keys values)),
          Z.of_nat (length (filed_under c (zip keys values))))) <$> cells.
Proof.
  intros Horder Hfit. unfold sort_and_reduce, sort_by_key.
  set (by_key := fun a b : Vector3i * T => less_Vector3i a.1 b.1).
  set (sorted := sort by_key (zip keys values)).
  assert (Hsorted : StronglySorted (not_after by_key) sorted).
  { apply sort_sorted; unfold by_key.
    - intros x y. apply (ltb_asym _ Horder).
    - intros x y z. apply (not_after_trans _ Horder). }
  set (tagged := (fun kv : Vector3i * T => (kv.1, (kv.2, 1%Z))) <$> sorted).
  assert (Htagged : StronglySorted
            (not_after (fun a b : Vector3i * (T * Z) => less_Vector3i a.1 b.1))
            tagged).
  { eapply StronglySorted_fmap; [|exact Hsorted]. done. }
  destruct (reduce_by_key_sorted less_Vector3i (add_tuple_functor add int_add)
              (d, 0%Z) Horder tagged Htagged) as (cells & Hred & Hnd & Hin).
  exists cells. split; [done|]. split.
  - intros c. rewrite Hin. unfold tagged. rewrite <- list_fmap_compose.
    change (fst ∘ _) with (@fst Vector3i T).
    unfold sorted. now rewrite (sort_perm by_key).
  - rewrite Hred, <- list_fmap_compose. apply list_fmap_ext.
    intros i c Hc. cbn. unfold tagged.
    rewrite (filed_under_fmap (fun t => (t, 1%Z))).
    assert (Hstable : filed_under c sorted = filed_under c (zip keys values)).
    { unfold filed_under, sorted. f_equal. apply sort_filter.
      intros x y Hx Hy. unfold by_key.
      apply bool_decide_eq_true in Hx, Hy. rewrite Hx, Hy.
      apply Horder. }
    rewrite Hstable. apply reduce1_add_count.
    pose proof (length_filed_under c (zip keys values)).
    rewrite length_zip in *. lia.
Qed.

(** Projections of tuples commute with the reduction and with filing. *)
Lemma reduce1_projection {T A} (proj : T -> A) (add : T -> T -> T)
    (adda : A -> A -> A) (d : T) (vs : list T) :
  (forall a b, proj (add a b) = adda (proj a) (proj b)) ->
  proj (reduce1 add d vs) = reduce1 adda (proj d) (proj <$> vs).
Proof.
  intros Hhom. destruct vs as [|v vs]; [done|]. cbn.
  revert v. induction vs as [|v' vs IH]; intros v; [done|].
  cbn. rewrite IH. now rewrite Hhom.
Qed.

Lemma zip_fmap_snd {K T A} (proj : T -> A) (ks : list K) (vals : list T) :
  (fun kv : K * T => (kv.1, proj kv.2)) <$> zip ks vals =
    zip ks (proj <$> vals).
Proof.
  revert vals. induction ks as [|k ks IH]; intros [|v vals]; try done.
  cbn. now rewrite IH.
Qed.

Lemma in_cell_projection {T A} (proj : T -> A) (key : Vector3f F -> Vector3i)
    c pts (vals : list T) :
  proj <$> in_cell key c pts vals = in_cell key c pts (proj <$> vals).
Proof.
  unfold in_cell. rewrite <- filed_under_fmap. f_equal. apply zip_fmap_snd.
Qed.
End Cells.

(** ** Running [VoxelDownSample] *)

Section VoxelRun.
Context {F : Type} `{Float32 F} `{!Platform F}.
Implicit Types (w : world F) (pc : PointCloud F) (p : loc) (b : buffer).
Import thrust thrust_facts.

Lemma wp_store_exact X p b vals out' pc (Q : unit -> world F -> Prop) E w :
  heap w !! p = Some pc ->
  write_at_begin (get_buffer b pc) vals = Some out' ->
  Q tt (set_cloud p (set_buffer b out' pc) w) ->
  wp X (store_at_begin p b vals) Q E w.
Proof.
  intros Hp Hw HQ. unfold wp.
  now rewrite (store_at_begin_run _ _ _ _ _ _ Hp Hw).
Qed.

Lemma wp_checked_Some {A} X (o : option A) a (Q : A -> world F -> Prop) E w :
  o = Some a -> Q a w -> wp X (checked o) Q E w.
Proof. now intros ->. Qed.

Lemma resized_empty {A} (n : Z) (d : A) :
  resized n d [] = replicate (Z.to_nat n) d.
Proof. unfold resized. rewrite take_nil. cbn. f_equal. lia. Qed.

Lemma resized_exact {A} (n : Z) (d : A) (vals rest : list A) :
  length vals = Z.to_nat n -> resized n d (vals ++ rest) = vals.
Proof.
  intros Hn. unfold resized. rewrite take_app_length' by done.
  rewrite length_app. replace (Z.to_nat n - _) with 0 by lia.
  apply app_nil_r.
Qed.

Lemma zip_with_prefix {A B C} (f : A -> B -> C) (xs : list A)
    (ys rest : list B) :
  length xs = length ys -> zip_with f xs (ys ++ rest) = zip_with f xs ys.
Proof.
  revert ys. induction xs as [|x xs IH]; intros [|y ys] Hlen; try done.
  cbn. f_equal. apply IH. cbn in Hlen. lia.
Qed.

Lemma take_zip_prefix {A B} (n : nat) (xs rx : list A) (ys ry : list B) :
  length xs = n -> length ys = n ->
  take n (zip (xs ++ rx) (ys ++ ry)) = zip xs ys.
Proof.
  intros Hx Hy. rewrite zip_with_app by lia.
  apply take_app_length'. rewrite length_zip. lia.
Qed.

Lemma zip_with_fmaps {R A B C} (f : A -> B -> C) (ga : R -> A) (gb : R -> B)
    (l : list R) :
  zip_with f (ga <$> l) (gb <$> l) = (fun r => f (ga r) (gb r)) <$> l.
Proof. induction l as [|r l IH]; [done|]. cbn. now rewrite IH. Qed.

Lemma zip_fmaps {R A B} (ga : R -> A) (gb : R -> B) (l : list R) :
  zip (ga <$> l) (gb <$> l) = (fun r => (ga r, gb r)) <$> l.
Proof. apply zip_with_fmaps. Qed.
End VoxelRun.

Section VoxelRun2.
Context {F : Type} `{Float32 F} `{!Platform F}.
Implicit Types (w : world F) (pc : PointCloud F) (p : loc) (b : buffer).
Import thrust thrust_facts.

Ltac lookup_output := apply heap_set_cloud_eq.

Ltac lengths :=
  cbn [set_buffer get_buffer points_ normals_ colors_];
  unfold device_vector;
  repeat first
    [ rewrite length_app | rewrite length_drop | rewrite length_fmap
    | rewrite length_replicate | rewrite length_resized
    | rewrite length_zip_with | rewrite length_take ];
  lia.

Ltac normalize_state :=
  rewrite ?set_cloud_twice;
  cbn [set_buffer get_buffer points_ normals_ colors_ empty_cloud].

Ltac store_prefix :=
  apply wp_bind; eapply wp_store_exact;
    [ lookup_output | apply write_at_begin_Some; lengths | ];
  normalize_state.

Ltac checked_prefix :=
  apply wp_bind; eapply wp_checked_Some;
    [ apply write_at_begin_Some; lengths | ].

Ltac resize_output :=
  eapply wp_resize; [ lookup_output | ]; normalize_state.

Ltac read_output :=
  apply wp_bind; eapply wp_read; [ lookup_output | ]; normalize_state.

Lemma VoxelDownSample_run this voxel_size pc w :
  heap w !! this = Some pc ->
  (vsize (points_ pc) <= INT_MAX)%Z ->
  fleb voxel_size F0 = false ->
  (let voxel_size3 : Vector3f F := (voxel_size, voxel_size, voxel_size) in
   let voxel_min_bound := vsub (GetMinBound pc) (vscale voxel_size3 Fhalf) in
   let voxel_max_bound := vadd (GetMaxBound pc) (vscale voxel_size3 Fhalf) in
   fltb (fmul voxel_size (of_int INT_MAX))
        (maxCoeff (vsub voxel_max_bound voxel_min_bound)) = false) ->
  let output := fresh (dom (heap w)) in
  VoxelDownSample this voxel_size w =
    Ok output
      (logged
         (Msg Debug "Pointcloud down sampled from {:d} points to {:d} points.\n")
         (set_cloud output
            (voxel_result pc (voxel_key pc voxel_size <$> points_ pc)) w)).
Proof.
  intros Hthis Hfit Hpos Hbig output. cbv zeta in Hbig.
  assert (Hne : output <> this) by (apply not_eq_sym; eapply fresh_ne; eauto).
  pose proof (vsize_nonneg (points_ pc)) as Hnn.
  apply wp_exact. unfold VoxelDownSample.
  apply wp_bind, wp_make_shared. fold output. rewrite Hpos.
  apply wp_bind. eapply wp_load;
    [rewrite heap_set_cloud_ne by done; exact Hthis|].
  rewrite Hbig.
  rewrite (int_wrap_small (vsize (points_ pc))) by (unfold INT_MAX in *; lia).
  rewrite (size_t_wrap_small (vsize (points_ pc))) by (unfold INT_MAX in *; lia).
  fold (voxel_key pc voxel_size). unfold transform.
  set (keys := voxel_key pc voxel_size <$> points_ pc).
  apply wp_bind. eapply wp_checked_Some.
  { apply write_at_begin_exact. unfold keys, device_vector, vsize. lengths. }
  apply wp_bind. resize_output. rewrite resized_empty.
  assert (Hkeys : length keys = length (points_ pc))
    by (unfold keys; now rewrite length_fmap).
  assert (HN : Z.to_nat (vsize (points_ pc)) = length (points_ pc))
    by (unfold vsize; lia).
  unfold voxel_result. fold keys.
  destruct (HasNormals pc) eqn:Hn, (HasColors pc) eqn:Hc; cbn [negb andb];
    cbv iota.
  - (* normals and colors *)
    cbv zeta.
    set (reduced :=
           sort_and_reduce (add_tuple_functor (add_tuple_functor vadd vadd) vadd)
             keys (zip (zip (points_ pc) (normals_ pc)) (colors_ pc))).
    pose proof (length_sort_and_reduce
                  (add_tuple_functor (add_tuple_functor vadd vadd) vadd) keys
                  (zip (zip (points_ pc) (normals_ pc)) (colors_ pc))) as Hred.
    fold reduced in Hred.
    assert (Hnout : int_wrap (vsize reduced) = vsize reduced)
      by (apply int_wrap_small; unfold vsize, INT_MAX in *; lia).
    rewrite Hnout.
    assert (Hm : Z.to_nat (vsize reduced) = length reduced)
      by (unfold vsize; lia).
    apply wp_bind.
    apply wp_bind. resize_output. rewrite resized_empty.
    apply wp_bind. resize_output. rewrite resized_empty.
    store_prefix. store_prefix. store_prefix. checked_prefix.
    read_output. read_output. read_output.
    rewrite Hm.
    rewrite (zip_with_app pair (_ <$> reduced)) by now rewrite !length_fmap.
    rewrite (take_zip_prefix (length reduced))
      by (rewrite ?length_zip_with, ?length_app, ?length_fmap; lia).
    unfold device_vector, transform2.
    rewrite zip_with_prefix
      by (rewrite ?length_zip_with, ?length_app, ?length_fmap; lia).
    rewrite !zip_fmaps, zip_with_fmaps.
    erewrite (list_fmap_ext _
                (fun r => normalize_and_devide_tuple_functor3 r.1 r.2) reduced)
      by (intros i [[[a b] c] n] _; reflexivity).
    store_prefix. store_prefix. store_prefix.
    rewrite size_t_wrap_small by (unfold vsize, INT_MAX in *; lia).
    apply wp_bind. resize_output.
    rewrite resized_exact by (rewrite !length_fmap; lia).
    apply wp_bind. resize_output.
    rewrite resized_exact by (rewrite !length_fmap; lia).
    resize_output.
    rewrite resized_exact by (rewrite !length_fmap; lia).
    apply wp_bind, wp_log, wp_ret. done.
  - (* normals only *)
    cbv zeta.
    set (reduced :=
           sort_and_reduce (add_tuple_functor vadd vadd) keys
             (zip (points_ pc) (normals_ pc))).
    pose proof (length_sort_and_reduce (add_tuple_functor vadd vadd) keys
                  (zip (points_ pc) (normals_ pc))) as Hred.
    fold reduced in Hred.
    assert (Hnout : int_wrap (vsize reduced) = vsize reduced)
      by (apply int_wrap_small; unfold vsize, INT_MAX in *; lia).
    rewrite Hnout.
    assert (Hm : Z.to_nat (vsize reduced) = length reduced)
      by (unfold vsize; lia).
    apply wp_bind.
    apply wp_bind. resize_output. rewrite resized_empty.
    store_prefix. store_prefix. checked_prefix.
    read_output. read_output.
    rewrite Hm.
    rewrite (take_zip_prefix (length reduced))
      by (rewrite ?length_zip_with, ?length_app, ?length_fmap; lia).
    unfold device_vector, transform2.
    rewrite zip_with_prefix
      by (rewrite ?length_zip_with, ?length_app, ?length_fmap; lia).
    rewrite !zip_fmaps, zip_with_fmaps.
    erewrite (list_fmap_ext _
                (fun r => normalize_and_devide_tuple_functor2 r.1 r.2) reduced)
      by (intros i [[a b] n] _; reflexivity).
    store_prefix. store_prefix.
    rewrite size_t_wrap_small by (unfold vsize, INT_MAX in *; lia).
    apply wp_bind. resize_output.
    rewrite resized_exact by (rewrite !length_fmap; lia).
    resize_output.
    rewrite resized_exact by (rewrite !length_fmap; lia).
    apply wp_bind, wp_log, wp_ret. done.
  - (* colors only *)
    cbv zeta.
    set (reduced :=
           sort_and_reduce (add_tuple_functor vadd vadd) keys
             (zip (points_ pc) (colors_ pc))).
    pose proof (length_sort_and_reduce (add_tuple_functor vadd vadd) keys
                  (zip (points_ pc) (colors_ pc))) as Hred.
    fold reduced in Hred.
    assert (Hnout : int_wrap (vsize reduced) = vsize reduced)
      by (apply int_wrap_small; unfold vsize, INT_MAX in *; lia).
    rewrite Hnout.
    assert (Hm : Z.to_nat (vsize reduced) = length reduced)
      by (unfold vsize; lia).
    apply wp_bind.
    apply wp_bind. resize_output. rewrite resized_empty.
    store_prefix. store_prefix. checked_prefix.
    read_output. read_output.
    rewrite Hm.
    rewrite (take_zip_prefix (length reduced))
      by (rewrite ?length_zip_with, ?length_app, ?length_fmap; lia).
    unfold device_vector, transform2.
    rewrite zip_with_prefix
      by (rewrite ?length_zip_with, ?length_app, ?length_fmap; lia).
    rewrite !zip_fmaps, zip_with_fmaps.
    erewrite (list_fmap_ext _
                (fun r => devide_tuple_functor2 r.1 r.2) reduced)
      by (intros i [[a b] n] _; reflexivity).
    store_prefix. store_prefix.
    rewrite size_t_wrap_small by (unfold vsize, INT_MAX in *; lia).
    apply wp_bind. resize_output.
    rewrite resized_exact by (rewrite !length_fmap; lia).
    resize_output.
    rewrite resized_exact by (rewrite !length_fmap; lia).
    apply wp_bind, wp_log, wp_ret. done.
  - (* neither *)
    cbv zeta. set (reduced := sort_and_reduce vadd keys (points_ pc)).
    pose proof (length_sort_and_reduce vadd keys (points_ pc)) as Hred.
      fold reduced in Hred.
      assert (Hnout : int_wrap (vsize reduced) = vsize reduced)
        by (apply int_wrap_small; unfold vsize, INT_MAX in *; lia).
      rewrite Hnout.
      assert (Hm : Z.to_nat (vsize reduced) = length reduced)
        by (unfold vsize; lia).
      apply wp_bind. store_prefix. checked_prefix. read_output.
      rewrite Hm, take_app_length' by now rewrite length_fmap.
      unfold device_vector, transform2.
      rewrite zip_with_prefix by now rewrite !length_fmap.
      rewrite zip_with_fmaps.
      store_prefix.
      rewrite size_t_wrap_small by (unfold vsize, INT_MAX in *; lia).
      resize_output.
      rewrite resized_exact by (rewrite length_fmap; lia).
      apply wp_bind, wp_log, wp_ret. done.
Qed.
End VoxelRun2.

(** ** C4: [SelectByIndex] *)

Section C4.
Context {F : Type} `{Float32 F} `{!Platform F}.
Import thrust thrust_facts.

(** C4, for indices in range.  When every index names a position of
    the input cloud, [SelectByIndex] with [invert = false] returns a fresh
    cloud whose i-th point (normal, color when the input has them) is the
    input element at position [indices[i]]; when moreover no index occurs
    twice, [invert = true] returns the input elements at exactly the
    positions of [[0, n)] that [indices] does not contain, in ascending
    order, so [n - |indices|] points. *)
Theorem SelectByIndex_gathers (this : loc) (indices : list Z)
    (pc : PointCloud F) (w : world F) :
  heap w !! this = Some pc ->
  (vsize (points_ pc) < 2 ^ 64)%Z ->
  Forall (in_range (vsize (points_ pc))) indices ->
  let output := fresh (dom (heap w)) in
  (exists sel,
     SelectByIndex this indices false w = Ok output (set_cloud output sel w) /\
     selects indices pc sel) /\
  (NoDup indices ->
   exists sel,
     SelectByIndex this indices true w = Ok output (set_cloud output sel w) /\
     selects (complement (vsize (points_ pc)) indices) pc sel /\
     StronglySorted Z.lt (complement (vsize (points_ pc)) indices) /\
     (forall i, i ∈ complement (vsize (points_ pc)) indices <->
                in_range (vsize (points_ pc)) i /\ i ∉ indices) /\
     vsize (points_ sel) = (vsize (points_ pc) - vsize indices)%Z).
Proof.
  intros Hthis Hfit Hall output. split.
  - now apply SelectByIndex_plain.
  - intros Hnd.
    set (n := vsize (points_ pc)) in *.
    assert (Hn : (0 <= n)%Z) by apply vsize_nonneg.
    assert (Hdiff : set_difference Z.ltb (counting 0 n) (sort Z.ltb indices)
                    = complement n indices).
    { unfold counting. rewrite Z.sub_0_r.
      rewrite set_difference_filter
        by (apply StronglySorted_seqZ || apply sort_Z_sorted).
      unfold complement. apply filter_ext_Forall, Forall_forall.
      intros i _. now rewrite (sort_perm Z.ltb indices). }
    assert (Hlen : Z.of_nat (length (complement n indices)) = (n - vsize indices)%Z).
    { unfold complement, vsize. now apply length_complement. }
    assert (Hcomp : Forall (in_range n) (complement n indices)).
    { apply Forall_forall. intros i Hi%elem_of_complement. tauto. }
    destruct (select_into_fresh this (complement n indices) pc w Hthis Hcomp)
      as (sel & Hrun & Hsel).
    exists sel. split; [|split; [done|split; [apply complement_ascending|]]].
    + unfold SelectByIndex.
      rewrite (bind_Ok _ _ _ _ _ (make_shared_run w)). fold output.
      erewrite bind_Ok.
      2:{ apply read_run. rewrite heap_set_cloud_ne
            by (apply not_eq_sym; eapply fresh_ne; eauto).
          exact Hthis. }
      simpl get_buffer. fold n. rewrite Hdiff.
      rewrite write_at_begin_exact.
      2:{ unfold device_vector. rewrite length_replicate.
          rewrite size_t_wrap_small by (unfold vsize in *; lia). lia. }
      simpl checked. rewrite bind_ret.
      now rewrite (bind_Ok _ _ _ _ _ Hrun).
    + split; [apply elem_of_complement|].
      destruct Hsel as [[Hl _] _]. unfold vsize at 1. rewrite Hl. exact Hlen.
Qed.
End C4.

Section C4_examples.
Import Exact.
#[local] Existing Instance Q_Float32.
#[local] Existing Instance raising.

Lemma SelectByIndex_gathers_witness :
  (exists sel,
     SelectByIndex 0 [2; 0]%Z false (world_with three_with_normals) =
       Ok 1 (set_cloud 1 sel (world_with three_with_normals)) /\
     selects [2; 0]%Z three_with_normals sel) /\
  (NoDup [2; 0]%Z ->
   exists sel,
     SelectByIndex 0 [2; 0]%Z true (world_with three_with_normals) =
       Ok 1 (set_cloud 1 sel (world_with three_with_normals)) /\
     selects (complement 3 [2; 0]%Z) three_with_normals sel /\
     StronglySorted Z.lt (complement 3 [2; 0]%Z) /\
     (forall i, i ∈ complement 3 [2; 0]%Z <-> in_range 3 i /\ i ∉ [2; 0]%Z) /\
     vsize (points_ sel) = (3 - 2)%Z).
Proof.
  apply (SelectByIndex_gathers 0 [2; 0]%Z three_with_normals
           (world_with three_with_normals)).
  - reflexivity.
  - reflexivity.
  - repeat constructor; unfold in_range; simpl; lia.
Defined.

(** C4, counterexample.  Three points and the index list [[0; 0]] with
    [invert = true]: the positions that [indices] does not contain are [1]
    and [2], two of them, while [n - |indices|] is one; the set difference
    writes two indices into the buffer of one and the call does not
    return. *)
Lemma SelectByIndex_duplicate_index :
  Forall (in_range (vsize (points_ three_points))) [0; 0]%Z /\
  complement (vsize (points_ three_points)) [0; 0]%Z = [1; 2]%Z /\
  (vsize (points_ three_points) - vsize [0; 0]%Z = 1)%Z /\
  SelectByIndex 0 [0; 0]%Z true (world_with three_points) = Fault.
Proof.
  split; [repeat constructor; unfold in_range; simpl; lia|].
  split; [reflexivity|]. split; [reflexivity|]. reflexivity.
Qed.
End C4_examples.

(** ** C7, C8: what the reductions keep and reject *)

Section C6.
Context {F : Type} `{Float32 F} `{!Platform F}.

Lemma output_at_fresh (w0 : world F) this pc out lens w' :
  heap w0 !! this = Some pc -> output_at w0 out lens w' ->
  fresh_output w0 this pc out w'.
Proof.
  intros Hthis Hout.
  destruct (output_at_input _ _ _ _ _ _ Hout Hthis) as [Hin _].
  destruct Hout as (Hsub & Hnone & o & Ho & _).
  repeat split; eauto.
Qed.

Lemma kept_unchanged (w0 : world F) this pc w' :
  heap w0 !! this = Some pc -> heap w0 ⊆ heap w' ->
  input_unchanged w0 this pc w'.
Proof. intros Hthis Hsub. split; [eapply lookup_weaken; eauto|done]. Qed.

Lemma output_at_attributes (w0 : world F) pc out lens w' :
  presence pc lens -> output_at w0 out lens w' -> attributes_follow pc out w'.
Proof.
  intros [Hn Hc] (_ & _ & o & Ho & Hlen). exists o. split; [done|].
  rewrite <- (Hlen points) in Hn, Hc.
  rewrite <- (Hlen normals) in Hn. rewrite <- (Hlen colors) in Hc. done.
Qed.

(** C7, with the lengths stated.  Whenever [SelectByIndex],
    [VoxelDownSample] or [UniformDownSample] returns, the normals buffer
    of the output has the length of its points buffer if the input
    [HasNormals()] and is empty otherwise, and likewise for colors: an
    attribute is present in the output exactly when the input has it and
    the output has a point. *)
Theorem reductions_keep_attributes (this : loc) (pc : PointCloud F)
    (w : world F) :
  heap w !! this = Some pc ->
  (forall indices invert,
     wp True (SelectByIndex this indices invert)
       (attributes_follow pc) (fun _ => True) w) /\
  (forall voxel_size,
     wp True (VoxelDownSample this voxel_size)
       (attributes_follow pc) (fun _ => True) w) /\
  (forall every_k_points,
     wp True (UniformDownSample this every_k_points)
       (attributes_follow pc) (fun _ => True) w).
Proof.
  intros Hthis. repeat split; intros.
  - eapply SelectByIndex_output; eauto using output_at_attributes.
  - eapply VoxelDownSample_output; eauto using output_at_attributes.
  - eapply UniformDownSample_output; eauto using output_at_attributes.
Qed.

(** C8.  A [voxel_size] that is not positive, or so small that
    [voxel_size * INT_MAX] is below the largest extent of the padded
    bounds, makes [VoxelDownSample] log one warning and return a new, empty
    cloud; nothing is raised and the input keeps its buffers. *)
Theorem VoxelDownSample_rejects (this : loc) (voxel_size : F)
    (pc : PointCloud F) (w : world F) :
  heap w !! this = Some pc ->
  let voxel_size3 : Vector3f F := (voxel_size, voxel_size, voxel_size) in
  let voxel_min_bound := vsub (GetMinBound pc) (vscale voxel_size3 Fhalf) in
  let voxel_max_bound := vadd (GetMaxBound pc) (vscale voxel_size3 Fhalf) in
  fleb voxel_size F0 = true \/
  fltb (fmul voxel_size (of_int INT_MAX))
       (maxCoeff (vsub voxel_max_bound voxel_min_bound)) = true ->
  let output := fresh (dom (heap w)) in
  exists text w',
    VoxelDownSample this voxel_size w = Ok output w' /\
    w' = logged (Msg Warning text) (set_cloud output empty_cloud w) /\
    heap w' !! output = Some empty_cloud /\
    heap w !! output = None /\
    heap w' !! this = Some pc.
Proof.
  intros Hthis vs3 vmin vmax Hbad output.
  assert (Hne : output <> this)
    by (apply not_eq_sym; eapply fresh_ne; eauto).
  assert (Hpost : forall text,
    let w' := logged (Msg Warning text) (set_cloud output empty_cloud w) in
    heap w' !! output = Some empty_cloud /\ heap w !! output = None /\
    heap w' !! this = Some pc).
  { intros text. simpl. rewrite lookup_insert_eq, lookup_insert_ne by done.
    split; [done|]. split; [apply fresh_unallocated|done]. }
  unfold VoxelDownSample.
  rewrite (bind_Ok _ _ _ _ _ (make_shared_run w)). fold output.
  destruct (fleb voxel_size F0) eqn:Hle.
  - eexists _, _. split; [reflexivity|]. split; [reflexivity|]. apply Hpost.
  - destruct Hbad as [?|Hsmall]; [done|].
    erewrite bind_Ok
      by (apply load_run; rewrite heap_set_cloud_ne by done; exact Hthis).
    fold vs3 vmin vmax. rewrite Hsmall.
    eexists _, _. split; [reflexivity|]. split; [reflexivity|]. apply Hpost.
Qed.
End C6.

Section C6_examples.
Import Exact.
#[local] Existing Instance Q_Float32.
#[local] Existing Instance raising.

Lemma reductions_keep_attributes_witness :
  (forall indices invert,
     wp True (SelectByIndex 0 indices invert)
       (attributes_follow three_with_normals) (fun _ => True)
       (world_with three_with_normals)) /\
  (forall voxel_size,
     wp True (VoxelDownSample 0 voxel_size)
       (attributes_follow three_with_normals) (fun _ => True)
       (world_with three_with_normals)) /\
  (forall every_k_points,
     wp True (UniformDownSample 0 every_k_points)
       (attributes_follow three_with_normals) (fun _ => True)
       (world_with three_with_normals)).
Proof.
  apply (reductions_keep_attributes 0 three_with_normals
           (world_with three_with_normals)).
  reflexivity.
Defined.

(** C7, counterexample.  The input has a normal per point, the index list
    is empty: [SelectByIndex] returns a cloud whose normals buffer is
    empty. *)
Lemma SelectByIndex_nothing_selected :
  HasNormals three_with_normals = true /\
  exists w',
    SelectByIndex 0 [] false (world_with three_with_normals) = Ok 1 w' /\
    exists o, heap w' !! 1 = Some o /\ normals_ o = [].
Proof.
  split; [reflexivity|].
  eexists. split; [vm_compute; reflexivity|].
  eexists. split; [vm_compute; reflexivity|reflexivity].
Qed.

Lemma VoxelDownSample_rejects_witness :
  exists text w',
    VoxelDownSample 0 0%Q (world_with three_with_normals) = Ok 1 w' /\
    w' = logged (Msg Warning text)
           (set_cloud 1 empty_cloud (world_with three_with_normals)) /\
    heap w' !! 1 = Some empty_cloud /\
    heap (world_with three_with_normals) !! 1 = None /\
    heap w' !! 0 = Some three_with_normals.
Proof.
  apply (VoxelDownSample_rejects 0 0%Q three_with_normals
           (world_with three_with_normals)).
  - reflexivity.
  - left. reflexivity.
Defined.
End C6_examples.

(** ** C2: [RemoveRadiusOutliers] *)

Section C2.
Context {F : Type} `{Float32 F} `{!Platform F}.
Import thrust thrust_facts.

Lemma ascending_filter_seq (p : nat -> bool) (a n : nat) :
  StronglySorted Z.lt (Z.of_nat <$> List.filter p (seq a n)).
Proof.
  revert a. induction n as [|n IH]; intros a; [constructor|].
  cbn [seq List.filter]. destruct (p a); [|apply IH].
  cbn. constructor; [apply IH|].
  apply Forall_fmap, Forall_forall. intros i Hi. simpl.
  apply list_elem_of_In, filter_In in Hi as [Hi _]. apply in_seq in Hi. lia.
Qed.

Lemma length_flat_map_replicate (r n : nat) (start : Z) :
  length (flat_map (replicate r) (seqZ start (Z.of_nat n))) = n * r.
Proof.
  revert start. induction n as [|n IH]; intros start; [done|].
  rewrite seqZ_cons by lia. cbn [flat_map].
  rewrite length_app, length_replicate.
  replace (Z.pred (Z.of_nat (S n))) with (Z.of_nat n) by lia.
  rewrite IH. lia.
Qed.

Lemma block_fmap {A B} (f : A -> B) (r i : nat) (l : list A) :
  block r i (f <$> l) = f <$> block r i l.
Proof. unfold block. now rewrite fmap_take, fmap_drop. Qed.

Lemma length_block_le {A} (r i : nat) (l : list A) : length (block r i l) <= r.
Proof. unfold block. rewrite length_take. lia. Qed.

(** C2.  With [nb_points >= 1], a radius that passes the check and a k-d
    tree that answers every query with [nb_points + 1] slots,
    [RemoveRadiusOutliers] returns the selection of exactly the points whose
    block of search results holds more than [nb_points] valid hits,
    together with their indices in ascending order.  With [nb_points < 1]
    or [search_radius <= 0] the error is reported through [LogError], and
    with a [LogError] that raises nothing is filtered. *)
Theorem RemoveRadiusOutliers_filters (this : loc) (nb_points : Z)
    (search_radius : F) (pc : PointCloud F) (w : world F)
    (tmp_indices : list Z) (dist : list F) :
  heap w !! this = Some pc ->
  let n := length (points_ pc) in
  let max_nn := Z.to_nat (nb_points + 1) in
  (0 <= nb_points < 2 ^ 63 - 1)%Z ->
  ((nb_points + 1) * Z.of_nat n < 2 ^ 63)%Z ->
  SearchRadius pc (points_ pc) search_radius (nb_points + 1) =
    (tmp_indices, dist) ->
  length tmp_indices = n * max_nn ->
  let kept :=
    Z.of_nat <$>
      List.filter
        (fun i => (nb_points <? valid_hits (block max_nn i tmp_indices))%Z)
        (seq 0 n) in
  let output := fresh (dom (heap w)) in
  ((1 <= nb_points)%Z -> fleb search_radius F0 = false ->
   exists sel,
     RemoveRadiusOutliers this nb_points search_radius w =
       Ok (output, kept) (set_cloud output sel w) /\
     selects kept pc sel /\
     StronglySorted Z.lt kept) /\
  ((nb_points < 1)%Z \/ fleb search_radius F0 = true ->
   LogError_throws = true ->
   exists text,
     RemoveRadiusOutliers this nb_points search_radius w =
       Throw text (logged (Msg Error text) w)).
Proof.
  intros Hthis n max_nn Hnb Hfit Hkd Hlen kept output. split.
  - intros Hpos Hrad.
    assert (Hmax : Z.of_nat max_nn = (nb_points + 1)%Z) by (unfold max_nn; lia).
    assert (Hr : 0 < max_nn) by (unfold max_nn; lia).
    destruct (select_where_run this pc w
                (fun x : Z * Z => (nb_points <? x.2)%Z)
                (fun i => valid_hits (block max_nn i tmp_indices)) 0%Z Hthis)
      as (sel & Hrun & Hsel).
    exists sel. split; [|split; [exact Hsel|apply ascending_filter_seq]].
    unfold RemoveRadiusOutliers.
    replace ((nb_points <? 1)%Z) with false by (symmetry; apply Z.ltb_ge; lia).
    rewrite Hrad. simpl orb. rewrite when_false, bind_ret.
    rewrite (bind_Ok _ _ _ _ _ (load_run _ _ _ Hthis)).
    unfold size_t_add. rewrite size_t_wrap_small by lia. rewrite Hkd.
    rewrite difference_wrap_small by lia.
    unfold vsize. fold n. rewrite <- Hmax.
    rewrite repeated_range_blocks by lia.
    rewrite length_flat_map_replicate.
    unfold read_n. rewrite decide_True by lia.
    rewrite take_ge by lia. simpl checked. rewrite bind_ret.
    rewrite (reduce_by_key_blocks size_t_add max_nn 0%Z n Hr)
      by (rewrite length_fmap; lia).
    rewrite <- list_fmap_compose.
    erewrite (list_fmap_ext _ (fun i => valid_hits (block max_nn i tmp_indices))).
    2:{ intros _ i _. simpl. rewrite block_fmap. apply reduce1_count_valid.
        pose proof (length_block_le max_nn i tmp_indices). lia. }
    rewrite write_at_begin_exact
      by (unfold device_vector; rewrite length_fmap, length_seq, length_replicate; lia).
    simpl checked. rewrite bind_ret. exact Hrun.
  - intros Hbad Hthrow.
    eexists. unfold RemoveRadiusOutliers.
    assert (Hc : ((nb_points <? 1)%Z || fleb search_radius F0) = true).
    { destruct Hbad as [Hlt|Hle]; [|rewrite Hle; apply orb_true_r].
      apply Z.ltb_lt in Hlt. now rewrite Hlt. }
    rewrite Hc, when_true. unfold LogError. rewrite Hthrow. reflexivity.
Qed.
End C2.

Section C2_examples.
Import Exact.
#[local] Existing Instance Q_Float32.
#[local] Existing Instance raising.

Lemma RemoveRadiusOutliers_filters_witness :
  let tmp_indices := [0; 1; 0; 1; 2; -1; 3; -1]%Z in
  let kept :=
    Z.of_nat <$>
      List.filter
        (fun i => (1 <? valid_hits (block 2 i tmp_indices))%Z) (seq 0 4) in
  ((1 <= 1)%Z -> fleb (11 # 10)%Q F0 = false ->
   exists sel,
     RemoveRadiusOutliers 0 1 (11 # 10)%Q (world_with with_duplicates) =
       Ok (1, kept) (set_cloud 1 sel (world_with with_duplicates)) /\
     selects kept with_duplicates sel /\
     StronglySorted Z.lt kept) /\
  ((1 < 1)%Z \/ fleb (11 # 10)%Q F0 = true ->
   LogError_throws = true ->
   exists text,
     RemoveRadiusOutliers 0 1 (11 # 10)%Q (world_with with_duplicates) =
       Throw text (logged (Msg Error text) (world_with with_duplicates))).
Proof.
  apply (RemoveRadiusOutliers_filters 0 1 (11 # 10)%Q with_duplicates
           (world_with with_duplicates) [0; 1; 0; 1; 2; -1; 3; -1]%Z
           [0; 0; 0; 0; 0; 0; 0; 0]%Q).
  - reflexivity.
  - lia.
  - simpl. lia.
  - reflexivity.
  - reflexivity.
Defined.
End C2_examples.

(** ** C3: [RemoveStatisticalOutliers] *)

Section C3.
Context {F : Type} `{Float32 F} `{!Platform F}.
Import thrust thrust_facts.

Lemma foldl_add_tuple {A B C} (fa : A -> A -> A) (fb : B -> B -> B)
    (p : C -> A) (q : C -> B) (a : A) (b : B) (l : list C) :
  foldl (add_tuple_functor fa fb) (a, b) ((fun x => (p x, q x)) <$> l) =
    (foldl fa a (p <$> l), foldl fb b (q <$> l)).
Proof. revert a b. induction l as [|x l IH]; intros a b; [done|]. apply IH. Qed.

Lemma foldl_count (p : F -> bool) (acc : Z) (l : list F) :
  (0 <= acc)%Z -> (acc + Z.of_nat (length l) < 2 ^ 64)%Z ->
  foldl size_t_add acc ((fun x => if p x then 1%Z else 0%Z) <$> l) =
    (acc + Z.of_nat (length (List.filter p l)))%Z.
Proof.
  revert acc. induction l as [|x l IH]; intros acc Hacc Hfit; cbn; [lia|].
  cbn in Hfit. unfold size_t_add at 2.
  destruct (p x); rewrite size_t_wrap_small by lia;
    rewrite IH by lia; cbn; lia.
Qed.

(** What [RemoveStatisticalOutliers] computes.  For legal parameters and a
    k-d tree that answers every query with [nb_neighbors] slots: the
    average distances of the points; the number of the non-negative ones
    and their mean; the squared deviations of the positive ones only,
    summed and divided by that number less one; the threshold; and the
    selection of the points whose average distance is positive and below
    the threshold. *)
Lemma RemoveStatisticalOutliers_run (this : loc) (nb_neighbors : Z)
    (std_ratio : F) (pc : PointCloud F) (w : world F)
    (tmp_indices : list Z) (dist : list F) :
  heap w !! this = Some pc ->
  let n := length (points_ pc) in
  let r := Z.to_nat nb_neighbors in
  (1 <= nb_neighbors < 2 ^ 31)%Z ->
  fleb std_ratio F0 = false ->
  (nb_neighbors * Z.of_nat n < 2 ^ 63)%Z ->
  SearchKNN pc (points_ pc) nb_neighbors = (tmp_indices, dist) ->
  length dist = n * r ->
  let avg := fun i : nat => average_distance (block r i dist) in
  let avgs := avg <$> seq 0 n in
  let valid_distances := Z.of_nat (length (List.filter (fleb F0) avgs)) in
  let cloud_mean :=
    fdiv (foldl fadd F0 ((fun x => fmax x F0) <$> avgs))
         (of_int valid_distances) in
  let sq_sum :=
    foldl fadd F0
      ((fun x => if fltb F0 x
                 then fmul (fsub x cloud_mean) (fsub x cloud_mean) else F0)
         <$> avgs) in
  let std_dev := fsqrt (fdiv sq_sum (of_int (valid_distances - 1))) in
  let distance_threshold := fadd cloud_mean (fmul std_ratio std_dev) in
  let kept :=
    Z.of_nat <$>
      List.filter
        (fun i => fltb F0 (avg i) && fltb (avg i) distance_threshold)
        (seq 0 n) in
  let output := fresh (dom (heap w)) in
  (valid_distances = 0%Z ->
   RemoveStatisticalOutliers this nb_neighbors std_ratio w =
     Ok (output, []) (set_cloud output empty_cloud w)) /\
  (valid_distances <> 0%Z ->
   exists sel,
     RemoveStatisticalOutliers this nb_neighbors std_ratio w =
       Ok (output, kept) (set_cloud output sel w) /\
     selects kept pc sel).
Proof.
  intros Hthis n r Hnb Hratio Hfit Hkd Hlen avg avgs valid_distances
    cloud_mean sq_sum std_dev distance_threshold kept output.
  assert (Hr : 0 < r) by (unfold r; lia).
  assert (HrZ : Z.of_nat r = nb_neighbors) by (unfold r; lia).
  assert (Hn64 : (Z.of_nat n < 2 ^ 64)%Z) by nia.
  assert (Hprefix :
    RemoveStatisticalOutliers this nb_neighbors std_ratio w =
    (if (valid_distances =? 0)%Z
     then (out <- make_shared ;; ret (out, []))
     else select_where this
            (check_distance_threshold_functor
               (fadd cloud_mean
                  (fmul std_ratio
                     (fsqrt (fdiv sq_sum
                               (of_int (size_t_wrap (valid_distances - 1))))))))
            avgs (device_vector (Z.of_nat n) 0%Z)) w).
  { unfold RemoveStatisticalOutliers.
    replace ((nb_neighbors <? 1)%Z) with false
      by (symmetry; apply Z.ltb_ge; lia).
    rewrite Hratio. simpl orb. rewrite when_false, bind_ret.
    rewrite (bind_Ok _ _ _ _ _ (load_run _ _ _ Hthis)).
    destruct (decide (points_ pc = [])) as [Hnil|Hcons].
    - rewrite bool_decide_eq_true_2 by done.
      assert (n = 0) as Hn0 by (unfold n; now rewrite Hnil).
      unfold valid_distances, avgs. rewrite Hn0. reflexivity.
    - rewrite bool_decide_eq_false_2 by done.
      rewrite int_wrap_small by lia. rewrite Hkd.
      rewrite difference_wrap_small by lia.
      unfold vsize. fold n. rewrite <- HrZ.
      rewrite repeated_range_blocks by lia.
      rewrite length_flat_map_replicate.
      unfold read_n. rewrite decide_True by lia.
      rewrite take_ge by lia. simpl checked. rewrite bind_ret.
      rewrite (reduce_by_key_blocks add_valid_distance r (0%Z, F0) n Hr)
        by (rewrite length_fmap; lia).
      rewrite <- !list_fmap_compose.
      rewrite write_at_begin_exact
        by (unfold device_vector;
            rewrite length_fmap, length_seq, length_replicate; lia).
      simpl checked. rewrite bind_ret.
      rewrite write_at_begin_exact
        by (unfold device_vector;
            rewrite length_fmap, length_seq, length_replicate; lia).
      simpl checked. rewrite bind_ret.
      unfold transform2. rewrite zip_with_fmap_l, zip_with_fmap_r, zip_with_diag.
      match goal with
      | |- context [?f <$> seq 0 n] =>
          rewrite (list_fmap_ext f avg (seq 0 n))
            by (intros _ i _; unfold avg, average_distance; simpl;
                now rewrite block_fmap)
      end.
      fold avgs. unfold transform_reduce.
      rewrite (foldl_add_tuple fadd size_t_add (fun x => fmax x F0)
                 (fun x => if fleb F0 x then 1%Z else 0%Z)).
      cbn [fst snd].
      rewrite (foldl_count (fleb F0))
        by (unfold avgs; rewrite ?length_fmap, ?length_seq; lia).
      rewrite Z.add_0_l. reflexivity. }
  rewrite Hprefix. split.
  - intros Hz. rewrite Hz. reflexivity.
  - intros Hnz.
    replace ((valid_distances =? 0)%Z) with false
      by (symmetry; now apply Z.eqb_neq).
    assert (0 <= valid_distances <= Z.of_nat n)%Z as Hv.
    { unfold valid_distances. split; [lia|].
      apply inj_le. etransitivity; [apply length_List_filter|].
      unfold avgs. now rewrite length_fmap, length_seq. }
    rewrite size_t_wrap_small by lia.
    apply (select_where_run this pc w
             (check_distance_threshold_functor distance_threshold) avg 0%Z Hthis).
Qed.
End C3.

(** ** C10: dense grid graphs *)

Module GraphFacts.
Import Graph.

Section Grid.
Context {F : Type} `{Float32 F} `{!Construct}.
Local Open Scope Z_scope.

Lemma int_wrap_id (z : Z) : 0 <= z <= INT_MAX -> int_wrap z = z.
Proof. unfold INT_MAX. intros Hz. apply int_wrap_small. lia. Qed.

Lemma size_t_of_int_id (z : Z) : 0 <= z <= INT_MAX -> size_t_of_int z = z.
Proof.
  unfold INT_MAX, size_t_of_int. intros Hz. apply size_t_wrap_small. lia.
Qed.

Lemma int_mul_id (a b : Z) : 0 <= a * b <= INT_MAX -> int_mul a b = a * b.
Proof. apply int_wrap_id. Qed.

(** Decomposition of a flat index into its digits. *)
Lemma digits (idx a b : Z) :
  0 < a -> 0 < b -> 0 <= idx < a * b ->
  0 <= idx `div` b < a /\ 0 <= idx `mod` b < b /\
  idx = idx `div` b * b + idx `mod` b.
Proof.
  intros Ha Hb Hidx.
  pose proof (Z.mod_pos_bound idx b Hb).
  pose proof (Z.div_mod idx b ltac:(lia)).
  split; [|split; [done|lia]].
  split; [apply Z.div_pos; lia|].
  apply Z.div_lt_upper_bound; lia.
Qed.

Lemma at_index_In {A} (table : list A) (k : Z) (d : A) :
  0 <= k < Z.of_nat (length table) -> at_index table k d ∈ table.
Proof.
  intros Hk. unfold at_index. rewrite decide_True by lia.
  apply list_elem_of_In, nth_In. lia.
Qed.

Lemma offsets_small :
  Forall (fun o : Vector3i => -1 <= o.1.1 <= 1 /\ -1 <= o.1.2 <= 1 /\ -1 <= o.2 <= 1)
    voxel_offset.
Proof. unfold voxel_offset. repeat constructor; simpl; lia. Qed.

Lemma offsets_2d_small :
  Forall (fun o : Vector2i => -1 <= o.1 <= 1 /\ -1 <= o.2 <= 1) voxel_offset_2d.
Proof. unfold voxel_offset_2d. repeat constructor; simpl; lia. Qed.

(** What the 3D line functor computes at a flat index in range. *)
Lemma lines_functor3_spec (r0 r1 r2 idx : Z) :
  0 < r0 -> 0 < r1 -> 0 < r2 ->
  r0 * r1 * r2 <= INT_MAX -> r1 * r2 * 26 <= INT_MAX ->
  0 <= idx < r0 * r1 * r2 * 26 ->
  exists x y z o,
    in_grid3 (r0, r1, r2) (x, y, z) /\ o ∈ voxel_offset /\
    create_dense_grid_lines_functor3 (r0, r1, r2) idx =
      if decide (in_grid3 (r0, r1, r2) (x + o.1.1, y + o.1.2, z + o.2))
      then (node3 (r0, r1, r2) (x, y, z),
            node3 (r0, r1, r2) (x + o.1.1, y + o.1.2, z + o.2))
      else (-1, -1).
Proof.
  intros Hr0 Hr1 Hr2 Hmax Hb1 Hidx.
  assert (H12 : 0 < r1 * r2) by lia.
  assert (Hb2 : r2 * 26 <= INT_MAX) by nia.
  assert (Hb3 : r1 * r2 <= INT_MAX) by nia.
  assert (Hr : r0 <= INT_MAX /\ r1 <= INT_MAX /\ r2 <= INT_MAX) by nia.
  destruct (digits idx r0 (r1 * r2 * 26)) as (Hx & Hyzk & _); [lia..|].
  set (x := idx `div` (r1 * r2 * 26)) in *.
  set (yzk := idx `mod` (r1 * r2 * 26)) in *.
  destruct (digits yzk r1 (r2 * 26)) as (Hy & Hzk & _); [lia..|].
  set (y := yzk `div` (r2 * 26)) in *.
  set (zk := yzk `mod` (r2 * 26)) in *.
  destruct (digits zk r2 26) as (Hz & Hk & _); [lia..|].
  set (z := zk `div` 26) in *.
  set (k := zk `mod` 26) in *.
  pose proof (at_index_In voxel_offset k (0, 0, 0) ltac:(simpl; lia)) as Hin.
  pose proof offsets_small as Hsmall. rewrite Forall_forall in Hsmall.
  specialize (Hsmall _ Hin).
  exists x, y, z, (at_index voxel_offset k (0, 0, 0)).
  split; [unfold in_grid3; lia|]. split; [exact Hin|].
  unfold create_dense_grid_lines_functor3.
  rewrite (int_mul_id r1 r2) by lia.
  rewrite (int_mul_id (r1 * r2) 26) by lia.
  rewrite (int_mul_id r2 26) by lia.
  rewrite size_t_of_int_id by lia.
  fold x yzk. rewrite (int_wrap_id x), (int_wrap_id yzk) by lia.
  rewrite (Z.quot_div_nonneg yzk), (Z.rem_mod_nonneg yzk) by lia. fold y zk.
  rewrite (Z.quot_div_nonneg zk), (Z.rem_mod_nonneg zk) by lia. fold z k.
  destruct (at_index voxel_offset k (0, 0, 0)) as [[ox oy] oz]. simpl in Hsmall |- *.
  assert (Hxs : x < r0 /\ y < r1 /\ z < r2) by lia.
  rewrite !int_wrap_small by (unfold INT_MAX in *; lia).
  case_decide as Hg.
  - destruct Hg as (Hg0 & Hg1 & Hg2).
    replace (x + ox <? 0) with false by (symmetry; apply Z.ltb_ge; lia).
    replace (r0 <=? x + ox) with false by (symmetry; apply Z.leb_gt; lia).
    replace (y + oy <? 0) with false by (symmetry; apply Z.ltb_ge; lia).
    replace (r1 <=? y + oy) with false by (symmetry; apply Z.leb_gt; lia).
    replace (z + oz <? 0) with false by (symmetry; apply Z.ltb_ge; lia).
    replace (r2 <=? z + oz) with false by (symmetry; apply Z.leb_gt; lia).
    simpl orb. cbv iota.
    assert (Hn : forall a b c, 0 <= a < r0 -> 0 <= b < r1 -> 0 <= c < r2 ->
                 0 <= a * r1 /\ a * r1 <= INT_MAX /\
                 0 <= a * r1 * r2 /\ a * r1 * r2 <= INT_MAX /\
                 0 <= b * r2 /\ b * r2 <= INT_MAX /\
                 0 <= a * r1 * r2 + b * r2 /\
                 a * r1 * r2 + b * r2 <= INT_MAX /\
                 a * r1 * r2 + b * r2 + c <= INT_MAX).
    { intros a b c Ha Hb Hc.
      assert (a * r1 <= (r0 - 1) * r1) by nia.
      assert (a * r1 * r2 <= (r0 - 1) * r1 * r2) by nia.
      assert (b * r2 <= (r1 - 1) * r2) by nia.
      assert (r1 * r2 <= r0 * r1 * r2) by nia.
      repeat split; nia. }
    pose proof (Hn x y z ltac:(lia) ltac:(lia) ltac:(lia)) as Hs.
    pose proof (Hn (x + ox) (y + oy) (z + oz) ltac:(lia) ltac:(lia) ltac:(lia)) as Ht.
    unfold int_mul.
    rewrite !(int_wrap_id (x * r1)), !(int_wrap_id ((x + ox) * r1)) by lia.
    rewrite !(int_wrap_id (x * r1 * r2)), !(int_wrap_id ((x + ox) * r1 * r2)) by lia.
    rewrite !(int_wrap_id (y * r2)), !(int_wrap_id ((y + oy) * r2)) by lia.
    rewrite !(int_wrap_id (x * r1 * r2 + y * r2)),
            !(int_wrap_id ((x + ox) * r1 * r2 + (y + oy) * r2)) by lia.
    rewrite !int_wrap_id by lia. reflexivity.
  - assert (Hout : (x + ox <? 0) || (r0 <=? x + ox) || (y + oy <? 0) ||
                   (r1 <=? y + oy) || (z + oz <? 0) || (r2 <=? z + oz) = true).
    { unfold in_grid3 in Hg.
      rewrite !orb_true_iff, !Z.ltb_lt, !Z.leb_le. lia. }
    now rewrite Hout.
Qed.

(** The same in 2D. *)
Lemma lines_functor2_spec (r0 r1 idx : Z) :
  0 < r0 -> 0 < r1 -> r0 * r1 <= INT_MAX -> r1 * 8 <= INT_MAX ->
  0 <= idx < r0 * r1 * 8 ->
  exists x y o,
    in_grid2 (r0, r1) (x, y) /\ o ∈ voxel_offset_2d /\
    create_dense_grid_lines_functor2 (r0, r1) idx =
      if decide (in_grid2 (r0, r1) (x + o.1, y + o.2))
      then (node2 (r0, r1) (x, y), node2 (r0, r1) (x + o.1, y + o.2))
      else (-1, -1).
Proof.
  intros Hr0 Hr1 Hmax Hb1 Hidx.
  assert (Hr : r0 <= INT_MAX /\ r1 <= INT_MAX) by nia.
  destruct (digits idx r0 (r1 * 8)) as (Hx & Hyk & _); [lia..|].
  set (x := idx `div` (r1 * 8)) in *.
  set (yk := idx `mod` (r1 * 8)) in *.
  destruct (digits yk r1 8) as (Hy & Hk & _); [lia..|].
  set (y := yk `div` 8) in *.
  set (k := yk `mod` 8) in *.
  pose proof (at_index_In voxel_offset_2d k (0, 0) ltac:(simpl; lia)) as Hin.
  pose proof offsets_2d_small as Hsmall. rewrite Forall_forall in Hsmall.
  specialize (Hsmall _ Hin).
  exists x, y, (at_index voxel_offset_2d k (0, 0)).
  split; [unfold in_grid2; simpl; lia|]. split; [exact Hin|].
  unfold create_dense_grid_lines_functor2.
  rewrite (int_mul_id r1 8) by lia.
  rewrite size_t_of_int_id by lia.
  fold x yk. rewrite (int_wrap_id x), (int_wrap_id yk) by lia.
  rewrite (Z.quot_div_nonneg yk), (Z.rem_mod_nonneg yk) by lia. fold y k.
  destruct (at_index voxel_offset_2d k (0, 0)) as [ox oy]. simpl in Hsmall |- *.
  rewrite !(int_wrap_small (x + ox)), !(int_wrap_small (y + oy))
    by (unfold INT_MAX in *; lia).
  unfold in_grid2, node2. simpl.
  case_decide as Hg.
  - destruct Hg as (Hg0 & Hg1).
    replace (x + ox <? 0) with false by (symmetry; apply Z.ltb_ge; lia).
    replace (r0 <=? x + ox) with false by (symmetry; apply Z.leb_gt; lia).
    replace (y + oy <? 0) with false by (symmetry; apply Z.ltb_ge; lia).
    replace (r1 <=? y + oy) with false by (symmetry; apply Z.leb_gt; lia).
    simpl orb. cbv iota.
    assert (Hn : forall a b, 0 <= a < r0 -> 0 <= b < r1 ->
                 0 <= a * r1 /\ a * r1 <= INT_MAX /\ a * r1 + b <= INT_MAX).
    { intros a b Ha Hb. assert (a * r1 <= (r0 - 1) * r1) by nia.
      repeat split; nia. }
    pose proof (Hn x y ltac:(lia) ltac:(lia)) as Hs.
    pose proof (Hn (x + ox) (y + oy) ltac:(lia) ltac:(lia)) as Ht.
    unfold int_mul.
    rewrite !(int_wrap_id (x * r1)), !(int_wrap_id ((x + ox) * r1)) by lia.
    rewrite !int_wrap_id by lia. reflexivity.
  - assert (Hout : (x + ox <? 0) || (r0 <=? x + ox) || (y + oy <? 0) ||
                   (r1 <=? y + oy) = true).
    { rewrite !orb_true_iff, !Z.ltb_lt, !Z.leb_le. lia. }
    now rewrite Hout.
Qed.

Lemma points_functor3_spec (r0 r1 r2 : Z) (min_bound steps : Vector3f F)
    (x y z : Z) :
  0 < r0 -> 0 < r1 -> 0 < r2 -> r0 * r1 * r2 <= INT_MAX ->
  in_grid3 (r0, r1, r2) (x, y, z) ->
  create_dense_grid_points_functor3 (r0, r1, r2) min_bound steps
    (node3 (r0, r1, r2) (x, y, z)) =
  vadd min_bound (vcwise_mul (cast_float3 (x, y, z)) steps).
Proof.
  intros Hr0 Hr1 Hr2 Hmax (Hx & Hy & Hz).
  assert (H12 : 0 < r1 * r2) by lia.
  assert (Hb : r1 * r2 <= INT_MAX /\ r2 <= INT_MAX /\ r0 <= INT_MAX)
    by (repeat split; nia).
  unfold create_dense_grid_points_functor3, node3.
  rewrite (int_mul_id r1 r2), size_t_of_int_id by lia.
  assert (Hlo : 0 <= y * r2 + z < r1 * r2) by nia.
  assert (Hdiv : (x * r1 * r2 + y * r2 + z) `div` (r1 * r2) = x).
  { symmetry. apply Z.div_unique with (r := y * r2 + z); lia. }
  assert (Hmod : (x * r1 * r2 + y * r2 + z) `mod` (r1 * r2) = y * r2 + z).
  { symmetry. apply Z.mod_unique with (q := x); lia. }
  rewrite Hdiv, Hmod.
  rewrite (int_wrap_id x), (int_wrap_id (y * r2 + z)) by lia.
  rewrite Z.quot_div_nonneg, Z.rem_mod_nonneg by lia.
  replace ((y * r2 + z) `div` r2) with y
    by (apply Z.div_unique with (r := z); lia).
  replace ((y * r2 + z) `mod` r2) with z
    by (apply Z.mod_unique with (q := y); lia).
  reflexivity.
Qed.

Lemma points_functor2_spec (r0 r1 : Z) (min_bound steps : Vector2f F)
    (x y : Z) :
  0 < r0 -> 0 < r1 -> r0 * r1 <= INT_MAX ->
  in_grid2 (r0, r1) (x, y) ->
  create_dense_grid_points_functor2 (r0, r1) min_bound steps
    (node2 (r0, r1) (x, y)) =
  vadd2 min_bound (vcwise_mul2 (cast_float2 (x, y)) steps).
Proof.
  intros Hr0 Hr1 Hmax (Hx & Hy). simpl in Hx, Hy.
  assert (Hb : r1 <= INT_MAX /\ r0 <= INT_MAX) by (split; nia).
  unfold create_dense_grid_points_functor2, node2. simpl.
  rewrite size_t_of_int_id by lia.
  replace ((x * r1 + y) `div` r1) with x
    by (apply Z.div_unique with (r := y); lia).
  replace ((x * r1 + y) `mod` r1) with y
    by (apply Z.mod_unique with (q := x); lia).
  rewrite (int_wrap_id x), (int_wrap_id y) by lia.
  reflexivity.
Qed.

(** The body of the factory, when the sizes fit. *)
Lemma create_dense_grid_spec {P : Type} (zero : P) (prod : Z)
    (pfunc : Z -> P) (lfunc : Z -> Vector2i) (num_offset : Z) :
  0 <= prod -> 0 <= num_offset -> prod * num_offset < 2 ^ 64 ->
  prod <= INT_MAX ->
  create_dense_grid zero prod pfunc lfunc num_offset =
    Some (ConstructGraph P
            (mkGraph (pfunc <$> seqZ 0 prod)
               (List.filter (fun l : Vector2i => negb (l.1 <? 0))
                  (lfunc <$> seqZ 0 (prod * num_offset))))).
Proof.
  intros Hprod Hnum Hfit Hfit'. unfold create_dense_grid.
  rewrite (size_t_of_int_id prod) by lia.
  unfold thrust.counting, thrust.transform. rewrite !Z.sub_0_r.
  rewrite thrust_facts.write_at_begin_exact
    by (unfold device_vector;
        rewrite length_fmap, length_seqZ, length_replicate; lia).
  cbn [mbind option_bind].
  rewrite size_t_wrap_small by nia.
  rewrite thrust_facts.write_at_begin_exact
    by (unfold device_vector;
        rewrite length_fmap, length_seqZ, length_replicate; lia).
  reflexivity.
Qed.

Lemma offsets_symmetric :
  Forall (fun o : Vector3i => (- o.1.1, - o.1.2, - o.2) ∈ voxel_offset)
    voxel_offset.
Proof. apply (bool_decide_unpack _). vm_compute. exact I. Qed.

Lemma offsets_2d_symmetric :
  Forall (fun o : Vector2i => (- o.1, - o.2) ∈ voxel_offset_2d) voxel_offset_2d.
Proof. apply (bool_decide_unpack _). vm_compute. exact I. Qed.

Lemma elem_of_kept_lines (lfunc : Z -> Vector2i) (n : Z) (l : Vector2i) :
  l ∈ List.filter (fun l : Vector2i => negb (l.1 <? 0)) (lfunc <$> seqZ 0 n) ->
  0 <= l.1 /\ exists idx, 0 <= idx < n /\ l = lfunc idx.
Proof.
  intros Hl. apply list_elem_of_In, filter_In in Hl as [Hl Hpos].
  apply list_elem_of_In, list_elem_of_fmap in Hl as (idx & -> & Hidx).
  apply elem_of_seqZ in Hidx. apply negb_true_iff, Z.ltb_ge in Hpos.
  split; [done|]. exists idx. split; [lia|done].
Qed.

(** Where the divisor of the line functor leaves [int]: with resolutions
    [(1, 1, 165191050)] the product [1 * 165191050 * 26] wraps to [4], the
    functor reads the flat index [5] as [x = 1] with the offset
    [(-1, 0, 0)], and the line it returns starts at node [165191050],
    which the grid does not have. *)
Lemma dense_grid_wraps (min_bound max_bound : Vector3f F) :
  (forall P (g : Graph P), points_ (ConstructGraph P g) = points_ g) ->
  (forall P (g : Graph P) l,
     l ∈ lines_ g -> l ∈ lines_ (ConstructGraph P g)) ->
  exists g,
    CreateFromAxisAlignedBoundingBox3 min_bound max_bound
      (1, 1, 165191050) = Some g /\
    Z.of_nat (length (points_ g)) = 165191050 /\
    (165191050, 0) ∈ lines_ g.
Proof.
  intros Hpts Hkeep. unfold CreateFromAxisAlignedBoundingBox3.
  rewrite (int_mul_id 1 1) by (unfold INT_MAX; lia).
  change (1 * 1) with 1.
  rewrite (int_mul_id 1 165191050) by (unfold INT_MAX; lia).
  change (1 * 165191050) with 165191050.
  change (at_index NUM_OFFSET (3 - 2) 0) with 26.
  rewrite create_dense_grid_spec by (unfold INT_MAX; lia).
  eexists. split; [reflexivity|]. rewrite Hpts. cbn [points_].
  split; [rewrite length_fmap, length_seqZ; lia|].
  apply Hkeep. cbn [lines_].
  apply list_elem_of_In, filter_In. split.
  - apply list_elem_of_In, list_elem_of_fmap. exists 5. split.
    + vm_compute. reflexivity.
    + apply elem_of_seqZ. lia.
  - reflexivity.
Qed.

(** C10.  For positive resolutions whose product fits an [int], as does
    the divisor [resolutions[1] * resolutions[2] * 26] (in 2D:
    [resolutions[1] * 8]) of the line functor, and a [ConstructGraph]
    that keeps the nodes and connects only what the lines it is given
    connect, the factory returns a graph with
    [resolutions.prod()] nodes, the node of grid coordinate [c] placed at
    [min_bound + c * steps] axis by axis, in which every line joins two
    in-range grid nodes whose coordinates differ by one of the 26 (in 2D: 8)
    neighbour offsets; no line leads outside the grid. *)
Theorem dense_grid_graph :
  (forall P (g : Graph P), points_ (ConstructGraph P g) = points_ g) ->
  (forall P (g : Graph P) i j,
     (i, j) ∈ lines_ (ConstructGraph P g) ->
     (i, j) ∈ lines_ g \/ (j, i) ∈ lines_ g) ->
  (forall (min_bound max_bound : Vector3f F) (r0 r1 r2 : Z),
     0 < r0 -> 0 < r1 -> 0 < r2 ->
     r0 * r1 * r2 <= INT_MAX -> r1 * r2 * 26 <= INT_MAX ->
     let resolutions : Vector3i := (r0, r1, r2) in
     let steps :=
       vcwise_div (vsub max_bound min_bound) (cast_float3 resolutions) in
     exists g,
       CreateFromAxisAlignedBoundingBox3 min_bound max_bound resolutions =
         Some g /\
       Z.of_nat (length (points_ g)) = r0 * r1 * r2 /\
       (forall c, in_grid3 resolutions c ->
          points_ g !! Z.to_nat (node3 resolutions c) =
            Some (vadd min_bound (vcwise_mul (cast_float3 c) steps))) /\
       (forall i j, (i, j) ∈ lines_ g ->
          exists c o,
            in_grid3 resolutions c /\ o ∈ voxel_offset /\
            in_grid3 resolutions (shift3 c o) /\
            i = node3 resolutions c /\
            j = node3 resolutions (shift3 c o))) /\
  (forall (min_bound max_bound : Vector2f F) (r0 r1 : Z),
     0 < r0 -> 0 < r1 -> r0 * r1 <= INT_MAX -> r1 * 8 <= INT_MAX ->
     let resolutions : Vector2i := (r0, r1) in
     let steps :=
       vcwise_div2 (vsub2 max_bound min_bound) (cast_float2 resolutions) in
     exists g,
       CreateFromAxisAlignedBoundingBox2 min_bound max_bound resolutions =
         Some g /\
       Z.of_nat (length (points_ g)) = r0 * r1 /\
       (forall c, in_grid2 resolutions c ->
          points_ g !! Z.to_nat (node2 resolutions c) =
            Some (vadd2 min_bound (vcwise_mul2 (cast_float2 c) steps))) /\
       (forall i j, (i, j) ∈ lines_ g ->
          exists c o,
            in_grid2 resolutions c /\ o ∈ voxel_offset_2d /\
            in_grid2 resolutions (shift2 c o) /\
            i = node2 resolutions c /\
            j = node2 resolutions (shift2 c o))).
Proof.
  intros Hpts Hlns. split.
  - intros min_bound max_bound r0 r1 r2 Hr0 Hr1 Hr2 Hmax Hdiv resolutions steps.
    assert (H01 : 0 < r0 * r1) by lia.
    assert (Hn : 0 < r0 * r1 * r2) by lia.
    assert (Hb : r0 * r1 <= INT_MAX /\ r0 * r1 * r2 <= INT_MAX)
      by (split; nia).
    assert (H64 : r0 * r1 * r2 * 26 < 2 ^ 64)
      by (unfold INT_MAX in *; lia).
    unfold CreateFromAxisAlignedBoundingBox3, resolutions.
    rewrite (int_mul_id r0 r1), (int_mul_id (r0 * r1) r2) by lia.
    change (at_index NUM_OFFSET (3 - 2) 0) with 26.
    rewrite create_dense_grid_spec by lia.
    eexists. split; [reflexivity|]. rewrite Hpts. cbn [points_].
    split; [rewrite length_fmap, length_seqZ; lia|]. split.
    + intros [[x y] z] Hc. pose proof Hc as (Hx & Hy & Hz).
      assert (Hnode : 0 <= node3 (r0, r1, r2) (x, y, z) < r0 * r1 * r2).
      { unfold node3. assert (x * r1 * r2 <= (r0 - 1) * r1 * r2) by nia.
        assert (y * r2 <= (r1 - 1) * r2) by nia. nia. }
      rewrite list_lookup_fmap, lookup_seqZ_lt by lia.
      rewrite Z2Nat.id, Z.add_0_l by lia. cbn [fmap option_fmap option_map].
      f_equal. now apply points_functor3_spec.
    + intros i j Hij.
      assert (Hcase : forall a b,
        (a, b) ∈ List.filter (fun l : Vector2i => negb (l.1 <? 0))
                   (create_dense_grid_lines_functor3 (r0, r1, r2)
                      <$> seqZ 0 (r0 * r1 * r2 * 26)) ->
        exists c o, in_grid3 (r0, r1, r2) c /\ o ∈ voxel_offset /\
                    in_grid3 (r0, r1, r2) (shift3 c o) /\
                    a = node3 (r0, r1, r2) c /\
                    b = node3 (r0, r1, r2) (shift3 c o)).
      { intros a b Hab.
        apply elem_of_kept_lines in Hab as (Hpos & idx & Hidx & Heq).
        destruct (lines_functor3_spec r0 r1 r2 idx)
          as (x & y & z & o & Hc & Ho & Hl); [lia..|].
        rewrite Hl in Heq. case_decide as Hg; [|simplify_eq; simpl in *; lia].
        exists (x, y, z), o. unfold shift3. simpl. simplify_eq. done. }
      apply Hlns in Hij. cbn [lines_] in Hij.
      destruct Hij as [Hij|Hji]; [now apply Hcase|].
      destruct (Hcase _ _ Hji) as (c & o & Hc & Ho & Hco & -> & ->).
      pose proof offsets_symmetric as Hsym. rewrite Forall_forall in Hsym.
      exists (shift3 c o), (- o.1.1, - o.1.2, - o.2).
      assert (Hback : shift3 (shift3 c o) (- o.1.1, - o.1.2, - o.2) = c).
      { destruct c as [[? ?] ?], o as [[? ?] ?]. unfold shift3. simpl.
        f_equal; [f_equal|]; lia. }
      rewrite Hback. auto.
  - intros min_bound max_bound r0 r1 Hr0 Hr1 Hmax Hdiv resolutions steps.
    assert (Hn : 0 < r0 * r1) by lia.
    assert (Hb : r0 * r1 <= INT_MAX) by nia.
    assert (H64 : r0 * r1 * 8 < 2 ^ 64) by (unfold INT_MAX in *; lia).
    unfold CreateFromAxisAlignedBoundingBox2, resolutions.
    rewrite (int_mul_id r0 r1) by lia.
    change (at_index NUM_OFFSET (2 - 2) 0) with 8.
    rewrite create_dense_grid_spec by lia.
    eexists. split; [reflexivity|]. rewrite Hpts. cbn [points_].
    split; [rewrite length_fmap, length_seqZ; lia|]. split.
    + intros [x y] Hc. pose proof Hc as (Hx & Hy). simpl in Hx, Hy.
      assert (Hnode : 0 <= node2 (r0, r1) (x, y) < r0 * r1).
      { unfold node2. simpl. assert (x * r1 <= (r0 - 1) * r1) by nia. nia. }
      rewrite list_lookup_fmap, lookup_seqZ_lt by lia.
      rewrite Z2Nat.id, Z.add_0_l by lia. cbn [fmap option_fmap option_map].
      f_equal. now apply points_functor2_spec.
    + intros i j Hij.
      assert (Hcase : forall a b,
        (a, b) ∈ List.filter (fun l : Vector2i => negb (l.1 <? 0))
                   (create_dense_grid_lines_functor2 (r0, r1)
                      <$> seqZ 0 (r0 * r1 * 8)) ->
        exists c o, in_grid2 (r0, r1) c /\ o ∈ voxel_offset_2d /\
                    in_grid2 (r0, r1) (shift2 c o) /\
                    a = node2 (r0, r1) c /\
                    b = node2 (r0, r1) (shift2 c o)).
      { intros a b Hab.
        apply elem_of_kept_lines in Hab as (Hpos & idx & Hidx & Heq).
        destruct (lines_functor2_spec r0 r1 idx)
          as (x & y & o & Hc & Ho & Hl); [lia..|].
        rewrite Hl in Heq. case_decide as Hg; [|simplify_eq; simpl in *; lia].
        exists (x, y), o. unfold shift2. simpl. simplify_eq. done. }
      apply Hlns in Hij. cbn [lines_] in Hij.
      destruct Hij as [Hij|Hji]; [now apply Hcase|].
      destruct (Hcase _ _ Hji) as (c & o & Hc & Ho & Hco & -> & ->).
      pose proof offsets_2d_symmetric as Hsym. rewrite Forall_forall in Hsym.
      exists (shift2 c o), (- o.1, - o.2).
      assert (Hback : shift2 (shift2 c o) (- o.1, - o.2) = c).
      { destruct c as [? ?], o as [? ?]. unfold shift2. simpl.
        f_equal; lia. }
      rewrite Hback. auto.
Qed.
End Grid.
End GraphFacts.

(** ** C1: [VoxelDownSample] *)

Section C1.
Context {F : Type} `{Float32 F} `{!Platform F}.
Import thrust thrust_facts.

Lemma cell_mean_projection {T} (proj : T -> Vector3f F) (add : T -> T -> T)
    (d : T) (key : Vector3f F -> Vector3i) c pts (vals : list T) :
  (forall a b, proj (add a b) = vadd (proj a) (proj b)) ->
  proj d = Zero3 ->
  devide (proj (reduce1 add d (in_cell key c pts vals)))
         (Z.of_nat (length (in_cell key c pts vals))) =
    mean (in_cell key c pts (proj <$> vals)).
Proof.
  intros Hhom Hd. unfold mean.
  rewrite <- (in_cell_projection proj), length_fmap.
  now rewrite (reduce1_projection proj add vadd) , Hd by done.
Qed.

Lemma occupied_cells (key : Vector3f F -> Vector3i) {T}
    (pts : list (Vector3f F)) (vals : list T) c :
  length pts <= length vals ->
  c ∈ (zip (key <$> pts) vals).*1 <-> exists p, p ∈ pts /\ key p = c.
Proof.
  intros Hlen. rewrite fst_zip by now rewrite length_fmap.
  rewrite list_elem_of_fmap. split; intros (p & Hp & Hin); eauto.
Qed.

Lemma fmap_fst_fst_zip {A B C} (xs : list A) (ys : list B) (zs : list C) :
  length ys = length xs -> length zs = length xs ->
  (fun x : A * B * C => x.1.1) <$> zip (zip xs ys) zs = xs.
Proof.
  intros Hy Hz. transitivity (fst <$> (fst <$> zip (zip xs ys) zs)).
  - now rewrite <- list_fmap_compose.
  - rewrite !fst_zip; rewrite ?length_zip; (done || lia).
Qed.

Lemma fmap_fst_snd_zip {A B C} (xs : list A) (ys : list B) (zs : list C) :
  length ys = length xs -> length zs = length xs ->
  (fun x : A * B * C => x.1.2) <$> zip (zip xs ys) zs = ys.
Proof.
  intros Hy Hz. transitivity (snd <$> (fst <$> zip (zip xs ys) zs)).
  - now rewrite <- list_fmap_compose.
  - rewrite fst_zip, snd_zip; rewrite ?length_zip; (done || lia).
Qed.

Ltac fold_cells key :=
  repeat match goal with
  | |- context [filed_under ?c (zip (key <$> ?p) ?v)] =>
      change (filed_under c (zip (key <$> p) v)) with (in_cell key c p v)
  end.

End C1.

(** ** C9: [UniformDownSample] *)

Section C9.
Context {F : Type} `{Float32 F} `{!Platform F}.
Implicit Types (w : world F) (pc : PointCloud F) (p : loc) (b : buffer).
Import thrust thrust_facts.
Local Open Scope Z_scope.

(** The strided range has [ceil(n / k)] positions. *)
Lemma strided_count (n k : Z) :
  0 <= n -> 0 < k ->
  (n + (k - 1)) `quot` k = if decide (n `mod` k = 0) then n `div` k else n `div` k + 1.
Proof.
  intros Hn Hk. rewrite Z.quot_div_nonneg by lia.
  pose proof (Z.div_mod n k ltac:(lia)) as Hdm.
  pose proof (Z.mod_pos_bound n k Hk) as Hm.
  case_decide as Hz.
  - symmetry. apply (Z.div_unique _ _ _ (k - 1)); lia.
  - symmetry. apply (Z.div_unique _ _ _ (n `mod` k - 1)); lia.
Qed.

(** Within the difference type the positions are [0, k, 2k, ...]. *)
Lemma strided_positions_small (n k : Z) :
  0 <= n -> 0 < k -> n + k < 2 ^ 63 ->
  strided_positions n k =
    (fun i => k * i) <$> counting 0 ((n + (k - 1)) `quot` k).
Proof.
  intros Hn Hk Hfit. unfold strided_positions.
  assert (Hq : 0 <= (n + (k - 1)) `quot` k <= n + (k - 1)).
  { rewrite Z.quot_div_nonneg by lia. split; [apply Z.div_pos; lia|].
    apply Z.div_le_upper_bound; nia. }
  assert (Hle : k * ((n + (k - 1)) `quot` k) <= n + (k - 1)).
  { rewrite Z.quot_div_nonneg by lia. apply Z.mul_div_le. lia. }
  rewrite (difference_wrap_small (k - 1)) by lia.
  rewrite (difference_wrap_small (n + (k - 1))) by lia.
  rewrite difference_wrap_small by lia.
  apply list_fmap_ext. intros i j Hj. unfold counting in Hj.
  apply lookup_seqZ in Hj as [-> Hi].
  apply difference_wrap_small. nia.
Qed.

Lemma strided_positions_in_range (n k : Z) :
  0 <= n -> 0 < k -> n + k < 2 ^ 63 ->
  Forall (in_range n) (strided_positions n k).
Proof.
  intros Hn Hk Hfit. rewrite strided_positions_small by done.
  unfold counting.
  apply list.Forall_forall. intros j Hj.
  apply list_elem_of_fmap in Hj as (i & -> & Hi). apply elem_of_seqZ in Hi.
  assert (k * ((n + (k - 1)) `quot` k) <= n + (k - 1)) as Hle.
  { rewrite Z.quot_div_nonneg by lia. apply Z.mul_div_le. lia. }
  unfold in_range. nia.
Qed.

Lemma length_strided_positions (n k : Z) :
  0 <= n -> 0 < k -> n + k < 2 ^ 63 ->
  length (strided_positions n k) = Z.to_nat ((n + (k - 1)) `quot` k).
Proof.
  intros Hn Hk Hfit. rewrite strided_positions_small by done.
  unfold counting. rewrite length_fmap, length_seqZ.
  f_equal. lia.
Qed.

Lemma strided_positions_exact (n k : Z) :
  0 <= n -> 0 < k -> n + k < 2 ^ 63 -> n `mod` k = 0 ->
  strided_positions n k = (fun i => k * i) <$> seqZ 0 (n `div` k).
Proof.
  intros Hn Hk Hfit Hz. rewrite strided_positions_small by done.
  unfold counting.
  rewrite strided_count, decide_True by done. now rewrite Z.sub_0_r.
Qed.

Lemma strided_range_Some {A} (v : list A) (k : Z) :
  0 < k -> vsize v + k < 2 ^ 63 ->
  exists vals, strided_range v k = Some vals /\
               length vals = Z.to_nat ((vsize v + (k - 1)) `quot` k).
Proof.
  intros Hk Hfit. unfold strided_range.
  destruct (gather_in_range (strided_positions (vsize v) k) v) as [vals Hg].
  { apply strided_positions_in_range; [apply vsize_nonneg|done..]. }
  exists vals. split; [done|].
  rewrite (gather_length _ _ _ Hg).
  apply length_strided_positions; [apply vsize_nonneg|done..].
Qed.

(** The normals and colors of a cloud that has them are as many as its
    points. *)
Lemma attribute_range_Some (has : bool) (a : list (Vector3f F)) pc (k : Z) :
  0 < k -> vsize (points_ pc) + k < 2 ^ 63 ->
  (has = true -> length a = length (points_ pc)) ->
  exists vals,
    has = true ->
    strided_range a k = Some vals /\
    length vals = Z.to_nat ((vsize (points_ pc) + (k - 1)) `quot` k).
Proof.
  intros Hk Hfit Hlen. destruct has; [|exists []; discriminate].
  specialize (Hlen eq_refl).
  destruct (strided_range_Some a k Hk) as (vals & Hv & Hl).
  { unfold vsize in *. rewrite Hlen. exact Hfit. }
  exists vals. intros _. split; [exact Hv|].
  rewrite Hl. unfold vsize. now rewrite Hlen.
Qed.

Lemma strided_copy_run src dst b k s d vals w :
  src <> dst -> heap w !! src = Some s ->
  strided_range (get_buffer b s) k = Some vals ->
  length vals = length (get_buffer b d) ->
  strided_copy src dst b k (set_cloud dst d w) =
    Ok tt (set_cloud dst (set_buffer b vals d) w).
Proof.
  intros Hne Hs Hv Hlen. unfold strided_copy.
  erewrite bind_Ok
    by (apply read_run; rewrite heap_set_cloud_ne by done; exact Hs).
  rewrite Hv. simpl. unfold bind at 1, ret at 1.
  erewrite store_at_begin_run;
    [|apply heap_set_cloud_eq|now apply write_at_begin_exact].
  now rewrite set_cloud_twice.
Qed.

Lemma strided_copy_Fault src dst b k s d vals w :
  src <> dst -> heap w !! src = Some s ->
  strided_range (get_buffer b s) k = Some vals ->
  (length (get_buffer b d) < length vals)%nat ->
  strided_copy src dst b k (set_cloud dst d w) = Fault.
Proof.
  intros Hne Hs Hv Hlen. unfold strided_copy.
  erewrite bind_Ok
    by (apply read_run; rewrite heap_set_cloud_ne by done; exact Hs).
  rewrite Hv. simpl. unfold bind at 1, ret at 1.
  eapply store_at_begin_Fault;
    [apply heap_set_cloud_eq|now apply write_at_begin_None].
Qed.

Lemma when_resize_run (c : bool) p b n d w :
  when c (resize p b n) (set_cloud p d w) =
    Ok tt (set_cloud p
             (if c then set_buffer b (resized n Zero3 (get_buffer b d)) d
              else d) w).
Proof.
  destruct c; [|done]. rewrite when_true.
  erewrite resize_run by apply heap_set_cloud_eq.
  now rewrite set_cloud_twice.
Qed.

Lemma when_strided_copy_run (c : bool) src dst b k s d vals w :
  src <> dst -> heap w !! src = Some s ->
  (c = true -> strided_range (get_buffer b s) k = Some vals /\
               length vals = length (get_buffer b d)) ->
  when c (strided_copy src dst b k) (set_cloud dst d w) =
    Ok tt (set_cloud dst (if c then set_buffer b vals d else d) w).
Proof.
  intros Hne Hs Hc. destruct c; [|done].
  destruct (Hc eq_refl) as [Hv Hlen]. rewrite when_true.
  now apply strided_copy_run with (s := s).
Qed.

(** C9, in general.  For a stride [k >= 1] and a cloud of [n] points
    ([n / k] within [int], [n + k] within the iterator difference type):
    when [k] does not divide [n], the strided range has one position more
    than the [n / k] slots the output was resized to and the copy of the
    points leaves the output buffer; when [k] divides [n], the call
    returns a new cloud of [n / k] points, the input elements at
    [0, k, 2k, ...], with normals and colors when the input has them.
    For [k = 0] the error is reported through [LogError]; if that
    returns, the result is a new, empty cloud. *)
Theorem UniformDownSample_strides (this : loc) (k : Z) (pc : PointCloud F)
    (w : world F) :
  heap w !! this = Some pc ->
  0 <= k ->
  vsize (points_ pc) `div` k <= INT_MAX ->
  vsize (points_ pc) + k < 2 ^ 63 ->
  let n := vsize (points_ pc) in
  let output := fresh (dom (heap w)) in
  (0 < k -> n `mod` k <> 0 -> UniformDownSample this k w = Fault) /\
  (0 < k -> n `mod` k = 0 ->
   exists sel,
     UniformDownSample this k w = Ok output (set_cloud output sel w) /\
     selects ((fun i => k * i) <$> seqZ 0 (n `div` k)) pc sel /\
     vsize (points_ sel) = n `div` k) /\
  (k = 0 ->
   let text := "[UniformDownSample] Illegal sample rate."%string in
   let w' := logged (Msg Error text) (set_cloud output empty_cloud w) in
   UniformDownSample this k w =
     if LogError_throws then Throw text w' else Ok output w').
Proof.
  intros Hthis Hk0 Hint Hdiff n output.
  change (n `div` k <= INT_MAX) in Hint. change (n + k < 2 ^ 63) in Hdiff.
  assert (Hn : 0 <= n) by apply vsize_nonneg.
  assert (Hne : this <> output) by (eapply fresh_ne; eauto).
  assert (Hstart : forall (rest : PointCloud F -> loc -> M F loc),
             (self <- load this ;; out <- make_shared ;; rest self out) w =
             rest pc output (set_cloud output empty_cloud w)).
  { intros rest. rewrite (bind_Ok _ _ _ _ _ (load_run _ _ _ Hthis)).
    now rewrite (bind_Ok _ _ _ _ _ (make_shared_run w)). }
  assert (Hwrap : 0 < k ->
            size_t_wrap (int_wrap (n `div` k)) = n `div` k /\
            difference_wrap k = k).
  { intros Hk. assert (0 <= n `div` k) by (apply Z.div_pos; lia).
    rewrite int_wrap_small by (unfold INT_MAX in *; lia).
    rewrite size_t_wrap_small by (unfold INT_MAX in *; lia).
    rewrite difference_wrap_small by lia. done. }
  destruct (HasNormals pc) eqn:En, (HasColors pc) eqn:Ec.
  all: repeat split.
  all: try (intros Hk Hmod; destruct (Hwrap Hk) as [Hw1 Hw2]).
  all: try (intros ->; unfold UniformDownSample; rewrite Hstart; simpl;
            unfold LogError, bind, log, throw, ret; simpl;
            destruct LogError_throws; reflexivity).
  all: unfold UniformDownSample; rewrite Hstart;
    rewrite ?En, ?Ec; fold n;
    replace (k =? 0) with false by (symmetry; apply Z.eqb_neq; lia);
    rewrite Hw1, Hw2.
  all: destruct (strided_range_Some (points_ pc) k Hk Hdiff)
         as (ps & Hps & Hlps);
    fold n in Hlps; rewrite strided_count in Hlps by done.
  all: try rewrite decide_False in Hlps by done.
  all: try rewrite decide_True in Hlps by done.
  all: repeat (erewrite bind_Ok;
               [|first [apply (when_resize_run true) | apply (when_resize_run false)
                       | erewrite resize_run by apply heap_set_cloud_eq;
                         rewrite set_cloud_twice; reflexivity]]).
  all: try (apply bind_Fault;
            eapply strided_copy_Fault; [done|exact Hthis|exact Hps|];
            cbn [get_buffer set_buffer points_ normals_ colors_];
            rewrite length_resized; assert (0 <= n `div` k) by (apply Z.div_pos; lia);
            lia).
  all: destruct (attribute_range_Some (HasNormals pc) (normals_ pc) pc k Hk Hdiff
                   (HasNormals_length pc)) as (ns & Hns);
    destruct (attribute_range_Some (HasColors pc) (colors_ pc) pc k Hk Hdiff
                (HasColors_length pc)) as (cs & Hcs).
  all: assert (HasNormals pc = true ->
               strided_range (get_buffer normals pc) k = Some ns /\
               length ns = Z.to_nat (n `div` k)) as Hns'
    by (intros Hn'; destruct (Hns Hn') as [Hg Hl]; split; [exact Hg|];
        rewrite Hl; fold n; rewrite strided_count, decide_True by done; done).
  all: assert (HasColors pc = true ->
               strided_range (get_buffer colors pc) k = Some cs /\
               length cs = Z.to_nat (n `div` k)) as Hcs'
    by (intros Hc'; destruct (Hcs Hc') as [Hg Hl]; split; [exact Hg|];
        rewrite Hl; fold n; rewrite strided_count, decide_True by done; done).
  all: exists (selection pc empty_cloud ps ns cs); split; [|split].
  all: try (cbn [selection points_]; unfold vsize; rewrite Hlps;
            apply Z2Nat.id, Z.div_pos; lia).
  all: try (apply selection_selects;
            [|intros Hn'; destruct (Hns' Hn') as [Hg _]
             |intros Hc'; destruct (Hcs' Hc') as [Hg _]];
            rewrite <- (strided_positions_exact n k) by done;
            [exact Hps| |];
            unfold strided_range in Hg; cbn [get_buffer] in Hg;
            [apply HasNormals_length in Hn'|apply HasColors_length in Hc'];
            unfold vsize in Hg; rewrite ?Hn', ?Hc' in Hg; exact Hg).
  all: erewrite bind_Ok
    by (eapply strided_copy_run; [done|exact Hthis|exact Hps|];
        cbn [get_buffer set_buffer points_ normals_ colors_];
        rewrite length_resized; lia).
  all: erewrite bind_Ok
    by (eapply (when_strided_copy_run _ _ _ _ _ _ _ ns); [done|exact Hthis|];
        intros Hn';
        first [discriminate
              |destruct (Hns' En); split; [done|];
               cbn [get_buffer set_buffer points_ normals_ colors_];
               rewrite length_resized; lia]).
  all: erewrite bind_Ok
    by (eapply (when_strided_copy_run _ _ _ _ _ _ _ cs); [done|exact Hthis|];
        intros Hc';
        first [discriminate
              |destruct (Hcs' Ec); split; [done|];
               cbn [get_buffer set_buffer points_ normals_ colors_];
               rewrite length_resized; lia]).
  all: unfold selection; rewrite En, Ec; reflexivity.
Qed.
End C9.

(** ** Concrete runs: C1, C3, C9, C10 *)

Section Runs.
Import Exact.
#[local] Existing Instance Q_Float32.
#[local] Existing Instance raising.
#[local] Existing Instance plain_construct.

Lemma lexicographic_order : strict_total_order lexicographic.
Proof.
  unfold strict_total_order, lexicographic. repeat split.
  - intros [[x0 x1] x2]. rewrite !Z.ltb_irrefl. reflexivity.
  - intros [[x0 x1] x2] [[y0 y1] y2] [[z0 z1] z2] Hxy Hyz.
    repeat match goal with
           | H : context [Z.ltb ?a ?b] |- _ => destruct (Z.ltb_spec a b)
           | |- context [Z.ltb ?a ?b] => destruct (Z.ltb_spec a b)
           end; first [reflexivity | discriminate | lia].
  - intros [[x0 x1] x2] [[y0 y1] y2] Hne.
    assert (x0 <> y0 \/ x1 <> y1 \/ x2 <> y2)%Z as Hd.
    { destruct (decide (x0 = y0)), (decide (x1 = y1)), (decide (x2 = y2));
        subst; tauto. }
    repeat match goal with
           | |- context [Z.ltb ?a ?b] => destruct (Z.ltb_spec a b)
           end; first [by left | by right | lia].
Qed.


(** The run behind the witness: two occupied cells, the second with the
    mean of two points and the normalized mean of their normals. *)
Example VoxelDownSample_three_points :
  exists w',
    VoxelDownSample 0 (3 # 2)%Q (world_with three_with_normals) = Ok 1 w' /\
    heap w' !! 1 =
      Some (mkPointCloud
              [pt 0 0 0; ((3 # 2)%Q, 0%Q, 0%Q)]
              [pt 0 0 1; ((65536 # 92681)%Q, (65536 # 92681)%Q, 0%Q)]
              []).
Proof. eexists. split; vm_compute; reflexivity. Qed.

(** C3, the failing input.  Two coincident points and two more, two
    neighbours per point, [std_ratio = 1]: the per-point average distances
    are 0, 0, 18, 18 (squared distances, as the stand-in tree gives them).
    As the specification words it, mean and standard deviation over the
    four valid values keep the points 2 and 3; the code leaves the two
    zero distances out of the squared deviations, divides by the count of
    all four less one, and keeps nothing. *)
Theorem RemoveStatisticalOutliers_zero_distances :
  let dist := (SearchKNN with_duplicates (points_ with_duplicates) 2).2 in
  let avg := (fun i => spec_average (block 2 i dist)) <$> seq 0 4 in
  avg = [0; 0; 18; 18]%Q /\
  spec_inliers avg 1%Q = [2; 3]%Z /\
  exists w',
    RemoveStatisticalOutliers 0 2 1%Q (world_with with_duplicates) =
      Ok (1, []) w' /\
    heap w' !! 1 = Some empty_cloud.
Proof.
  split; [vm_compute; reflexivity|]. split; [vm_compute; reflexivity|].
  eexists. split; vm_compute; reflexivity.
Qed.

(** Without a zero distance the code and the formula agree: four
    distinct points, average distances 1/2, 1/2, 2, 169/2; the first
    three are kept by both. *)
Example RemoveStatisticalOutliers_distinct_points :
  let dist := (SearchKNN four_distinct (points_ four_distinct) 2).2 in
  let avg := (fun i => spec_average (block 2 i dist)) <$> seq 0 4 in
  avg = [1 # 2; 1 # 2; 2; 169 # 2]%Q /\
  avg = (fun i => average_distance (block 2 i dist)) <$> seq 0 4 /\
  spec_inliers avg 1%Q = [0; 1; 2]%Z /\
  exists w',
    RemoveStatisticalOutliers 0 2 1%Q (world_with four_distinct) =
      Ok (1, [0; 1; 2]%Z) w' /\
    heap w' !! 1 = Some (mkPointCloud [pt 0 0 0; pt 1 0 0; pt 3 0 0] [] []).
Proof.
  split; [vm_compute; reflexivity|]. split; [vm_compute; reflexivity|].
  split; [vm_compute; reflexivity|].
  eexists. split; vm_compute; reflexivity.
Qed.

Lemma UniformDownSample_strides_witness :
  let n := vsize (points_ one_point) in
  let output := fresh (dom (heap (world_with one_point))) in
  ((0 < 2)%Z -> (n `mod` 2 <> 0)%Z ->
   UniformDownSample 0 2 (world_with one_point) = Fault) /\
  ((0 < 2)%Z -> (n `mod` 2 = 0)%Z ->
   exists sel,
     UniformDownSample 0 2 (world_with one_point) =
       Ok output (set_cloud output sel (world_with one_point)) /\
     selects ((fun i => 2 * i)%Z <$> seqZ 0 (n `div` 2)) one_point sel /\
     vsize (points_ sel) = (n `div` 2)%Z) /\
  (2%Z = 0%Z ->
   let text := "[UniformDownSample] Illegal sample rate."%string in
   let w' :=
     logged (Msg Error text)
       (set_cloud output empty_cloud (world_with one_point)) in
   UniformDownSample 0 2 (world_with one_point) =
     if LogError_throws then Throw text w' else Ok output w').
Proof.
  apply (UniformDownSample_strides 0 2 one_point (world_with one_point)).
  - reflexivity.
  - lia.
  - vm_compute. discriminate.
  - vm_compute. reflexivity.
Defined.

(** One point, [every_k_points = 2]: the output buffer is resized to
    [1 / 2 = 0] points, the strided range has [(1 + 1) / 2 = 1] position,
    and the copy writes one point into the empty buffer. *)
Example UniformDownSample_overruns :
  int_wrap (vsize (points_ one_point) `div` 2) = 0%Z /\
  thrust.strided_positions (vsize (points_ one_point)) 2 = [0%Z] /\
  UniformDownSample 0 2 (world_with one_point) = Fault.
Proof. repeat split; vm_compute; reflexivity. Qed.

(** Without a stride, with a [LogError] that raises and with one that
    returns. *)
Example UniformDownSample_no_stride :
  (exists text w',
     UniformDownSample 0 0 (world_with one_point) = Throw text w' /\
     console w' = [Msg Error text]) /\
  (exists w',
     @UniformDownSample Q Q_Float32 returning 0 0 (world_with one_point) =
       Ok 1 w' /\
     heap w' !! 1 = Some empty_cloud).
Proof.
  split.
  - eexists _, _. split; vm_compute; reflexivity.
  - eexists. split; vm_compute; reflexivity.
Qed.

(** When the stride divides the number of points the buffer is exactly
    filled. *)
Example UniformDownSample_divides :
  exists w',
    UniformDownSample 0 3 (world_with three_with_normals) = Ok 1 w' /\
    heap w' !! 1 = Some (mkPointCloud [pt 0 0 0] [pt 0 0 1] []).
Proof. eexists. split; vm_compute; reflexivity. Qed.

Example RemoveRadiusOutliers_no_neighbours_asked :
  exists text w',
    RemoveRadiusOutliers 0 0 (11 # 10)%Q (world_with with_duplicates) =
      Throw text w' /\
    console w' = [Msg Error text].
Proof. eexists _, _. split; vm_compute; reflexivity. Qed.
End Runs.

Section GraphRuns.
Import Exact Graph GraphFacts.
#[local] Existing Instance Q_Float32.
#[local] Existing Instance plain_construct.
Local Open Scope Z_scope.

Lemma dense_grid_graph_witness :
  (let min_bound := pt 0 0 0 in
   let max_bound := pt 2 2 2 in
   let resolutions : Vector3i := (2, 1, 1) in
   let steps :=
     vcwise_div (vsub max_bound min_bound) (cast_float3 resolutions) in
   exists g,
     CreateFromAxisAlignedBoundingBox3 min_bound max_bound resolutions =
       Some g /\
     Z.of_nat (length (points_ g)) = 2 * 1 * 1 /\
     (forall c, in_grid3 resolutions c ->
        points_ g !! Z.to_nat (node3 resolutions c) =
          Some (vadd min_bound (vcwise_mul (cast_float3 c) steps))) /\
     (forall i j, (i, j) ∈ lines_ g ->
        exists c o,
          in_grid3 resolutions c /\ o ∈ voxel_offset /\
          in_grid3 resolutions (shift3 c o) /\
          i = node3 resolutions c /\
          j = node3 resolutions (shift3 c o))) /\
  (let min_bound : Vector2f Q := (0%Q, 0%Q) in
   let max_bound : Vector2f Q := (2%Q, 2%Q) in
   let resolutions : Vector2i := (2, 2) in
   let steps :=
     vcwise_div2 (vsub2 max_bound min_bound) (cast_float2 resolutions) in
   exists g,
     CreateFromAxisAlignedBoundingBox2 min_bound max_bound resolutions =
       Some g /\
     Z.of_nat (length (points_ g)) = 2 * 2 /\
     (forall c, in_grid2 resolutions c ->
        points_ g !! Z.to_nat (node2 resolutions c) =
          Some (vadd2 min_bound (vcwise_mul2 (cast_float2 c) steps))) /\
     (forall i j, (i, j) ∈ lines_ g ->
        exists c o,
          in_grid2 resolutions c /\ o ∈ voxel_offset_2d /\
          in_grid2 resolutions (shift2 c o) /\
          i = node2 resolutions c /\
          j = node2 resolutions (shift2 c o))).
Proof.
  destruct (dense_grid_graph (F := Q)) as [H3 H2].
  - reflexivity.
  - intros P g i j Hij. left. exact Hij.
  - split.
    + apply (H3 (pt 0 0 0) (pt 2 2 2) 2 1 1); [lia|lia|lia| |];
        vm_compute; discriminate.
    + apply (H2 (0%Q, 0%Q) (2%Q, 2%Q) 2 2); [lia|lia| |];
        vm_compute; discriminate.
Defined.

(** A grid beyond the line functor's [int] arithmetic.  For the
    resolutions [(1, 1, 165191050)] (a single row of nodes, whose count
    fits an [int] while [1 * 165191050 * 26] does not) the factory
    returns a graph with the line [(165191050, 0)]: its first end is not
    the index of a grid node, the largest of which is [165191049]. *)
Lemma dense_grid_beyond_int :
  exists g,
    CreateFromAxisAlignedBoundingBox3 (pt 0 0 0) (pt 1 1 1)
      (1, 1, 165191050) = Some g /\
    Z.of_nat (length (points_ g)) = 165191050 /\
    (165191050, 0) ∈ lines_ g /\
    (forall c, in_grid3 (1, 1, 165191050) c ->
       node3 (1, 1, 165191050) c <> 165191050).
Proof.
  destruct (dense_grid_wraps (F := Q) (pt 0 0 0) (pt 1 1 1))
    as (g & Hg & Hn & Hl).
  - reflexivity.
  - intros P g l Hl. exact Hl.
  - exists g. split; [exact Hg|]. split; [exact Hn|]. split; [exact Hl|].
    intros [[x y] z] (Hx & Hy & Hz). unfold node3. lia.
Qed.

(** A 2 x 1 x 1 grid: two nodes and the two lines between them. *)
Example two_node_grid :
  CreateFromAxisAlignedBoundingBox3 (pt 0 0 0) (pt 2 2 2) (2, 1, 1) =
    Some (mkGraph [pt 0 0 0; pt 1 0 0] [(0, 1); (1, 0)]).
Proof. vm_compute. reflexivity. Qed.

(** A 2 x 2 grid in the plane: every node is joined to the three others,
    in both directions. *)
Example four_node_grid :
  CreateFromAxisAlignedBoundingBox2 (0%Q, 0%Q) (2%Q, 2%Q) (2, 2) =
    Some (mkGraph [(0%Q, 0%Q); (0%Q, 1%Q); (1%Q, 0%Q); (1%Q, 1%Q)]
            [(0, 2); (0, 1); (0, 3); (1, 3); (1, 0); (1, 2);
             (2, 0); (2, 3); (2, 1); (3, 1); (3, 2); (3, 0)]).
Proof. vm_compute. reflexivity. Qed.
End GraphRuns.

(** * Further properties of the point-cloud members *)

Section Gathered.
Context {A : Type}.
Implicit Types (input output : list A) (indices : list Z).

Lemma gathered_lookups indices input output :
  gathered indices input output ->
  Some <$> output = (fun j : Z => input !! Z.to_nat j) <$> indices.
Proof.
  intros [Hlen Hall]. apply list_eq. intros i.
  rewrite !list_lookup_fmap.
  destruct (indices !! i) as [j|] eqn:Hi; simpl.
  - destruct (Hall i j Hi) as (_ & [x Hx] & Hout).
    rewrite Hout, Hx. reflexivity.
  - apply lookup_ge_None in Hi.
    rewrite (proj2 (lookup_ge_None output i)) by lia. reflexivity.
Qed.

Lemma lookups_all input :
  (fun j : Z => input !! Z.to_nat j) <$> seqZ 0 (vsize input) = Some <$> input.
Proof.
  apply list_eq. intros i. rewrite !list_lookup_fmap. unfold vsize.
  destruct (decide (i < length input)) as [Hi|Hi].
  - rewrite lookup_seqZ_lt by lia. simpl. rewrite Z.add_0_l, Nat2Z.id.
    destruct (lookup_lt_is_Some_2 input i Hi) as [x Hx]. now rewrite Hx.
  - rewrite lookup_seqZ_ge by lia.
    rewrite (proj2 (lookup_ge_None input i)) by lia. reflexivity.
Qed.

Lemma Permutation_Some (l1 l2 : list A) :
  Some <$> l1 ≡ₚ Some <$> l2 -> l1 ≡ₚ l2.
Proof.
  intros Hp.
  assert (Hback : forall l : list A, (Some <$> l) ≫= option_list = l).
  { induction l as [|x l IH]; [done|]. cbn. now rewrite IH. }
  rewrite <- (Hback l1), <- (Hback l2). now rewrite Hp.
Qed.

Lemma gathered_all input output :
  gathered (seqZ 0 (vsize input)) input output -> output = input.
Proof.
  intros Hg%gathered_lookups. rewrite lookups_all in Hg.
  now apply (inj (fmap Some)) in Hg.
Qed.

Lemma gathered_nil input output : gathered [] input output -> output = [].
Proof. intros [Hlen _]. now apply nil_length_inv. Qed.

Lemma gathered_Permutation indices input output :
  gathered indices input output -> indices ≡ₚ seqZ 0 (vsize input) ->
  output ≡ₚ input.
Proof.
  intros Hg%gathered_lookups Hp. apply Permutation_Some.
  rewrite Hg, Hp. now rewrite lookups_all.
Qed.

Lemma gathered_app i1 i2 input o1 o2 :
  gathered i1 input o1 -> gathered i2 input o2 ->
  gathered (i1 ++ i2) input (o1 ++ o2).
Proof.
  intros [Hl1 H1] [Hl2 H2]. split; [rewrite !length_app; lia|].
  intros i j Hi. apply lookup_app_Some in Hi as [Hi|[Hge Hi]].
  - destruct (H1 i j Hi) as (? & ? & Ho). repeat split; try done.
    rewrite lookup_app_l by (rewrite Hl1; eapply lookup_lt_Some, Hi). done.
  - destruct (H2 _ j Hi) as (? & ? & Ho). repeat split; try done.
    rewrite lookup_app_r by lia. now rewrite Hl1.
Qed.
End Gathered.

Section SelectMore.
Context {F : Type} `{Float32 F} `{!Platform F}.
Import thrust thrust_facts.

(** The inverted selection, for distinct indices in range. *)
Lemma SelectByIndex_inverted this indices pc w :
  heap w !! this = Some pc ->
  (vsize (points_ pc) < 2 ^ 64)%Z ->
  Forall (in_range (vsize (points_ pc))) indices ->
  NoDup indices ->
  let output := fresh (dom (heap w)) in
  exists sel,
    SelectByIndex this indices true w = Ok output (set_cloud output sel w) /\
    selects (complement (vsize (points_ pc)) indices) pc sel.
Proof.
  intros Hthis Hfit Hall Hnd output.
  set (n := vsize (points_ pc)) in *.
  assert (Hn : (0 <= n)%Z) by apply vsize_nonneg.
  assert (Hdiff : set_difference Z.ltb (counting 0 n) (sort Z.ltb indices)
                  = complement n indices).
  { unfold counting. rewrite Z.sub_0_r.
    rewrite set_difference_filter
      by (apply StronglySorted_seqZ || apply sort_Z_sorted).
    unfold complement. apply filter_ext_Forall, Forall_forall.
    intros i _. now rewrite (sort_perm Z.ltb indices). }
  assert (Hlen : Z.of_nat (length (complement n indices)) = (n - vsize indices)%Z).
  { unfold complement, vsize. now apply length_complement. }
  assert (Hcomp : Forall (in_range n) (complement n indices)).
  { apply Forall_forall. intros i Hi%elem_of_complement. tauto. }
  destruct (select_into_fresh this (complement n indices) pc w Hthis Hcomp)
    as (sel & Hrun & Hsel).
  exists sel. split; [|done].
  unfold SelectByIndex.
  rewrite (bind_Ok _ _ _ _ _ (make_shared_run w)). fold output.
  erewrite bind_Ok.
  2:{ apply read_run. rewrite heap_set_cloud_ne
        by (apply not_eq_sym; eapply fresh_ne; eauto).
      exact Hthis. }
  simpl get_buffer. fold n. rewrite Hdiff.
  rewrite write_at_begin_exact.
  2:{ unfold device_vector. rewrite length_replicate.
      rewrite size_t_wrap_small by (unfold vsize in *; lia). lia. }
  simpl checked. rewrite bind_ret.
  now rewrite (bind_Ok _ _ _ _ _ Hrun).
Qed.

Lemma selects_all (pc sel : PointCloud F) :
  selects (seqZ 0 (vsize (points_ pc))) pc sel -> sel = present_part pc.
Proof.
  intros (Hp & Hn & Hc). destruct sel as [ps ns cs]. unfold present_part.
  cbn in *. f_equal.
  - now apply gathered_all.
  - destruct (HasNormals pc) eqn:En; [|done].
    apply HasNormals_length in En. apply gathered_all.
    unfold vsize. now rewrite En.
  - destruct (HasColors pc) eqn:Ec; [|done].
    apply HasColors_length in Ec. apply gathered_all.
    unfold vsize. now rewrite Ec.
Qed.

Lemma selects_nil (pc sel : PointCloud F) :
  selects [] pc sel -> sel = empty_cloud.
Proof.
  intros (Hp & Hn & Hc). destruct sel as [ps ns cs]. unfold empty_cloud.
  cbn in *. f_equal.
  - now apply gathered_nil in Hp.
  - destruct (HasNormals pc); [now apply gathered_nil in Hn|done].
  - destruct (HasColors pc); [now apply gathered_nil in Hc|done].
Qed.

Lemma complement_nil (n : Z) : complement n [] = seqZ 0 n.
Proof.
  unfold complement. induction (seqZ 0 n) as [|x l IH]; [done|].
  rewrite filter_cons_True by apply not_elem_of_nil. now rewrite IH.
Qed.

(** Selecting nothing away, or everything: [SelectByIndex] with
    [invert = true] and no index, and with [invert = false] and the
    indices [0 .. n - 1], returns a new cloud with the points of the
    input, and its normals and colors when they are present; with
    [invert = false] and no index, and with [invert = true] and all
    indices, it returns a new empty cloud. *)
Theorem SelectByIndex_all_or_nothing (this : loc) (pc : PointCloud F)
    (w : world F) :
  heap w !! this = Some pc ->
  (vsize (points_ pc) < 2 ^ 64)%Z ->
  let all := seqZ 0 (vsize (points_ pc)) in
  let output := fresh (dom (heap w)) in
  SelectByIndex this [] true w =
    Ok output (set_cloud output (present_part pc) w) /\
  SelectByIndex this all false w =
    Ok output (set_cloud output (present_part pc) w) /\
  SelectByIndex this [] false w =
    Ok output (set_cloud output empty_cloud w) /\
  SelectByIndex this all true w =
    Ok output (set_cloud output empty_cloud w).
Proof.
  intros Hthis Hfit all output.
  assert (Hall : Forall (in_range (vsize (points_ pc))) all).
  { apply Forall_forall. intros i Hi%elem_of_seqZ. unfold in_range. lia. }
  assert (Hcompl : complement (vsize (points_ pc)) all = []).
  { destruct (complement (vsize (points_ pc)) all) as [|i l] eqn:Hc; [done|].
    assert (Hi : i ∈ complement (vsize (points_ pc)) all)
      by (rewrite Hc; apply list_elem_of_here).
    apply elem_of_complement in Hi as [Hr Hni]. exfalso. apply Hni.
    apply elem_of_seqZ. unfold in_range in Hr. lia. }
  repeat split.
  - destruct (SelectByIndex_inverted this [] pc w Hthis Hfit)
      as (sel & Hrun & Hsel); [constructor|constructor|].
    rewrite complement_nil in Hsel. apply selects_all in Hsel. now subst sel.
  - destruct (SelectByIndex_plain this all pc w Hthis Hall)
      as (sel & Hrun & Hsel).
    apply selects_all in Hsel. now subst sel.
  - destruct (SelectByIndex_plain this [] pc w Hthis)
      as (sel & Hrun & Hsel); [constructor|].
    apply selects_nil in Hsel. now subst sel.
  - destruct (SelectByIndex_inverted this all pc w Hthis Hfit Hall)
      as (sel & Hrun & Hsel); [apply NoDup_seqZ|].
    fold all in Hsel. rewrite Hcompl in Hsel.
    apply selects_nil in Hsel. now subst sel.
Qed.

(** A selection and its inverse split the cloud: for distinct indices in
    range, the points of [SelectByIndex(indices)] followed by those of
    [SelectByIndex(indices, true)] are the points of the input, each
    exactly once, in some order. *)
Theorem SelectByIndex_partition (this : loc) (indices : list Z)
    (pc : PointCloud F) (w : world F) :
  heap w !! this = Some pc ->
  (vsize (points_ pc) < 2 ^ 64)%Z ->
  Forall (in_range (vsize (points_ pc))) indices ->
  NoDup indices ->
  let output := fresh (dom (heap w)) in
  exists sel inv,
    SelectByIndex this indices false w = Ok output (set_cloud output sel w) /\
    SelectByIndex this indices true w = Ok output (set_cloud output inv w) /\
    points_ sel ++ points_ inv ≡ₚ points_ pc /\
    (HasNormals pc = true -> normals_ sel ++ normals_ inv ≡ₚ normals_ pc) /\
    (HasColors pc = true -> colors_ sel ++ colors_ inv ≡ₚ colors_ pc).
Proof.
  intros Hthis Hfit Hall Hnd output.
  set (n := vsize (points_ pc)) in *.
  destruct (SelectByIndex_plain this indices pc w Hthis Hall)
    as (sel & Hrun & Hsel).
  destruct (SelectByIndex_inverted this indices pc w Hthis Hfit Hall Hnd)
    as (inv & Hrun' & Hinv).
  exists sel, inv. split; [done|]. split; [done|].
  assert (Hperm : indices ++ complement n indices ≡ₚ seqZ 0 n).
  { apply NoDup_Permutation.
    - apply NoDup_app. split; [done|]. split.
      + intros i Hi Hc%elem_of_complement. tauto.
      + unfold complement. apply NoDup_filter, NoDup_seqZ.
    - apply NoDup_seqZ.
    - intros i. rewrite elem_of_app, elem_of_complement, elem_of_seqZ.
      unfold in_range. rewrite Forall_forall in Hall. split.
      + intros [Hi|[Hi _]]; [apply Hall in Hi; unfold in_range in Hi|]; lia.
      + intros Hi. destruct (decide (i ∈ indices)); [now left|right].
        split; [lia|done]. }
  destruct Hsel as (Hp & Hn & Hc), Hinv as (Hp' & Hn' & Hc').
  split; [|split].
  - eapply gathered_Permutation; [apply gathered_app; eauto|exact Hperm].
  - intros En. rewrite En in Hn, Hn'.
    eapply gathered_Permutation; [apply gathered_app; eauto|].
    apply HasNormals_length in En. unfold vsize. rewrite En. exact Hperm.
  - intros Ec. rewrite Ec in Hc, Hc'.
    eapply gathered_Permutation; [apply gathered_app; eauto|].
    apply HasColors_length in Ec. unfold vsize. rewrite Ec. exact Hperm.
Qed.
End SelectMore.

Section Subsequence.
Context {A : Type}.

Lemma picked_sublist (q : nat -> bool) (input : list A) (m a : nat) :
  a + m <= length input ->
  exists l,
    (fun j : Z => input !! Z.to_nat j) <$>
      (Z.of_nat <$> List.filter q (seq a m)) = Some <$> l /\
    l `sublist_of` take m (drop a input).
Proof.
  revert a. induction m as [|m IH]; intros a Ha.
  - exists []. split; [done|]. rewrite take_0. constructor.
  - destruct (IH (S a)) as (l & Hl & Hsub); [lia|].
    destruct (lookup_lt_is_Some_2 input a) as [x Hx]; [lia|].
    assert (Hdrop : take (S m) (drop a input) = x :: take m (drop (S a) input)).
    { rewrite (drop_S _ _ _ Hx). reflexivity. }
    rewrite Hdrop. cbn [seq List.filter].
    destruct (q a).
    + exists (x :: l). split; [|now apply sublist_skip].
      cbn. rewrite Nat2Z.id, Hx. f_equal. exact Hl.
    + exists l. split; [exact Hl|now apply sublist_cons].
Qed.

Lemma gathered_sublist (q : nat -> bool) (input output : list A) :
  gathered (Z.of_nat <$> List.filter q (seq 0 (length input))) input output ->
  output `sublist_of` input.
Proof.
  intros Hg%gathered_lookups.
  destruct (picked_sublist q input (length input) 0) as (l & Hl & Hsub); [lia|].
  rewrite Hl in Hg. apply (inj (fmap Some)) in Hg. subst l.
  now rewrite drop_0, firstn_all in Hsub.
Qed.
End Subsequence.

Section Filters.
Context {F : Type} `{Float32 F} `{!Platform F}.
Import thrust thrust_facts.

Lemma selects_sublist (q : nat -> bool) (pc sel : PointCloud F) :
  selects (Z.of_nat <$> List.filter q (seq 0 (length (points_ pc)))) pc sel ->
  points_ sel `sublist_of` points_ pc /\
  normals_ sel `sublist_of` normals_ pc /\
  colors_ sel `sublist_of` colors_ pc.
Proof.
  intros (Hp & Hn & Hc). split; [now apply gathered_sublist in Hp|]. split.
  - destruct (HasNormals pc) eqn:En; [|rewrite Hn; apply sublist_nil_l].
    apply HasNormals_length in En. rewrite <- En in Hn.
    now apply gathered_sublist in Hn.
  - destruct (HasColors pc) eqn:Ec; [|rewrite Hc; apply sublist_nil_l].
    apply HasColors_length in Ec. rewrite <- Ec in Hc.
    now apply gathered_sublist in Hc.
Qed.

(** The run of [RemoveRadiusOutliers] for legal parameters. *)
Lemma RemoveRadiusOutliers_run this nb_points search_radius pc w
    tmp_indices dist :
  heap w !! this = Some pc ->
  let n := length (points_ pc) in
  let max_nn := Z.to_nat (nb_points + 1) in
  (1 <= nb_points < 2 ^ 63 - 1)%Z ->
  fleb search_radius F0 = false ->
  ((nb_points + 1) * Z.of_nat n < 2 ^ 63)%Z ->
  SearchRadius pc (points_ pc) search_radius (nb_points + 1) =
    (tmp_indices, dist) ->
  length tmp_indices = n * max_nn ->
  let keep := fun i =>
    (nb_points <? valid_hits (block max_nn i tmp_indices))%Z in
  let kept := Z.of_nat <$> List.filter keep (seq 0 n) in
  let output := fresh (dom (heap w)) in
  exists sel,
    RemoveRadiusOutliers this nb_points search_radius w =
      Ok (output, kept) (set_cloud output sel w) /\
    selects kept pc sel.
Proof.
  intros Hthis n max_nn Hnb Hrad Hfit Hkd Hlen keep kept output.
  assert (Hmax : Z.of_nat max_nn = (nb_points + 1)%Z) by (unfold max_nn; lia).
  assert (Hr : 0 < max_nn) by (unfold max_nn; lia).
  destruct (select_where_run this pc w
              (fun x : Z * Z => (nb_points <? x.2)%Z)
              (fun i => valid_hits (block max_nn i tmp_indices)) 0%Z Hthis)
    as (sel & Hrun & Hsel).
  exists sel. split; [|exact Hsel].
  unfold RemoveRadiusOutliers.
  replace ((nb_points <? 1)%Z) with false by (symmetry; apply Z.ltb_ge; lia).
  rewrite Hrad. simpl orb. rewrite when_false, bind_ret.
  rewrite (bind_Ok _ _ _ _ _ (load_run _ _ _ Hthis)).
  unfold size_t_add. rewrite size_t_wrap_small by lia. rewrite Hkd.
  rewrite difference_wrap_small by lia.
  unfold vsize. fold n. rewrite <- Hmax.
  rewrite repeated_range_blocks by lia.
  rewrite length_flat_map_replicate.
  unfold read_n. rewrite decide_True by lia.
  rewrite take_ge by lia. simpl checked. rewrite bind_ret.
  rewrite (reduce_by_key_blocks size_t_add max_nn 0%Z n Hr)
    by (rewrite length_fmap; lia).
  rewrite <- list_fmap_compose.
  erewrite (list_fmap_ext _ (fun i => valid_hits (block max_nn i tmp_indices))).
  2:{ intros _ i _. simpl. rewrite block_fmap. apply reduce1_count_valid.
      pose proof (length_block_le max_nn i tmp_indices). lia. }
  rewrite write_at_begin_exact
    by (unfold device_vector; rewrite length_fmap, length_seq, length_replicate; lia).
  simpl checked. rewrite bind_ret. exact Hrun.
Qed.

(** [RemoveRadiusOutliers] neither reorders nor repeats: for legal
    parameters the points it returns are a sub-sequence of the input
    points (and so are the normals and colors), one per returned index,
    and the indices are strictly ascending positions of the input. *)
Theorem RemoveRadiusOutliers_subsequence (this : loc) (nb_points : Z)
    (search_radius : F) (pc : PointCloud F) (w : world F)
    (tmp_indices : list Z) (dist : list F) :
  heap w !! this = Some pc ->
  let n := length (points_ pc) in
  (1 <= nb_points < 2 ^ 63 - 1)%Z ->
  fleb search_radius F0 = false ->
  ((nb_points + 1) * Z.of_nat n < 2 ^ 63)%Z ->
  SearchRadius pc (points_ pc) search_radius (nb_points + 1) =
    (tmp_indices, dist) ->
  length tmp_indices = n * Z.to_nat (nb_points + 1) ->
  exists out kept sel,
    RemoveRadiusOutliers this nb_points search_radius w =
      Ok (out, kept) (set_cloud out sel w) /\
    points_ sel `sublist_of` points_ pc /\
    normals_ sel `sublist_of` normals_ pc /\
    colors_ sel `sublist_of` colors_ pc /\
    length (points_ sel) = length kept /\
    StronglySorted Z.lt kept /\
    Forall (in_range (vsize (points_ pc))) kept.
Proof.
  intros Hthis n Hnb Hrad Hfit Hkd Hlen.
  destruct (RemoveRadiusOutliers_run this nb_points search_radius pc w
              tmp_indices dist Hthis Hnb Hrad Hfit Hkd Hlen)
    as (sel & Hrun & Hsel).
  eexists _, _, sel. split; [exact Hrun|].
  destruct (selects_sublist _ _ _ Hsel) as (Hp & Hn & Hc).
  split; [done|]. split; [done|]. split; [done|].
  split; [apply Hsel|]. split; [apply ascending_filter_seq|].
  apply Forall_fmap, Forall_forall. intros i Hi. simpl.
  apply list_elem_of_In, filter_In in Hi as [Hi _]. apply in_seq in Hi.
  unfold in_range, vsize. fold n. lia.
Qed.

(** [RemoveStatisticalOutliers] keeps a sub-sequence too, and only points
    whose average distance is strictly positive and strictly below the
    threshold: a point whose average distance does not compare above zero
    (all its neighbours coincide with it, or it has no valid neighbour)
    is never kept. *)
Theorem RemoveStatisticalOutliers_subsequence (this : loc)
    (nb_neighbors : Z) (std_ratio : F) (pc : PointCloud F) (w : world F)
    (tmp_indices : list Z) (dist : list F) :
  heap w !! this = Some pc ->
  let n := length (points_ pc) in
  let r := Z.to_nat nb_neighbors in
  (1 <= nb_neighbors < 2 ^ 31)%Z ->
  fleb std_ratio F0 = false ->
  (nb_neighbors * Z.of_nat n < 2 ^ 63)%Z ->
  SearchKNN pc (points_ pc) nb_neighbors = (tmp_indices, dist) ->
  length dist = n * r ->
  exists out kept sel,
    RemoveStatisticalOutliers this nb_neighbors std_ratio w =
      Ok (out, kept) (set_cloud out sel w) /\
    points_ sel `sublist_of` points_ pc /\
    normals_ sel `sublist_of` normals_ pc /\
    colors_ sel `sublist_of` colors_ pc /\
    length (points_ sel) = length kept /\
    StronglySorted Z.lt kept /\
    (forall i, Z.of_nat i ∈ kept ->
       i < n /\
       fltb F0 (average_distance (block r i dist)) = true).
Proof.
  intros Hthis n r Hnb Hratio Hfit Hkd Hlen.
  destruct (RemoveStatisticalOutliers_run this nb_neighbors std_ratio pc w
              tmp_indices dist Hthis Hnb Hratio Hfit Hkd Hlen)
    as [Hnone Hsome].
  match type of Hnone with
  | ?v = 0%Z -> _ => destruct (decide (v = 0%Z)) as [Hz|Hnz]
  end.
  - eexists _, [], empty_cloud. split; [exact (Hnone Hz)|].
    cbn. split; [apply sublist_nil_l|]. split; [apply sublist_nil_l|].
    split; [apply sublist_nil_l|]. split; [done|]. split; [constructor|].
    intros i Hi. now apply elem_of_nil in Hi.
  - destruct (Hsome Hnz) as (sel & Hrun & Hsel).
    eexists _, _, sel. split; [exact Hrun|].
    destruct (selects_sublist _ _ _ Hsel) as (Hp & Hn & Hc).
    split; [done|]. split; [done|]. split; [done|].
    split; [apply Hsel|]. split; [apply ascending_filter_seq|].
    intros i Hi. apply list_elem_of_fmap in Hi as (i' & Heq & Hi).
    apply Nat2Z.inj in Heq. subst i'.
    apply list_elem_of_In, filter_In in Hi as [Hi Hkeep].
    apply in_seq in Hi. apply andb_true_iff in Hkeep as [Hpos _].
    split; [unfold n; lia|exact Hpos].
Qed.
End Filters.

Section VoxelMore.
Context {F : Type} `{Float32 F} `{!Platform F}.
Import thrust thrust_facts.

Lemma length_voxel_result (pc : PointCloud F) (keys : list Vector3i) :
  length (points_ (voxel_result pc keys)) <= length keys.
Proof.
  unfold voxel_result.
  destruct (HasNormals pc), (HasColors pc); cbn [negb andb points_];
    rewrite ?length_fmap; apply length_sort_and_reduce.
Qed.

(** [VoxelDownSample] always returns, and never with more points than it
    was given: for a cloud of at most [INT_MAX] points and any
    [voxel_size], the call returns a new cloud (it neither raises nor
    leaves a buffer) that has at most as many points as the input; an
    empty input gives an empty output. *)
Theorem VoxelDownSample_never_grows (this : loc) (voxel_size : F)
    (pc : PointCloud F) (w : world F) :
  heap w !! this = Some pc ->
  (vsize (points_ pc) <= INT_MAX)%Z ->
  let output := fresh (dom (heap w)) in
  exists w' o,
    VoxelDownSample this voxel_size w = Ok output w' /\
    heap w' !! output = Some o /\
    length (points_ o) <= length (points_ pc) /\
    heap w' !! this = Some pc.
Proof.
  intros Hthis Hfit output.
  assert (Hne : output <> this)
    by (apply not_eq_sym; eapply fresh_ne; eauto).
  destruct (fleb voxel_size F0) eqn:Hle.
  { unfold VoxelDownSample.
    rewrite (bind_Ok _ _ _ _ _ (make_shared_run w)). fold output. rewrite Hle.
    eexists _, empty_cloud. split; [reflexivity|]. cbn.
    rewrite lookup_insert_eq, lookup_insert_ne by done.
    split; [done|]. split; [lia|done]. }
  destruct (fltb (fmul voxel_size (of_int INT_MAX))
              (maxCoeff
                 (vsub
                    (vadd (GetMaxBound pc)
                       (vscale (voxel_size, voxel_size, voxel_size) Fhalf))
                    (vsub (GetMinBound pc)
                       (vscale (voxel_size, voxel_size, voxel_size) Fhalf)))))
    eqn:Hsmall.
  { unfold VoxelDownSample.
    rewrite (bind_Ok _ _ _ _ _ (make_shared_run w)). fold output. rewrite Hle.
    erewrite bind_Ok
      by (apply load_run; rewrite heap_set_cloud_ne by done; exact Hthis).
    cbv zeta. rewrite Hsmall.
    eexists _, empty_cloud. split; [reflexivity|]. cbn.
    rewrite lookup_insert_eq, lookup_insert_ne by done.
    split; [done|]. split; [lia|done]. }
  rewrite (VoxelDownSample_run this voxel_size pc w Hthis Hfit Hle Hsmall).
  eexists _, _. split; [reflexivity|]. cbn.
  rewrite lookup_insert_eq, lookup_insert_ne by done.
  split; [reflexivity|]. split; [|done].
  etransitivity; [apply length_voxel_result|]. now rewrite length_fmap.
Qed.
End VoxelMore.

Section UniformMore.
Context {F : Type} `{Float32 F} `{!Platform F}.
Import thrust thrust_facts.
Local Open Scope Z_scope.

(** The run of [UniformDownSample] for a stride that divides the number
    of points. *)
Lemma UniformDownSample_divides_run this k pc w :
  heap w !! this = Some pc ->
  0 < k ->
  vsize (points_ pc) `div` k <= INT_MAX ->
  vsize (points_ pc) + k < 2 ^ 63 ->
  vsize (points_ pc) `mod` k = 0 ->
  let n := vsize (points_ pc) in
  let output := fresh (dom (heap w)) in
  exists sel,
    UniformDownSample this k w = Ok output (set_cloud output sel w) /\
    selects ((fun i => k * i) <$> seqZ 0 (n `div` k)) pc sel.
Proof.
  intros Hthis Hk Hint Hdiff Hmod n output.
  change (n `div` k <= INT_MAX) in Hint. change (n + k < 2 ^ 63) in Hdiff.
  change (n `mod` k = 0) in Hmod.
  assert (Hn : 0 <= n) by apply vsize_nonneg.
  assert (Hne : this <> output) by (eapply fresh_ne; eauto).
  assert (Hq : 0 <= n `div` k) by (apply Z.div_pos; lia).
  destruct (strided_range_Some (points_ pc) k Hk Hdiff) as (ps & Hps & Hlps).
  destruct (attribute_range_Some (HasNormals pc) (normals_ pc) pc k Hk Hdiff
              (HasNormals_length pc)) as (ns & Hns).
  destruct (attribute_range_Some (HasColors pc) (colors_ pc) pc k Hk Hdiff
              (HasColors_length pc)) as (cs & Hcs).
  fold n in Hlps. rewrite strided_count, decide_True in Hlps by done.
  assert (HasNormals pc = true ->
          strided_range (get_buffer normals pc) k = Some ns /\
          length ns = Z.to_nat (n `div` k)) as Hns'.
  { intros Hn'. destruct (Hns Hn') as [Hg Hl]. split; [exact Hg|].
    rewrite Hl. fold n. now rewrite strided_count, decide_True by done. }
  assert (HasColors pc = true ->
          strided_range (get_buffer colors pc) k = Some cs /\
          length cs = Z.to_nat (n `div` k)) as Hcs'.
  { intros Hc'. destruct (Hcs Hc') as [Hg Hl]. split; [exact Hg|].
    rewrite Hl. fold n. now rewrite strided_count, decide_True by done. }
  exists (selection pc empty_cloud ps ns cs). split.
  - unfold UniformDownSample.
    rewrite (bind_Ok _ _ _ _ _ (load_run _ _ _ Hthis)).
    rewrite (bind_Ok _ _ _ _ _ (make_shared_run w)). fold output n.
    replace (k =? 0) with false by (symmetry; apply Z.eqb_neq; lia).
    rewrite int_wrap_small by (unfold INT_MAX in *; lia).
    rewrite size_t_wrap_small by (unfold INT_MAX in *; lia).
    rewrite difference_wrap_small by lia.
    erewrite bind_Ok
      by (erewrite resize_run by apply heap_set_cloud_eq;
          rewrite set_cloud_twice; reflexivity).
    erewrite bind_Ok by apply when_resize_run.
    erewrite bind_Ok by apply when_resize_run.
    erewrite bind_Ok.
    2:{ eapply strided_copy_run; [done|exact Hthis|exact Hps|].
        destruct (HasNormals pc), (HasColors pc);
          cbn [get_buffer set_buffer points_ normals_ colors_];
          rewrite length_resized; lia. }
    erewrite bind_Ok.
    2:{ eapply (when_strided_copy_run _ _ _ _ _ _ _ ns); [done|exact Hthis|].
        intros En. destruct (Hns' En). split; [done|]. rewrite En.
        destruct (HasColors pc);
          cbn [get_buffer set_buffer points_ normals_ colors_];
          rewrite length_resized; lia. }
    erewrite bind_Ok.
    2:{ eapply (when_strided_copy_run _ _ _ _ _ _ _ cs); [done|exact Hthis|].
        intros Ec. destruct (Hcs' Ec). split; [done|]. rewrite Ec.
        destruct (HasNormals pc);
          cbn [get_buffer set_buffer points_ normals_ colors_];
          rewrite length_resized; lia. }
    unfold selection, ret.
    destruct (HasNormals pc), (HasColors pc); reflexivity.
  - apply selection_selects.
    + rewrite <- (strided_positions_exact n k) by done. exact Hps.
    + intros En. destruct (Hns' En) as [Hg _].
      rewrite <- (strided_positions_exact n k) by done.
      apply HasNormals_length in En. unfold strided_range in Hg.
      cbn [get_buffer] in Hg. unfold vsize in Hg. rewrite En in Hg. exact Hg.
    + intros Ec. destruct (Hcs' Ec) as [Hg _].
      rewrite <- (strided_positions_exact n k) by done.
      apply HasColors_length in Ec. unfold strided_range in Hg.
      cbn [get_buffer] in Hg. unfold vsize in Hg. rewrite Ec in Hg. exact Hg.
Qed.

Lemma selects_unique (indices : list Z) (pc s1 s2 : PointCloud F) :
  selects indices pc s1 -> selects indices pc s2 -> s1 = s2.
Proof.
  assert (Huniq : forall (input o1 o2 : list (Vector3f F)),
             gathered indices input o1 -> gathered indices input o2 -> o1 = o2).
  { intros input o1 o2 H1%gathered_lookups H2%gathered_lookups.
    rewrite <- H2 in H1. now apply (inj (fmap Some)) in H1. }
  intros (Hp1 & Hn1 & Hc1) (Hp2 & Hn2 & Hc2).
  destruct s1 as [p1 n1 c1], s2 as [p2 n2 c2]. cbn in *. f_equal.
  - eauto.
  - destruct (HasNormals pc); [eauto|congruence].
  - destruct (HasColors pc); [eauto|congruence].
Qed.

End UniformMore.

Section StatisticalMore.
Context {F : Type} `{Float32 F} `{!Platform F}.

(** [RemoveStatisticalOutliers] checks its parameters first and the
    cloud second: with [nb_neighbors < 1] or [std_ratio <= 0] and a
    [LogError] that raises, the call raises and the store is as before;
    with legal parameters and an empty cloud it returns a new empty
    cloud and no index, whatever the k-d tree would answer. *)
Theorem RemoveStatisticalOutliers_edges (this : loc) (nb_neighbors : Z)
    (std_ratio : F) (pc : PointCloud F) (w : world F) :
  heap w !! this = Some pc ->
  let illegal := (nb_neighbors <? 1)%Z || fleb std_ratio F0 in
  let output := fresh (dom (heap w)) in
  (illegal = true -> LogError_throws = true ->
   exists text,
     RemoveStatisticalOutliers this nb_neighbors std_ratio w =
       Throw text (logged (Msg Error text) w)) /\
  (illegal = false -> points_ pc = [] ->
   RemoveStatisticalOutliers this nb_neighbors std_ratio w =
     Ok (output, []) (set_cloud output empty_cloud w)).
Proof.
  intros Hthis illegal output. split.
  - intros Hbad Hthrow. eexists. unfold RemoveStatisticalOutliers.
    fold illegal. rewrite Hbad, when_true. unfold LogError.
    rewrite Hthrow. reflexivity.
  - intros Hok Hnil. unfold RemoveStatisticalOutliers.
    fold illegal. rewrite Hok, when_false, bind_ret.
    rewrite (bind_Ok _ _ _ _ _ (load_run _ _ _ Hthis)).
    rewrite bool_decide_eq_true_2 by done. reflexivity.
Qed.
End StatisticalMore.

Section MoreRuns.
Import Exact.
#[local] Existing Instance Q_Float32.
#[local] Existing Instance raising.

Lemma SelectByIndex_all_or_nothing_witness :
  let pc := three_with_normals in
  let w := world_with pc in
  SelectByIndex 0 [] true w = Ok 1 (set_cloud 1 (present_part pc) w) /\
  SelectByIndex 0 [0; 1; 2]%Z false w =
    Ok 1 (set_cloud 1 (present_part pc) w) /\
  SelectByIndex 0 [] false w = Ok 1 (set_cloud 1 empty_cloud w) /\
  SelectByIndex 0 [0; 1; 2]%Z true w = Ok 1 (set_cloud 1 empty_cloud w).
Proof.
  apply (SelectByIndex_all_or_nothing 0 three_with_normals
           (world_with three_with_normals)).
  - reflexivity.
  - reflexivity.
Defined.

Lemma SelectByIndex_partition_witness :
  exists sel inv,
    SelectByIndex 0 [2; 0]%Z false (world_with three_with_normals) =
      Ok 1 (set_cloud 1 sel (world_with three_with_normals)) /\
    SelectByIndex 0 [2; 0]%Z true (world_with three_with_normals) =
      Ok 1 (set_cloud 1 inv (world_with three_with_normals)) /\
    points_ sel ++ points_ inv ≡ₚ points_ three_with_normals /\
    (HasNormals three_with_normals = true ->
     normals_ sel ++ normals_ inv ≡ₚ normals_ three_with_normals) /\
    (HasColors three_with_normals = true ->
     colors_ sel ++ colors_ inv ≡ₚ colors_ three_with_normals).
Proof.
  apply (SelectByIndex_partition 0 [2; 0]%Z three_with_normals
           (world_with three_with_normals)).
  - reflexivity.
  - reflexivity.
  - repeat constructor; unfold in_range; simpl; lia.
  - apply (bool_decide_unpack _). vm_compute. exact I.
Defined.

Lemma RemoveRadiusOutliers_subsequence_witness :
  exists out kept sel,
    RemoveRadiusOutliers 0 1 (11 # 10)%Q (world_with with_duplicates) =
      Ok (out, kept) (set_cloud out sel (world_with with_duplicates)) /\
    points_ sel `sublist_of` points_ with_duplicates /\
    normals_ sel `sublist_of` normals_ with_duplicates /\
    colors_ sel `sublist_of` colors_ with_duplicates /\
    length (points_ sel) = length kept /\
    StronglySorted Z.lt kept /\
    Forall (in_range (vsize (points_ with_duplicates))) kept.
Proof.
  apply (RemoveRadiusOutliers_subsequence 0 1 (11 # 10)%Q with_duplicates
           (world_with with_duplicates) [0; 1; 0; 1; 2; -1; 3; -1]%Z
           [0; 0; 0; 0; 0; 0; 0; 0]%Q).
  - reflexivity.
  - lia.
  - reflexivity.
  - simpl. lia.
  - reflexivity.
  - reflexivity.
Defined.

Lemma RemoveStatisticalOutliers_subsequence_witness :
  let dist := (SearchKNN four_distinct (points_ four_distinct) 2).2 in
  exists out kept sel,
    RemoveStatisticalOutliers 0 2 1%Q (world_with four_distinct) =
      Ok (out, kept) (set_cloud out sel (world_with four_distinct)) /\
    points_ sel `sublist_of` points_ four_distinct /\
    normals_ sel `sublist_of` normals_ four_distinct /\
    colors_ sel `sublist_of` colors_ four_distinct /\
    length (points_ sel) = length kept /\
    StronglySorted Z.lt kept /\
    (forall i, Z.of_nat i ∈ kept ->
       i < 4 /\ fltb F0 (average_distance (block 2 i dist)) = true).
Proof.
  apply (RemoveStatisticalOutliers_subsequence 0 2 1%Q four_distinct
           (world_with four_distinct)
           (SearchKNN four_distinct (points_ four_distinct) 2).1
           (SearchKNN four_distinct (points_ four_distinct) 2).2).
  - reflexivity.
  - lia.
  - reflexivity.
  - simpl. lia.
  - apply surjective_pairing.
  - vm_compute. reflexivity.
Defined.

Lemma VoxelDownSample_never_grows_witness :
  exists w' o,
    VoxelDownSample 0 (3 # 2)%Q (world_with three_with_normals) = Ok 1 w' /\
    heap w' !! 1 = Some o /\
    length (points_ o) <= length (points_ three_with_normals) /\
    heap w' !! 0 = Some three_with_normals.
Proof.
  apply (VoxelDownSample_never_grows 0 (3 # 2)%Q three_with_normals
           (world_with three_with_normals)).
  - reflexivity.
  - vm_compute. discriminate.
Defined.


Lemma RemoveStatisticalOutliers_edges_witness :
  let w := world_with empty_cloud in
  let illegal := (0 <? 1)%Z || fleb 1%Q F0 in
  (illegal = true -> LogError_throws = true ->
   exists text,
     RemoveStatisticalOutliers 0 0 1%Q w =
       Throw text (logged (Msg Error text) w)) /\
  (illegal = false -> points_ (empty_cloud (F := Q)) = [] ->
   RemoveStatisticalOutliers 0 0 1%Q w =
     Ok (1, []) (set_cloud 1 empty_cloud w)).
Proof.
  apply (RemoveStatisticalOutliers_edges 0 0 1%Q empty_cloud
           (world_with empty_cloud)).
  reflexivity.
Defined.
End MoreRuns.

Section Composition.
Context {F : Type} `{Float32 F} `{!Platform F}.
Import thrust thrust_facts.

(** The indices into the input that a selection of a selection reads. *)
Lemma gathered_compose {A} (idx1 idx2 : list Z) (input mid out : list A) :
  gathered idx1 input mid -> gathered idx2 mid out ->
  gathered ((fun j : Z => default 0%Z (idx1 !! Z.to_nat j)) <$> idx2) input out.
Proof.
  intros [Hl1 H1] [Hl2 H2]. split; [now rewrite length_fmap|].
  intros i j Hi. rewrite list_lookup_fmap in Hi.
  apply fmap_Some in Hi as (j2 & Hj2 & ->).
  destruct (H2 i j2 Hj2) as (Hpos & [x Hx] & Hout).
  assert (Hlt : Z.to_nat j2 < length idx1)
    by (rewrite <- Hl1; eapply lookup_lt_Some, Hx).
  destruct (lookup_lt_is_Some_2 idx1 _ Hlt) as [j1 Hj1].
  rewrite Hj1. simpl.
  destruct (H1 _ j1 Hj1) as (Hpos1 & Hsome & Hmid).
  split; [done|]. split; [done|]. now rewrite Hout, Hmid.
Qed.

Lemma selects_compose (idx1 idx2 : list Z) (pc sel1 sel2 : PointCloud F) :
  Forall (in_range (vsize idx1)) idx2 ->
  selects idx1 pc sel1 -> selects idx2 sel1 sel2 ->
  selects ((fun j : Z => default 0%Z (idx1 !! Z.to_nat j)) <$> idx2) pc sel2.
Proof.
  intros Hall (Hp1 & Hn1 & Hc1) (Hp2 & Hn2 & Hc2).
  assert (Hnil : idx1 = [] -> idx2 = []).
  { intros ->. destruct idx2 as [|j l]; [done|].
    apply Forall_cons in Hall as [Hj _]. unfold in_range, vsize in Hj.
    simpl in Hj. lia. }
  assert (Hattr : forall (has1 has : bool) (a a1 a2 : list (Vector3f F)),
    (has1 = true -> points_ sel1 <> [] /\ length a1 = length (points_ sel1)) ->
    (has1 = false -> points_ sel1 = [] \/ length a1 <> length (points_ sel1)) ->
    (if has then gathered idx1 a a1 else a1 = []) ->
    (if has1 then gathered idx2 a1 a2 else a2 = []) ->
    if has
    then gathered ((fun j : Z => default 0%Z (idx1 !! Z.to_nat j)) <$> idx2) a a2
    else a2 = []).
  { intros has1 has a a1 a2 Ht Hf Ha1 Ha2.
    destruct has, has1.
    - eapply gathered_compose; eauto.
    - subst a2. destruct (Hf eq_refl) as [Hempty|Hne].
      + rewrite Hnil; [split; [done|]; intros i j Hi; done|].
        destruct Hp1 as [Hl _]. rewrite Hempty in Hl.
        symmetry in Hl. now apply nil_length_inv in Hl.
      + exfalso. apply Hne. destruct Ha1 as [-> _]. now destruct Hp1 as [-> _].
    - subst a1. destruct (Ht eq_refl) as [Hne Hlen].
      exfalso. apply Hne. symmetry in Hlen. now apply nil_length_inv in Hlen.
    - done. }
  split; [eapply gathered_compose; eauto|]. split.
  - apply (Hattr (HasNormals sel1) (HasNormals pc) _ (normals_ sel1)); try done.
    + intros Hn. unfold HasNormals in Hn.
      rewrite andb_true_iff, !bool_decide_eq_true in Hn. exact Hn.
    + intros Hn. unfold HasNormals in Hn.
      rewrite andb_false_iff, !bool_decide_eq_false in Hn.
      destruct Hn as [Hn|Hn]; [left|right; exact Hn].
      destruct (points_ sel1); [done|]. exfalso. now apply Hn.
  - apply (Hattr (HasColors sel1) (HasColors pc) _ (colors_ sel1)); try done.
    + intros Hn. unfold HasColors in Hn.
      rewrite andb_true_iff, !bool_decide_eq_true in Hn. exact Hn.
    + intros Hn. unfold HasColors in Hn.
      rewrite andb_false_iff, !bool_decide_eq_false in Hn.
      destruct Hn as [Hn|Hn]; [left|right; exact Hn].
      destruct (points_ sel1); [done|]. exfalso. now apply Hn.
Qed.

(** Selecting from a selection is selecting once: for indices [idx1]
    into the cloud and [idx2] into the selection, [SelectByIndex(idx2)]
    applied to the result of [SelectByIndex(idx1)] returns the cloud that
    [SelectByIndex] returns for the composed indices [idx1[idx2[i]]]. *)
Theorem SelectByIndex_composes (this : loc) (idx1 idx2 : list Z)
    (pc : PointCloud F) (w : world F) :
  heap w !! this = Some pc ->
  Forall (in_range (vsize (points_ pc))) idx1 ->
  Forall (in_range (vsize idx1)) idx2 ->
  let out1 := fresh (dom (heap w)) in
  exists sel1 sel2,
    let w1 := set_cloud out1 sel1 w in
    let out2 := fresh (dom (heap w1)) in
    SelectByIndex this idx1 false w = Ok out1 w1 /\
    SelectByIndex out1 idx2 false w1 = Ok out2 (set_cloud out2 sel2 w1) /\
    SelectByIndex this
      ((fun j : Z => default 0%Z (idx1 !! Z.to_nat j)) <$> idx2) false w =
      Ok out1 (set_cloud out1 sel2 w).
Proof.
  intros Hthis Hall1 Hall2 out1.
  destruct (SelectByIndex_plain this idx1 pc w Hthis Hall1)
    as (sel1 & Hrun1 & Hsel1).
  assert (Hlen1 : vsize (points_ sel1) = vsize idx1).
  { destruct Hsel1 as [[Hl _] _]. unfold vsize. now rewrite Hl. }
  destruct (SelectByIndex_plain out1 idx2 sel1 (set_cloud out1 sel1 w))
    as (sel2 & Hrun2 & Hsel2);
    [apply heap_set_cloud_eq|now rewrite Hlen1|].
  pose proof (selects_compose _ _ _ _ _ Hall2 Hsel1 Hsel2) as Hcomp.
  destruct (SelectByIndex_plain this
              ((fun j : Z => default 0%Z (idx1 !! Z.to_nat j)) <$> idx2) pc w Hthis)
    as (sel3 & Hrun3 & Hsel3).
  { apply Forall_fmap, Forall_forall. intros j Hj. simpl.
    rewrite Forall_forall in Hall2. destruct (Hall2 _ Hj) as [Hlo Hhi].
    destruct (lookup_lt_is_Some_2 idx1 (Z.to_nat j)) as [j1 Hj1];
      [unfold vsize in Hhi; lia|].
    rewrite Hj1. simpl. rewrite Forall_forall in Hall1. apply Hall1.
    eapply list_elem_of_lookup_2, Hj1. }
  rewrite (selects_unique _ _ _ _ Hsel3 Hcomp) in Hrun3.
  exists sel1, sel2. cbv zeta. auto.
Qed.
End Composition.

Section CompositionRuns.
Import Exact.
#[local] Existing Instance Q_Float32.
#[local] Existing Instance raising.

Lemma SelectByIndex_composes_witness :
  exists sel1 sel2,
    let w := world_with three_with_normals in
    let w1 := set_cloud 1 sel1 w in
    let out2 := fresh (dom (heap w1)) in
    SelectByIndex 0 [2; 0]%Z false w = Ok 1 w1 /\
    SelectByIndex 1 [1; 1; 0]%Z false w1 = Ok out2 (set_cloud out2 sel2 w1) /\
    SelectByIndex 0
      ((fun j : Z => default 0%Z ([2; 0]%Z !! Z.to_nat j)) <$> [1; 1; 0]%Z)
      false w = Ok 1 (set_cloud 1 sel2 w).
Proof.
  apply (SelectByIndex_composes 0 [2; 0]%Z [1; 1; 0]%Z three_with_normals
           (world_with three_with_normals)).
  - reflexivity.
  - repeat constructor; unfold in_range; simpl; lia.
  - repeat constructor; unfold in_range; simpl; lia.
Defined.
End CompositionRuns.

(** * The range adaptors *)

Section Ranges.
Context {A : Type}.
Implicit Types (v : list A).
Import thrust thrust_facts.

Lemma gather_lookups (idx : list Z) v (out : list A) :
  length out = length idx ->
  (forall i j, idx !! i = Some j ->
     (0 <= j)%Z /\ is_Some (v !! Z.to_nat j) /\ out !! i = v !! Z.to_nat j) ->
  gather idx v = Some out.
Proof.
  intros Hlen Hall. apply gather_Some.
  apply Forall2_same_length_lookup_2; [now symmetry|].
  intros i j x Hi Hx. destruct (Hall i j Hi) as (Hj & _ & Ho).
  split; [done|]. now rewrite <- Ho.
Qed.

Lemma lookup_flat_map_replicate (r : nat) v (i : nat) :
  0 < r -> flat_map (replicate r) v !! i = v !! (i / r).
Proof.
  intros Hr. revert i. induction v as [|x v IH]; intros i; [done|].
  cbn [flat_map].
  destruct (decide (i < r)) as [Hi|Hi].
  - rewrite lookup_app_l by (rewrite length_replicate; lia).
    rewrite Nat.div_small by lia. cbn.
    now apply lookup_replicate_2.
  - rewrite lookup_app_r by (rewrite length_replicate; lia).
    rewrite length_replicate, IH.
    replace i with ((i - r) + 1 * r) at 2 by lia.
    rewrite Nat.div_add by lia.
    now replace ((i - r) / r + 1) with (S ((i - r) / r)) by lia.
Qed.

Lemma length_flat_map_replicate_list (r : nat) v :
  length (flat_map (replicate r) v) = length v * r.
Proof.
  induction v as [|x v IH]; [done|]. cbn [flat_map].
  rewrite length_app, length_replicate, IH. cbn. lia.
Qed.

Lemma lookup_concat_replicate (t : nat) v (i : nat) :
  i < t * length v ->
  concat (replicate t v) !! i = v !! (i mod length v).
Proof.
  revert i. induction t as [|t IH]; intros i Hi; [lia|].
  cbn [replicate concat].
  destruct (decide (i < length v)) as [Hlt|Hge].
  - rewrite lookup_app_l by done. now rewrite Nat.mod_small.
  - rewrite lookup_app_r by lia. rewrite IH by lia.
    replace i with ((i - length v) + 1 * length v) at 2 by lia.
    rewrite Nat.Div0.mod_add. reflexivity.
Qed.

Lemma length_concat_replicate (t : nat) v :
  length (concat (replicate t v)) = t * length v.
Proof.
  induction t as [|t IH]; [done|]. cbn [replicate concat].
  rewrite length_app, IH. lia.
Qed.

(** [repeated_range] repeats each element in place: for [repeats >= 0]
    (the whole length within the difference type) the adaptor yields the
    elements of the range in order, each [repeats] times in a row, as the
    examples in [range.h] show; element [i] is [v[i / repeats]]. *)
Theorem repeated_range_repeats v (repeats : Z) :
  (0 <= repeats)%Z -> (repeats * vsize v < 2 ^ 63)%Z ->
  ranges.repeated_range v repeats =
    Some (flat_map (replicate (Z.to_nat repeats)) v).
Proof.
  intros Hr Hfit. unfold ranges.repeated_range, counting, vsize in *.
  rewrite difference_wrap_small by nia. rewrite Z.sub_0_r.
  destruct (decide (repeats = 0%Z)) as [->|Hne].
  { rewrite Z.mul_0_l. cbn. clear. induction v; [done|]. cbn. done. }
  set (r := Z.to_nat repeats).
  assert (Hr' : 0 < r) by (unfold r; lia).
  assert (HrZ : Z.of_nat r = repeats) by (unfold r; lia).
  apply gather_lookups.
  - rewrite length_flat_map_replicate_list, length_fmap, length_seqZ. nia.
  - intros i j Hi. rewrite list_lookup_fmap in Hi.
    apply fmap_Some in Hi as (i' & Hi & ->).
    apply lookup_seqZ in Hi as [-> Hi]. rewrite Z.add_0_l.
    assert (Hq : (Z.of_nat i `quot` repeats)%Z = Z.of_nat (i / r)).
    { rewrite Z.quot_div_nonneg by lia. rewrite <- HrZ.
      now rewrite <- Nat2Z.inj_div. }
    rewrite Hq, Nat2Z.id, lookup_flat_map_replicate by done.
    split; [lia|]. split; [|done].
    apply lookup_lt_is_Some_2. apply Nat.Div0.div_lt_upper_bound. nia.
Qed.

(** [tiled_range] repeats the whole range: for [tiles >= 0] the adaptor
    yields the range [tiles] times over, one copy after the other;
    element [i] is [v[i % n]]. *)
Theorem tiled_range_tiles v (tiles : Z) :
  (0 <= tiles)%Z -> (tiles * vsize v < 2 ^ 63)%Z ->
  ranges.tiled_range v tiles = Some (concat (replicate (Z.to_nat tiles) v)).
Proof.
  intros Ht Hfit. unfold ranges.tiled_range, counting, vsize in *.
  rewrite difference_wrap_small by nia. rewrite Z.sub_0_r.
  apply gather_lookups.
  - rewrite length_concat_replicate, length_fmap, length_seqZ. nia.
  - intros i j Hi. rewrite list_lookup_fmap in Hi.
    apply fmap_Some in Hi as (i' & Hi & ->).
    apply lookup_seqZ in Hi as [-> Hi]. rewrite Z.add_0_l.
    assert (Hpos : 0 < length v) by nia.
    assert (Hq : (Z.of_nat i `rem` Z.of_nat (length v))%Z =
                 Z.of_nat (i mod length v)).
    { rewrite Z.rem_mod_nonneg by lia. now rewrite <- Nat2Z.inj_mod. }
    rewrite Hq, Nat2Z.id, lookup_concat_replicate by nia.
    split; [lia|]. split; [|done].
    apply lookup_lt_is_Some_2. apply Nat.mod_upper_bound. lia.
Qed.

(** [strided_range] takes every [stride]-th element: for [stride >= 1]
    with [n + stride] within the iterator's difference type (where the
    end of the range is computed) it yields [ceil(n / stride)] elements,
    the [i]-th being [v[stride * i]]; with stride one it is the range
    itself. *)
Theorem strided_range_strides v (stride : Z) :
  (1 <= stride)%Z ->
  (vsize v + stride < 2 ^ 63)%Z ->
  exists out,
    strided_range v stride = Some out /\
    vsize out = ((vsize v + stride - 1) `div` stride)%Z /\
    (forall i : nat, i < length out ->
       out !! i = v !! Z.to_nat (stride * Z.of_nat i)) /\
    (stride = 1%Z -> out = v).
Proof.
  intros Hs Hfit.
  destruct (strided_range_Some v stride) as (out & Hout & Hlen); [lia..|].
  exists out. split; [exact Hout|].
  assert (Hq : ((vsize v + (stride - 1)) `quot` stride =
                (vsize v + stride - 1) `div` stride)%Z).
  { pose proof (vsize_nonneg v). rewrite Z.quot_div_nonneg by lia.
    f_equal. lia. }
  assert (Hnth : forall i : nat, i < length out ->
            out !! i = v !! Z.to_nat (stride * Z.of_nat i)).
  { intros i Hi. unfold strided_range in Hout.
    assert (Hidx : strided_positions (vsize v) stride !! i =
                   Some (stride * Z.of_nat i)%Z).
    { rewrite strided_positions_small
        by (first [apply vsize_nonneg | lia]).
      unfold counting. rewrite list_lookup_fmap.
      rewrite lookup_seqZ_lt by lia. simpl. f_equal; lia. }
    now destruct (gather_lookup _ _ _ _ _ Hout Hidx) as (_ & -> & _). }
  split; [|split; [exact Hnth|]].
  - unfold vsize at 1. rewrite Hlen, Hq.
    apply Z2Nat.id, Z.div_pos; pose proof (vsize_nonneg v); lia.
  - intros ->. apply list_eq. intros i.
    assert (Hl : length out = length v).
    { rewrite Hlen. unfold vsize.
      rewrite Z.quot_1_r. lia. }
    destruct (decide (i < length out)) as [Hi|Hi].
    + rewrite Hnth by done. f_equal. lia.
    + rewrite (proj2 (lookup_ge_None out i)) by lia.
      rewrite (proj2 (lookup_ge_None v i)) by lia. done.
Qed.
End Ranges.

Section RangeRuns.
Import thrust thrust_facts.

(** The adaptor over a counting range is the one the outlier filters
    use. *)
Lemma repeated_range_counting (first last repeats : Z) :
  (0 <= repeats)%Z -> (first <= last)%Z ->
  (repeats * (last - first) < 2 ^ 63)%Z ->
  ranges.repeated_range (counting first last) repeats =
    Some (thrust.repeated_range first last repeats).
Proof.
  intros Hr Hfl Hfit.
  unfold ranges.repeated_range, thrust.repeated_range, counting, vsize.
  rewrite length_seqZ, Z2Nat.id by lia. rewrite !Z.sub_0_r.
  rewrite difference_wrap_small by nia.
  destruct (decide (repeats = 0%Z)) as [->|Hne]; [now rewrite Z.mul_0_l|].
  apply gather_lookups; [now rewrite !length_fmap|].
  intros i j Hi. rewrite list_lookup_fmap in Hi.
  apply fmap_Some in Hi as (i' & Hi & ->).
  apply lookup_seqZ in Hi as [-> Hi]. rewrite Z.add_0_l.
  assert (0 <= Z.of_nat i `quot` repeats < last - first)%Z as Hq.
  { rewrite Z.quot_div_nonneg by lia. split; [apply Z.div_pos; lia|].
    apply Z.div_lt_upper_bound; lia. }
  split; [lia|].
  rewrite list_lookup_fmap, lookup_seqZ_lt by lia.
  rewrite lookup_seqZ_lt by lia. rewrite Z2Nat.id by lia.
  split; [eauto|]. simpl. done.
Qed.

Lemma repeated_range_repeats_witness :
  ranges.repeated_range [0; 1; 2; 3]%Z 2 =
    Some (flat_map (replicate (Z.to_nat 2)) [0; 1; 2; 3]%Z).
Proof. apply (repeated_range_repeats [0; 1; 2; 3]%Z 2); vm_compute; done. Defined.

Lemma tiled_range_tiles_witness :
  ranges.tiled_range [0; 1; 2; 3]%Z 3 =
    Some (concat (replicate (Z.to_nat 3) [0; 1; 2; 3]%Z)).
Proof. apply (tiled_range_tiles [0; 1; 2; 3]%Z 3); vm_compute; done. Defined.

Lemma strided_range_strides_witness :
  exists out,
    thrust.strided_range [0; 1; 2; 3; 4; 5; 6]%Z 3 = Some out /\
    vsize out = ((vsize [0; 1; 2; 3; 4; 5; 6]%Z + 3 - 1) `div` 3)%Z /\
    (forall i : nat, i < length out ->
       out !! i = [0; 1; 2; 3; 4; 5; 6]%Z !! Z.to_nat (3 * Z.of_nat i)) /\
    (3%Z = 1%Z -> out = [0; 1; 2; 3; 4; 5; 6]%Z).
Proof.
  apply (strided_range_strides [0; 1; 2; 3; 4; 5; 6]%Z 3); [lia|].
  vm_compute. reflexivity.
Defined.

(** The examples of [range.h]. *)
Example range_h_examples :
  ranges.repeated_range [0; 1; 2; 3]%Z 1 = Some [0; 1; 2; 3]%Z /\
  ranges.repeated_range [0; 1; 2; 3]%Z 2 = Some [0; 0; 1; 1; 2; 2; 3; 3]%Z /\
  ranges.repeated_range [0; 1; 2; 3]%Z 3 =
    Some [0; 0; 0; 1; 1; 1; 2; 2; 2; 3; 3; 3]%Z /\
  thrust.strided_range [0; 1; 2; 3; 4; 5; 6]%Z 1 = Some [0; 1; 2; 3; 4; 5; 6]%Z /\
  thrust.strided_range [0; 1; 2; 3; 4; 5; 6]%Z 2 = Some [0; 2; 4; 6]%Z /\
  thrust.strided_range [0; 1; 2; 3; 4; 5; 6]%Z 3 = Some [0; 3; 6]%Z /\
  ranges.tiled_range [0; 1; 2; 3]%Z 1 = Some [0; 1; 2; 3]%Z /\
  ranges.tiled_range [0; 1; 2; 3]%Z 2 = Some [0; 1; 2; 3; 0; 1; 2; 3]%Z /\
  ranges.tiled_range [0; 1; 2; 3]%Z 3 =
    Some [0; 1; 2; 3; 0; 1; 2; 3; 0; 1; 2; 3]%Z.
Proof. repeat split; vm_compute; reflexivity. Qed.
End RangeRuns.

(** * Further properties of the dense grid graphs *)

Module GridFacts.
Import Graph GraphFacts GridVocabulary.

Section Adjacency.
Context {F : Type} `{Float32 F} `{!Construct}.
Local Open Scope Z_scope.

(** The offset tables list every neighbour. *)
Lemma voxel_offset_complete (o : Vector3i) :
  o ∈ voxel_offset <->
  o <> (0, 0, 0) /\ -1 <= o.1.1 <= 1 /\ -1 <= o.1.2 <= 1 /\ -1 <= o.2 <= 1.
Proof.
  split.
  - intros Ho. pose proof offsets_small as Hs. rewrite Forall_forall in Hs.
    split; [|exact (Hs _ Ho)].
    intros ->. revert Ho. apply (bool_decide_unpack _). vm_compute. exact I.
  - destruct o as [[a b] c]. simpl. intros (Hne & Ha & Hb & Hc).
    assert (a = -1 \/ a = 0 \/ a = 1) as Ha' by lia.
    assert (b = -1 \/ b = 0 \/ b = 1) as Hb' by lia.
    assert (c = -1 \/ c = 0 \/ c = 1) as Hc' by lia.
    destruct Ha' as [-> | [-> | ->]], Hb' as [-> | [-> | ->]], Hc' as [-> | [-> | ->]];
      try done; apply (bool_decide_unpack _); vm_compute; exact I.
Qed.

Lemma voxel_offset_2d_complete (o : Vector2i) :
  o ∈ voxel_offset_2d <->
  o <> (0, 0) /\ -1 <= o.1 <= 1 /\ -1 <= o.2 <= 1.
Proof.
  split.
  - intros Ho. pose proof offsets_2d_small as Hs. rewrite Forall_forall in Hs.
    split; [|exact (Hs _ Ho)].
    intros ->. revert Ho. apply (bool_decide_unpack _). vm_compute. exact I.
  - destruct o as [a b]. simpl. intros (Hne & Ha & Hb).
    assert (a = -1 \/ a = 0 \/ a = 1) as Ha' by lia.
    assert (b = -1 \/ b = 0 \/ b = 1) as Hb' by lia.
    destruct Ha' as [-> | [-> | ->]], Hb' as [-> | [-> | ->]];
      try done; apply (bool_decide_unpack _); vm_compute; exact I.
Qed.

Lemma at_index_lookup {A} (table : list A) (k : nat) (d x : A) :
  table !! k = Some x -> at_index table (Z.of_nat k) d = x.
Proof.
  intros Hk. unfold at_index. rewrite decide_True by lia.
  rewrite Nat2Z.id. now apply nth_lookup_Some.
Qed.

Lemma node3_range (r0 r1 r2 : Z) (c : Vector3i) :
  in_grid3 (r0, r1, r2) c -> 0 <= node3 (r0, r1, r2) c < r0 * r1 * r2.
Proof.
  destruct c as [[x y] z]. intros (Hx & Hy & Hz). unfold node3.
  assert (H12 : 0 < r1 * r2) by nia.
  assert (x * r1 * r2 <= (r0 - 1) * r1 * r2) by nia.
  assert (y * r2 <= (r1 - 1) * r2) by nia. nia.
Qed.

Lemma node3_inj (r0 r1 r2 : Z) (c d : Vector3i) :
  in_grid3 (r0, r1, r2) c -> in_grid3 (r0, r1, r2) d ->
  node3 (r0, r1, r2) c = node3 (r0, r1, r2) d -> c = d.
Proof.
  destruct c as [[x y] z], d as [[x' y'] z'].
  intros (Hx & Hy & Hz) (Hx' & Hy' & Hz'). unfold node3. intros Heq.
  assert (Hlast : forall a b, 0 <= b < r2 -> (a * r2 + b) `mod` r2 = b).
  { intros a b Hb. symmetry. apply Z.mod_unique with (q := a); lia. }
  assert (Hz2 : z = z').
  { rewrite <- (Hlast (x * r1 + y) z), <- (Hlast (x' * r1 + y') z') by lia.
    f_equal. lia. }
  subst z'.
  assert (Hxy : x * r1 + y = x' * r1 + y') by nia.
  assert (Hmid : forall a b, 0 <= b < r1 -> (a * r1 + b) `mod` r1 = b).
  { intros a b Hb. symmetry. apply Z.mod_unique with (q := a); lia. }
  assert (Hy2 : y = y').
  { rewrite <- (Hmid x y), <- (Hmid x' y') by lia. now f_equal. }
  subst y'. assert (x = x') by nia. now subst.
Qed.

Lemma node2_range (r0 r1 : Z) (c : Vector2i) :
  in_grid2 (r0, r1) c -> 0 <= node2 (r0, r1) c < r0 * r1.
Proof.
  destruct c as [x y]. intros (Hx & Hy). unfold node2. simpl in *.
  assert (x * r1 <= (r0 - 1) * r1) by nia. nia.
Qed.

Lemma node2_inj (r0 r1 : Z) (c d : Vector2i) :
  in_grid2 (r0, r1) c -> in_grid2 (r0, r1) d ->
  node2 (r0, r1) c = node2 (r0, r1) d -> c = d.
Proof.
  destruct c as [x y], d as [x' y'].
  intros (Hx & Hy) (Hx' & Hy'). unfold node2. simpl in *. intros Heq.
  assert (Hlast : forall a b, 0 <= b < r1 -> (a * r1 + b) `mod` r1 = b).
  { intros a b Hb. symmetry. apply Z.mod_unique with (q := a); lia. }
  assert (Hy2 : y = y').
  { rewrite <- (Hlast x y), <- (Hlast x' y') by lia. now f_equal. }
  subst y'. assert (x = x') by nia. now subst.
Qed.

(** The 3D line functor at the candidate [k] of the node [c]. *)
Lemma lines_functor3_at (r0 r1 r2 : Z) (c : Vector3i) (k : Z) :
  0 < r0 -> 0 < r1 -> 0 < r2 ->
  r0 * r1 * r2 <= INT_MAX -> r1 * r2 * 26 <= INT_MAX ->
  in_grid3 (r0, r1, r2) c -> 0 <= k < 26 ->
  let o := at_index voxel_offset k (0, 0, 0) in
  create_dense_grid_lines_functor3 (r0, r1, r2)
    (node3 (r0, r1, r2) c * 26 + k) =
    if decide (in_grid3 (r0, r1, r2) (shift3 c o))
    then (node3 (r0, r1, r2) c, node3 (r0, r1, r2) (shift3 c o))
    else (-1, -1).
Proof.
  destruct c as [[x y] z].
  intros Hr0 Hr1 Hr2 Hmax Hb1 (Hx & Hy & Hz) Hk o.
  assert (H12 : 0 < r1 * r2) by lia.
  assert (Hb2 : r2 * 26 <= INT_MAX) by nia.
  assert (Hb3 : r1 * r2 <= INT_MAX) by nia.
  assert (Hr : r0 <= INT_MAX /\ r1 <= INT_MAX /\ r2 <= INT_MAX) by nia.
  pose proof (at_index_In voxel_offset k (0, 0, 0) ltac:(simpl; lia)) as Hin.
  pose proof offsets_small as Hsmall. rewrite Forall_forall in Hsmall.
  specialize (Hsmall _ Hin). fold o in Hsmall, Hin.
  set (zk := z * 26 + k).
  set (yzk := y * (r2 * 26) + zk).
  assert (Hzk : 0 <= zk < r2 * 26) by (unfold zk; lia).
  assert (Hyzk : 0 <= yzk < r1 * r2 * 26) by (unfold yzk; nia).
  assert (Hidx : node3 (r0, r1, r2) (x, y, z) * 26 + k =
                 x * (r1 * r2 * 26) + yzk)
    by (unfold node3, yzk, zk; lia).
  unfold create_dense_grid_lines_functor3.
  rewrite (int_mul_id r1 r2) by lia.
  rewrite (int_mul_id (r1 * r2) 26) by lia.
  rewrite (int_mul_id r2 26) by lia.
  rewrite size_t_of_int_id by lia.
  rewrite Hidx.
  replace ((x * (r1 * r2 * 26) + yzk) `div` (r1 * r2 * 26)) with x
    by (apply Z.div_unique with (r := yzk); lia).
  replace ((x * (r1 * r2 * 26) + yzk) `mod` (r1 * r2 * 26)) with yzk
    by (apply Z.mod_unique with (q := x); lia).
  rewrite (int_wrap_id x), (int_wrap_id yzk) by lia.
  rewrite (Z.quot_div_nonneg yzk), (Z.rem_mod_nonneg yzk) by lia.
  replace (yzk `div` (r2 * 26)) with y
    by (apply Z.div_unique with (r := zk); unfold yzk; lia).
  replace (yzk `mod` (r2 * 26)) with zk
    by (apply Z.mod_unique with (q := y); unfold yzk; lia).
  rewrite (Z.quot_div_nonneg zk), (Z.rem_mod_nonneg zk) by lia.
  replace (zk `div` 26) with z
    by (apply Z.div_unique with (r := k); unfold zk; lia).
  replace (zk `mod` 26) with k
    by (apply Z.mod_unique with (q := z); unfold zk; lia).
  fold o. destruct o as [[ox oy] oz]. unfold shift3. simpl in Hsmall |- *.
  rewrite !int_wrap_small by (unfold INT_MAX in *; lia).
  case_decide as Hg.
  - destruct Hg as (Hg0 & Hg1 & Hg2).
    replace (x + ox <? 0) with false by (symmetry; apply Z.ltb_ge; lia).
    replace (r0 <=? x + ox) with false by (symmetry; apply Z.leb_gt; lia).
    replace (y + oy <? 0) with false by (symmetry; apply Z.ltb_ge; lia).
    replace (r1 <=? y + oy) with false by (symmetry; apply Z.leb_gt; lia).
    replace (z + oz <? 0) with false by (symmetry; apply Z.ltb_ge; lia).
    replace (r2 <=? z + oz) with false by (symmetry; apply Z.leb_gt; lia).
    simpl orb. cbv iota.
    assert (Hn : forall a b c, 0 <= a < r0 -> 0 <= b < r1 -> 0 <= c < r2 ->
                 0 <= a * r1 /\ a * r1 <= INT_MAX /\
                 0 <= a * r1 * r2 /\ a * r1 * r2 <= INT_MAX /\
                 0 <= b * r2 /\ b * r2 <= INT_MAX /\
                 0 <= a * r1 * r2 + b * r2 /\
                 a * r1 * r2 + b * r2 <= INT_MAX /\
                 a * r1 * r2 + b * r2 + c <= INT_MAX).
    { intros a b c Ha Hb Hc.
      assert (a * r1 <= (r0 - 1) * r1) by nia.
      assert (a * r1 * r2 <= (r0 - 1) * r1 * r2) by nia.
      assert (b * r2 <= (r1 - 1) * r2) by nia.
      assert (r1 * r2 <= r0 * r1 * r2) by nia.
      repeat split; nia. }
    pose proof (Hn x y z ltac:(lia) ltac:(lia) ltac:(lia)) as Hs.
    pose proof (Hn (x + ox) (y + oy) (z + oz) ltac:(lia) ltac:(lia) ltac:(lia)) as Ht.
    unfold int_mul, node3.
    rewrite !(int_wrap_id (x * r1)), !(int_wrap_id ((x + ox) * r1)) by lia.
    rewrite !(int_wrap_id (x * r1 * r2)), !(int_wrap_id ((x + ox) * r1 * r2)) by lia.
    rewrite !(int_wrap_id (y * r2)), !(int_wrap_id ((y + oy) * r2)) by lia.
    rewrite !(int_wrap_id (x * r1 * r2 + y * r2)),
            !(int_wrap_id ((x + ox) * r1 * r2 + (y + oy) * r2)) by lia.
    rewrite !int_wrap_id by lia. reflexivity.
  - assert (Hout : (x + ox <? 0) || (r0 <=? x + ox) || (y + oy <? 0) ||
                   (r1 <=? y + oy) || (z + oz <? 0) || (r2 <=? z + oz) = true).
    { unfold in_grid3 in Hg.
      rewrite !orb_true_iff, !Z.ltb_lt, !Z.leb_le. lia. }
    now rewrite Hout.
Qed.

(** The 2D line functor at the candidate [k] of the node [c]. *)
Lemma lines_functor2_at (r0 r1 : Z) (c : Vector2i) (k : Z) :
  0 < r0 -> 0 < r1 -> r0 * r1 <= INT_MAX -> r1 * 8 <= INT_MAX ->
  in_grid2 (r0, r1) c -> 0 <= k < 8 ->
  let o := at_index voxel_offset_2d k (0, 0) in
  create_dense_grid_lines_functor2 (r0, r1) (node2 (r0, r1) c * 8 + k) =
    if decide (in_grid2 (r0, r1) (shift2 c o))
    then (node2 (r0, r1) c, node2 (r0, r1) (shift2 c o))
    else (-1, -1).
Proof.
  destruct c as [x y].
  intros Hr0 Hr1 Hmax Hb1 (Hx & Hy) Hk o. simpl in Hx, Hy.
  assert (Hr : r0 <= INT_MAX /\ r1 <= INT_MAX) by nia.
  pose proof (at_index_In voxel_offset_2d k (0, 0) ltac:(simpl; lia)) as Hin.
  pose proof offsets_2d_small as Hsmall. rewrite Forall_forall in Hsmall.
  specialize (Hsmall _ Hin). fold o in Hsmall, Hin.
  set (yk := y * 8 + k).
  assert (Hyk : 0 <= yk < r1 * 8) by (unfold yk; lia).
  assert (Hidx : node2 (r0, r1) (x, y) * 8 + k = x * (r1 * 8) + yk)
    by (unfold node2, yk; simpl; lia).
  unfold create_dense_grid_lines_functor2.
  rewrite (int_mul_id r1 8) by lia.
  rewrite size_t_of_int_id by lia.
  rewrite Hidx.
  replace ((x * (r1 * 8) + yk) `div` (r1 * 8)) with x
    by (apply Z.div_unique with (r := yk); lia).
  replace ((x * (r1 * 8) + yk) `mod` (r1 * 8)) with yk
    by (apply Z.mod_unique with (q := x); lia).
  rewrite (int_wrap_id x), (int_wrap_id yk) by lia.
  rewrite (Z.quot_div_nonneg yk), (Z.rem_mod_nonneg yk) by lia.
  replace (yk `div` 8) with y
    by (apply Z.div_unique with (r := k); unfold yk; lia).
  replace (yk `mod` 8) with k
    by (apply Z.mod_unique with (q := y); unfold yk; lia).
  fold o. destruct o as [ox oy]. unfold shift2. simpl in Hsmall |- *.
  rewrite !(int_wrap_small (x + ox)), !(int_wrap_small (y + oy))
    by (unfold INT_MAX in *; lia).
  unfold in_grid2, node2. simpl.
  case_decide as Hg.
  - destruct Hg as (Hg0 & Hg1).
    replace (x + ox <? 0) with false by (symmetry; apply Z.ltb_ge; lia).
    replace (r0 <=? x + ox) with false by (symmetry; apply Z.leb_gt; lia).
    replace (y + oy <? 0) with false by (symmetry; apply Z.ltb_ge; lia).
    replace (r1 <=? y + oy) with false by (symmetry; apply Z.leb_gt; lia).
    simpl orb. cbv iota.
    assert (Hn : forall a b, 0 <= a < r0 -> 0 <= b < r1 ->
                 0 <= a * r1 /\ a * r1 <= INT_MAX /\ a * r1 + b <= INT_MAX).
    { intros a b Ha Hb. assert (a * r1 <= (r0 - 1) * r1) by nia.
      repeat split; nia. }
    pose proof (Hn x y ltac:(lia) ltac:(lia)) as Hs.
    pose proof (Hn (x + ox) (y + oy) ltac:(lia) ltac:(lia)) as Ht.
    unfold int_mul.
    rewrite !(int_wrap_id (x * r1)), !(int_wrap_id ((x + ox) * r1)) by lia.
    rewrite !int_wrap_id by lia. reflexivity.
  - assert (Hout : (x + ox <? 0) || (r0 <=? x + ox) || (y + oy <? 0) ||
                   (r1 <=? y + oy) = true).
    { rewrite !orb_true_iff, !Z.ltb_lt, !Z.leb_le. lia. }
    now rewrite Hout.
Qed.

Lemma elem_of_kept (lfunc : Z -> Vector2i) (n idx : Z) :
  0 <= idx < n -> 0 <= (lfunc idx).1 ->
  lfunc idx ∈ List.filter (fun l : Vector2i => negb (l.1 <? 0))
                (lfunc <$> seqZ 0 n).
Proof.
  intros Hidx Hpos. apply list_elem_of_In, filter_In. split.
  - apply list_elem_of_In, list_elem_of_fmap. exists idx.
    split; [done|]. apply elem_of_seqZ. lia.
  - apply negb_true_iff, Z.ltb_ge. exact Hpos.
Qed.

(** The lines that the factory hands to [ConstructGraph], in 3D. *)
Lemma kept_lines3 (r0 r1 r2 : Z) (a b : Z) :
  0 < r0 -> 0 < r1 -> 0 < r2 ->
  r0 * r1 * r2 <= INT_MAX -> r1 * r2 * 26 <= INT_MAX ->
  (a, b) ∈ List.filter (fun l : Vector2i => negb (l.1 <? 0))
             (create_dense_grid_lines_functor3 (r0, r1, r2)
                <$> seqZ 0 (r0 * r1 * r2 * 26)) <->
  exists c o, in_grid3 (r0, r1, r2) c /\ o ∈ voxel_offset /\
              in_grid3 (r0, r1, r2) (shift3 c o) /\
              a = node3 (r0, r1, r2) c /\
              b = node3 (r0, r1, r2) (shift3 c o).
Proof.
  intros Hr0 Hr1 Hr2 Hmax Hdiv. split.
  - intros Hab.
    apply elem_of_kept_lines in Hab as (Hpos & idx & Hidx & Heq).
    destruct (lines_functor3_spec r0 r1 r2 idx)
      as (x & y & z & o & Hc & Ho & Hl); [lia..|].
    rewrite Hl in Heq. case_decide as Hg; [|simplify_eq; simpl in *; lia].
    exists (x, y, z), o. unfold shift3. simpl. simplify_eq. done.
  - intros (c & o & Hc & Ho & Hco & -> & ->).
    apply list_elem_of_lookup in Ho as [k Hk].
    assert (Hk26 : (k < 26)%nat) by (apply lookup_lt_Some in Hk; exact Hk).
    pose proof (lines_functor3_at r0 r1 r2 c (Z.of_nat k) Hr0 Hr1 Hr2 Hmax Hdiv Hc
                  ltac:(lia)) as Hat.
    cbv zeta in Hat. rewrite (at_index_lookup _ _ _ _ Hk) in Hat.
    rewrite decide_True in Hat by done. rewrite <- Hat.
    pose proof (node3_range r0 r1 r2 c Hc) as Hn.
    apply elem_of_kept; [lia|]. rewrite Hat. cbn [fst]. lia.
Qed.

Lemma kept_lines2 (r0 r1 : Z) (a b : Z) :
  0 < r0 -> 0 < r1 -> r0 * r1 <= INT_MAX -> r1 * 8 <= INT_MAX ->
  (a, b) ∈ List.filter (fun l : Vector2i => negb (l.1 <? 0))
             (create_dense_grid_lines_functor2 (r0, r1)
                <$> seqZ 0 (r0 * r1 * 8)) <->
  exists c o, in_grid2 (r0, r1) c /\ o ∈ voxel_offset_2d /\
              in_grid2 (r0, r1) (shift2 c o) /\
              a = node2 (r0, r1) c /\ b = node2 (r0, r1) (shift2 c o).
Proof.
  intros Hr0 Hr1 Hmax Hdiv. split.
  - intros Hab.
    apply elem_of_kept_lines in Hab as (Hpos & idx & Hidx & Heq).
    destruct (lines_functor2_spec r0 r1 idx)
      as (x & y & o & Hc & Ho & Hl); [lia..|].
    rewrite Hl in Heq. case_decide as Hg; [|simplify_eq; simpl in *; lia].
    exists (x, y), o. unfold shift2. simpl. simplify_eq. done.
  - intros (c & o & Hc & Ho & Hco & -> & ->).
    apply list_elem_of_lookup in Ho as [k Hk].
    assert (Hk8 : (k < 8)%nat) by (apply lookup_lt_Some in Hk; exact Hk).
    pose proof (lines_functor2_at r0 r1 c (Z.of_nat k) Hr0 Hr1 Hmax Hdiv Hc
                  ltac:(lia)) as Hat.
    cbv zeta in Hat. rewrite (at_index_lookup _ _ _ _ Hk) in Hat.
    rewrite decide_True in Hat by done. rewrite <- Hat.
    pose proof (node2_range r0 r1 c Hc) as Hn.
    apply elem_of_kept; [lia|]. rewrite Hat. cbn [fst]. lia.
Qed.

Lemma adjacent3_offset (c d : Vector3i) :
  adjacent3 c d <-> exists o, o ∈ voxel_offset /\ d = shift3 c o.
Proof.
  destruct c as [[x y] z], d as [[x' y'] z']. unfold adjacent3, shift3. simpl.
  split.
  - intros (Hne & Hx & Hy & Hz). exists (x' - x, y' - y, z' - z). split.
    + apply voxel_offset_complete. simpl. split; [|lia].
      intros Ho. apply Hne. simplify_eq. f_equal; [f_equal|]; lia.
    + cbn. f_equal; [f_equal|]; lia.
  - intros ([[ox oy] oz] & Ho & Heq). simpl in Heq. simplify_eq.
    apply voxel_offset_complete in Ho as (Hne & Hx & Hy & Hz). simpl in *.
    split; [|lia]. intros Heq. apply Hne. simplify_eq.
    f_equal; [f_equal|]; lia.
Qed.

Lemma adjacent2_offset (c d : Vector2i) :
  adjacent2 c d <-> exists o, o ∈ voxel_offset_2d /\ d = shift2 c o.
Proof.
  destruct c as [x y], d as [x' y']. unfold adjacent2, shift2. simpl.
  split.
  - intros (Hne & Hx & Hy). exists (x' - x, y' - y). split.
    + apply voxel_offset_2d_complete. simpl. split; [|lia].
      intros Ho. apply Hne. simplify_eq. f_equal; lia.
    + cbn. f_equal; lia.
  - intros ([ox oy] & Ho & Heq). simpl in Heq. simplify_eq.
    apply voxel_offset_2d_complete in Ho as (Hne & Hx & Hy). simpl in *.
    split; [|lia]. intros Heq. apply Hne. simplify_eq. f_equal; lia.
Qed.

Lemma adjacent3_sym (c d : Vector3i) : adjacent3 c d -> adjacent3 d c.
Proof. unfold adjacent3. intros (Hne & ?). split; [congruence|lia]. Qed.

Lemma adjacent2_sym (c d : Vector2i) : adjacent2 c d -> adjacent2 d c.
Proof. unfold adjacent2. intros (Hne & ?). split; [congruence|lia]. Qed.

(** The dense grid joins exactly the neighbouring nodes.  For positive
    resolutions whose product fits an [int], as does the divisor
    [resolutions[1] * resolutions[2] * 26] (in 2D: [resolutions[1] * 8])
    of the line functor, and a [ConstructGraph] that keeps every line it
    is given and adds at most reversed ones, two nodes of the grid are
    joined by a line if and only if their grid coordinates are different
    and differ by at most one along every axis; so the lines are
    symmetric, none joins a node to itself, and no neighbour is missed.
    In 3D and in 2D. *)
Theorem dense_grid_adjacency :
  (forall P (g : Graph P) i j,
     (i, j) ∈ lines_ (ConstructGraph P g) ->
     (i, j) ∈ lines_ g \/ (j, i) ∈ lines_ g) ->
  (forall P (g : Graph P) l, l ∈ lines_ g -> l ∈ lines_ (ConstructGraph P g)) ->
  (forall (min_bound max_bound : Vector3f F) (r0 r1 r2 : Z),
     0 < r0 -> 0 < r1 -> 0 < r2 ->
     r0 * r1 * r2 <= INT_MAX -> r1 * r2 * 26 <= INT_MAX ->
     let resolutions : Vector3i := (r0, r1, r2) in
     exists g,
       CreateFromAxisAlignedBoundingBox3 min_bound max_bound resolutions =
         Some g /\
       forall c d, in_grid3 resolutions c -> in_grid3 resolutions d ->
         ((node3 resolutions c, node3 resolutions d) ∈ lines_ g <->
          adjacent3 c d)) /\
  (forall (min_bound max_bound : Vector2f F) (r0 r1 : Z),
     0 < r0 -> 0 < r1 -> r0 * r1 <= INT_MAX -> r1 * 8 <= INT_MAX ->
     let resolutions : Vector2i := (r0, r1) in
     exists g,
       CreateFromAxisAlignedBoundingBox2 min_bound max_bound resolutions =
         Some g /\
       forall c d, in_grid2 resolutions c -> in_grid2 resolutions d ->
         ((node2 resolutions c, node2 resolutions d) ∈ lines_ g <->
          adjacent2 c d)).
Proof.
  intros Hsound Hkeep. split.
  - intros min_bound max_bound r0 r1 r2 Hr0 Hr1 Hr2 Hmax Hdiv resolutions.
    assert (H01 : 0 < r0 * r1) by lia.
    assert (Hn : 0 < r0 * r1 * r2) by lia.
    assert (Hb : r0 * r1 <= INT_MAX /\ r0 * r1 * r2 <= INT_MAX)
      by (split; nia).
    assert (H64 : r0 * r1 * r2 * 26 < 2 ^ 64)
      by (unfold INT_MAX in *; lia).
    unfold CreateFromAxisAlignedBoundingBox3, resolutions.
    rewrite (int_mul_id r0 r1), (int_mul_id (r0 * r1) r2) by lia.
    change (at_index NUM_OFFSET (3 - 2) 0) with 26.
    rewrite create_dense_grid_spec by lia.
    eexists. split; [reflexivity|].
    intros c d Hc Hd. split.
    + intros Hl. apply Hsound in Hl. cbn [lines_] in Hl.
      destruct Hl as [Hl|Hl];
        apply kept_lines3 in Hl as (c' & o & Hc' & Ho & Hco & Ha & Hb');
        try done.
      * apply node3_inj in Ha; [|done..]. subst c'.
        apply node3_inj in Hb'; [|done..].
        apply adjacent3_offset. eauto.
      * apply node3_inj in Ha; [|done..]. subst c'.
        apply node3_inj in Hb'; [|done..].
        apply adjacent3_sym, adjacent3_offset. eauto.
    + intros (o & Ho & ->)%adjacent3_offset.
      apply Hkeep. cbn [lines_]. apply kept_lines3; [done..|].
      exists c, o. auto.
  - intros min_bound max_bound r0 r1 Hr0 Hr1 Hmax Hdiv resolutions.
    assert (Hn : 0 < r0 * r1) by lia.
    assert (Hb : r0 * r1 <= INT_MAX) by nia.
    assert (H64 : r0 * r1 * 8 < 2 ^ 64) by (unfold INT_MAX in *; lia).
    unfold CreateFromAxisAlignedBoundingBox2, resolutions.
    rewrite (int_mul_id r0 r1) by lia.
    change (at_index NUM_OFFSET (2 - 2) 0) with 8.
    rewrite create_dense_grid_spec by lia.
    eexists. split; [reflexivity|].
    intros c d Hc Hd. split.
    + intros Hl. apply Hsound in Hl. cbn [lines_] in Hl.
      destruct Hl as [Hl|Hl];
        apply kept_lines2 in Hl as (c' & o & Hc' & Ho & Hco & Ha & Hb');
        try done.
      * apply node2_inj in Ha; [|done..]. subst c'.
        apply node2_inj in Hb'; [|done..].
        apply adjacent2_offset. eauto.
      * apply node2_inj in Ha; [|done..]. subst c'.
        apply node2_inj in Hb'; [|done..].
        apply adjacent2_sym, adjacent2_offset. eauto.
    + intros (o & Ho & ->)%adjacent2_offset.
      apply Hkeep. cbn [lines_]. apply kept_lines2; [done..|].
      exists c, o. auto.
Qed.
End Adjacency.
End GridFacts.

Section MoreGraphRuns.
Import Exact Graph GraphFacts GridVocabulary GridFacts.
#[local] Existing Instance Q_Float32.
#[local] Existing Instance plain_construct.
Local Open Scope Z_scope.

Lemma dense_grid_adjacency_witness :
  (exists g,
     CreateFromAxisAlignedBoundingBox3 (pt 0 0 0) (pt 2 2 2) (2, 1, 1) =
       Some g /\
     forall c d, in_grid3 (2, 1, 1) c -> in_grid3 (2, 1, 1) d ->
       ((node3 (2, 1, 1) c, node3 (2, 1, 1) d) ∈ lines_ g <->
        adjacent3 c d)) /\
  (exists g,
     CreateFromAxisAlignedBoundingBox2 (0%Q, 0%Q) (2%Q, 2%Q) (2, 2) =
       Some g /\
     forall c d, in_grid2 (2, 2) c -> in_grid2 (2, 2) d ->
       ((node2 (2, 2) c, node2 (2, 2) d) ∈ lines_ g <-> adjacent2 c d)).
Proof.
  destruct (dense_grid_adjacency (F := Q)) as [H3 H2].
  - intros P g i j Hij. left. exact Hij.
  - intros P g l Hl. exact Hl.
  - split.
    + apply (H3 (pt 0 0 0) (pt 2 2 2) 2 1 1); [lia|lia|lia| |];
        vm_compute; discriminate.
    + apply (H2 (0%Q, 0%Q) (2%Q, 2%Q) 2 2); [lia|lia| |];
        vm_compute; discriminate.
Defined.
End MoreGraphRuns.

(** * The conversion of numpy arrays *)

Section Arrays.
Context {T : Type}.
Import pybind.
Implicit Types (array : array_t T) (data : list T).

Lemma concat_chunks (d n : nat) data :
  length data = n * d -> concat (chunk d data <$> seq 0 n) = data.
Proof.
  revert data. induction n as [|n IH]; intros data Hlen.
  - now apply nil_length_inv in Hlen.
  - cbn [seq fmap list_fmap concat]. unfold chunk at 1. rewrite drop_0.
    rewrite <- (take_drop d data) at 3. f_equal.
    rewrite <- (IH (drop d data)) by (rewrite length_drop; lia).
    rewrite <- fmap_S_seq, <- list_fmap_compose. f_equal.
    apply list_fmap_ext. intros _ j _. unfold chunk, compose.
    rewrite drop_drop. do 2 f_equal; lia.
Qed.

Lemma length_chunk (d : nat) data (j n : nat) :
  length data = n * d -> j < n -> length (chunk d data j) = d.
Proof.
  intros Hlen Hj. unfold chunk. rewrite length_take, length_drop. nia.
Qed.

Lemma Map_chunk array (d n i : nat) :
  shape array 1 = Z.of_nat d -> length (data_ array) = n * d -> i < n ->
  Map (Z.of_nat d) array (Z.of_nat i) = Some (chunk d (data_ array) i).
Proof.
  intros Hs Hlen Hi. unfold Map, read_n. rewrite Hs, Nat2Z.id.
  replace (Z.to_nat (Z.of_nat i * Z.of_nat d)) with (i * d) by lia.
  rewrite decide_True by (rewrite length_drop; nia). reflexivity.
Qed.

Lemma assign_rows_run array (d n : nat) (k i : nat) (vs : list (list T)) :
  shape array 0 = Z.of_nat n -> shape array 1 = Z.of_nat d ->
  length (data_ array) = n * d -> (Z.of_nat n <= INT_MAX)%Z ->
  i + k = n -> length vs = n ->
  assign_rows (Z.of_nat d) array k (Z.of_nat i) vs =
    Some (take i vs ++ (chunk d (data_ array) <$> seq i k)).
Proof.
  intros Hn Hd Hlen Hfit. revert i vs.
  induction k as [|k IH]; intros i vs Hik Hvs; cbn [assign_rows]; rewrite Hn.
  - replace ((Z.of_nat i <? Z.of_nat n)%Z) with false
      by (symmetry; apply Z.ltb_ge; lia).
    cbn. rewrite app_nil_r, take_ge by lia. reflexivity.
  - replace ((Z.of_nat i <? Z.of_nat n)%Z) with true
      by (symmetry; apply Z.ltb_lt; lia).
    rewrite (Map_chunk array d n i) by (done || lia). cbn [mbind option_bind].
    rewrite Nat2Z.id, decide_True by lia.
    rewrite int_wrap_small by (unfold INT_MAX in *; lia).
    replace (Z.of_nat i + 1)%Z with (Z.of_nat (S i)) by lia.
    rewrite IH by (rewrite ?length_insert; lia).
    f_equal. cbn [seq fmap list_fmap].
    rewrite (take_S_r _ _ (chunk d (data_ array) i))
      by (apply list_lookup_insert_eq; lia).
    rewrite take_insert_ge by lia. now rewrite <- app_assoc.
Qed.

(** The conversion accepts exactly the writeable arrays of shape
    [(n, size)]: any other number of dimensions or row length raises
    [py::cast_error]; an [n x size] array that is not writeable raises
    [std::domain_error] (from [mutable_unchecked]); a writeable
    [n x size] array (with [n] within [int], the type of the loop
    counter) gives [n] vectors of [size] scalars, the rows of the array
    in order, whatever the new vectors held before; joined end to end
    they are the buffer of the array again. *)
Theorem py_array_to_vectors_rows (eigen_vector_size : Z)
    (fresh_vector : list T) array :
  well_formed array ->
  (shape array 0 <= INT_MAX)%Z ->
  (ndim array <> 2%Z \/ shape array 1 <> eigen_vector_size ->
   py_array_to_vectors eigen_vector_size fresh_vector array =
     Throw "cast_error" tt) /\
  (ndim array = 2%Z -> shape array 1 = eigen_vector_size ->
   writeable_ array = false ->
   py_array_to_vectors eigen_vector_size fresh_vector array =
     Throw "domain_error" tt) /\
  (ndim array = 2%Z -> shape array 1 = eigen_vector_size ->
   writeable_ array = true ->
   exists rows,
     py_array_to_vectors eigen_vector_size fresh_vector array = Ok rows tt /\
     vsize rows = shape array 0 /\
     Forall (fun r => vsize r = eigen_vector_size) rows /\
     (forall i r, rows !! i = Some r ->
        r = take (Z.to_nat eigen_vector_size)
              (drop (i * Z.to_nat eigen_vector_size) (data_ array))) /\
     concat rows = data_ array).
Proof.
  intros [Hpos Hdata] Hfit. split; [|split].
  - intros Hbad. unfold py_array_to_vectors.
    destruct Hbad as [Hd|Hs].
    + apply Z.eqb_neq in Hd. now rewrite Hd.
    + apply Z.eqb_neq in Hs. rewrite Hs. now rewrite orb_true_r.
  - intros Hd Hs Hw. unfold py_array_to_vectors, mutable_unchecked.
    rewrite Hd, Hs, Hw, !Z.eqb_refl. reflexivity.
  - intros Hd Hs Hw. unfold py_array_to_vectors, mutable_unchecked.
    rewrite Hd, Hs, Hw, !Z.eqb_refl. cbn [negb orb].
    destruct array as [sh data wr]. unfold ndim, shape, vsize in *. cbn in *.
    destruct sh as [|n0 [|d0 [|? ?]]]; cbn in Hd; try lia.
    cbn in Hs, Hdata, Hfit |- *. subst d0.
    apply Forall_cons in Hpos as [Hn0 Hpos].
    apply Forall_cons in Hpos as [Hd0 _].
    set (n := Z.to_nat n0). set (d := Z.to_nat eigen_vector_size).
    assert (Hn : n0 = Z.of_nat n) by (unfold n; lia).
    assert (Hdz : eigen_vector_size = Z.of_nat d) by (unfold d; lia).
    assert (Hlen : length data = n * d) by nia.
    rewrite size_t_wrap_small by (unfold INT_MAX in *; lia).
    pose proof (assign_rows_run (mk_array [n0; eigen_vector_size] data wr)
                  d n n 0 (device_vector n0 fresh_vector)) as Hrun.
    rewrite <- Hdz in Hrun. change (Z.of_nat 0) with 0%Z in Hrun.
    rewrite Hrun
      by (unfold shape, device_vector; cbn;
          rewrite ?length_replicate; lia).
    rewrite take_0, app_nil_l.
    eexists. split; [reflexivity|]. cbn [data_].
    split; [rewrite length_fmap, length_seq; lia|]. split; [|split].
    + apply Forall_fmap, Forall_forall. intros j Hj%elem_of_seq. simpl.
      rewrite (length_chunk d data j n) by lia. lia.
    + intros i r Hi. rewrite list_lookup_fmap in Hi.
      apply fmap_Some in Hi as (j & Hj & ->).
      apply lookup_seq in Hj as [-> _]. reflexivity.
    + now apply concat_chunks.
Qed.
End Arrays.

Section ArrayRuns.
Import pybind.

Lemma py_array_to_vectors_rows_witness :
  let array := mk_array [2; 3]%Z [10; 11; 12; 20; 21; 22]%Z true in
  (ndim array <> 2%Z \/ shape array 1 <> 3%Z ->
   py_array_to_vectors 3 [] array = Throw "cast_error" tt) /\
  (ndim array = 2%Z -> shape array 1 = 3%Z -> writeable_ array = false ->
   py_array_to_vectors 3 [] array = Throw "domain_error" tt) /\
  (ndim array = 2%Z -> shape array 1 = 3%Z -> writeable_ array = true ->
   exists rows,
     py_array_to_vectors 3 [] array = Ok rows tt /\
     vsize rows = shape array 0 /\
     Forall (fun r => vsize r = 3%Z) rows /\
     (forall i r, rows !! i = Some r ->
        r = take (Z.to_nat 3) (drop (i * Z.to_nat 3) (data_ array))) /\
     concat rows = data_ array).
Proof.
  apply (py_array_to_vectors_rows 3 []
           (mk_array [2; 3]%Z [10; 11; 12; 20; 21; 22]%Z true)).
  - split; [repeat constructor; lia|reflexivity].
  - vm_compute. discriminate.
Defined.

(** A writeable [2 x 3] array becomes two vectors; the same buffer
    offered as [3 x 2], or as one dimension, is refused where three
    scalars per vector are expected, and so is a [2 x 3] array that is
    read-only. *)
Example py_array_to_vectors_shapes :
  py_array_to_vectors 3 [0; 0; 0]%Z
    (mk_array [2; 3]%Z [10; 11; 12; 20; 21; 22]%Z true) =
    Ok [[10; 11; 12]; [20; 21; 22]]%Z tt /\
  py_array_to_vectors 3 [0; 0; 0]%Z
    (mk_array [3; 2]%Z [10; 11; 12; 20; 21; 22]%Z true) =
    Throw "cast_error" tt /\
  py_array_to_vectors 3 [0; 0; 0]%Z
    (mk_array [6]%Z [10; 11; 12; 20; 21; 22]%Z true) =
    Throw "cast_error" tt /\
  py_array_to_vectors 3 [0; 0; 0]%Z
    (mk_array [2; 3]%Z [10; 11; 12; 20; 21; 22]%Z false) =
    Throw "domain_error" tt.
Proof. repeat split; vm_compute; reflexivity. Qed.
End ArrayRuns.

(** * Reading and writing point clouds *)

Section PointCloudIOFacts.
Context {F : Type} `{Float32 F} `{!PointCloudFiles F}.
Import io.

Lemma read_function_unknown (ext : string) :
  ext <> "ply"%string -> ext <> "pcd"%string ->
  file_extension_to_pointcloud_read_function !! ext = None.
Proof.
  intros Hply Hpcd. unfold file_extension_to_pointcloud_read_function.
  rewrite lookup_insert_ne by done. now apply lookup_singleton_ne.
Qed.

Lemma write_function_unknown (ext : string) :
  ext <> "ply"%string -> ext <> "pcd"%string ->
  file_extension_to_pointcloud_write_function !! ext = None.
Proof.
  intros Hply Hpcd. unfold file_extension_to_pointcloud_write_function.
  rewrite lookup_insert_ne by done. now apply lookup_singleton_ne.
Qed.

Lemma ReadPointCloud_unknown_run filename pointcloud format nan inf progress
    (w : world F) :
  let filename_ext :=
    if String.eqb format "auto"
    then GetFileExtensionInLowerCase filename else format in
  filename_ext <> "ply"%string -> filename_ext <> "pcd"%string ->
  ReadPointCloud filename pointcloud format nan inf progress w =
    Ok false
      (logged
         (Msg Warning
            "Read geometry::PointCloud failed: unknown file extension.\n")
         w).
Proof.
  intros ext Hply Hpcd. unfold ReadPointCloud. fold ext.
  rewrite (read_function_unknown ext Hply Hpcd).
  now destruct (String.eqb ext "").
Qed.

(** Only [ply] and [pcd] are read.  With any other format, or with
    [format = "auto"] and a file name of any other (or no) extension,
    [ReadPointCloud] answers [false] after one warning: no reader runs,
    the cloud is not touched and no point is removed from it. *)
Theorem ReadPointCloud_unsupported (filename : string) (pointcloud : loc)
    (format : string)
    (remove_nan_points remove_infinite_points print_progress : bool)
    (w : world F) :
  let filename_ext :=
    if String.eqb format "auto"
    then GetFileExtensionInLowerCase filename else format in
  filename_ext <> "ply"%string -> filename_ext <> "pcd"%string ->
  ReadPointCloud filename pointcloud format remove_nan_points
    remove_infinite_points print_progress w =
    Ok false
      (logged
         (Msg Warning
            "Read geometry::PointCloud failed: unknown file extension.\n")
         w).
Proof.
  intros ext Hply Hpcd. now apply ReadPointCloud_unknown_run.
Qed.

(** Only [ply] and [pcd] are written: for a file name of any other (or
    no) extension [WritePointCloud] answers [false] after one warning and
    no writer runs. *)
Theorem WritePointCloud_unsupported (filename : string) (pointcloud : loc)
    (write_ascii compressed print_progress : bool) (w : world F) :
  GetFileExtensionInLowerCase filename <> "ply"%string ->
  GetFileExtensionInLowerCase filename <> "pcd"%string ->
  WritePointCloud filename pointcloud write_ascii compressed
    print_progress w =
    Ok false
      (logged
         (Msg Warning
            "Write geometry::PointCloud failed: unknown file extension.\n")
         w).
Proof.
  intros Hply Hpcd. unfold WritePointCloud.
  rewrite (write_function_unknown _ Hply Hpcd).
  now destruct (String.eqb (GetFileExtensionInLowerCase filename) "").
Qed.

(** [CreatePointCloudFromFile] does not tell a failed read from an empty
    file: for an unsupported format it returns a new, empty cloud, and
    the only trace of the failure is the warning on the console. *)
Theorem CreatePointCloudFromFile_unsupported (filename format : string)
    (print_progress : bool) (w : world F) :
  let filename_ext :=
    if String.eqb format "auto"
    then GetFileExtensionInLowerCase filename else format in
  filename_ext <> "ply"%string -> filename_ext <> "pcd"%string ->
  let output := fresh (dom (heap w)) in
  CreatePointCloudFromFile filename format print_progress w =
    Ok output
      (logged
         (Msg Warning
            "Read geometry::PointCloud failed: unknown file extension.\n")
         (set_cloud output empty_cloud w)).
Proof.
  intros ext Hply Hpcd output. unfold CreatePointCloudFromFile.
  rewrite (bind_Ok _ _ _ _ _ (make_shared_run w)). fold output.
  erewrite bind_Ok by (now apply ReadPointCloud_unknown_run).
  reflexivity.
Qed.
End PointCloudIOFacts.

Section PointCloudIORuns.
Import Exact Files io.
#[local] Existing Instance Q_Float32.
#[local] Existing Instance files.

Lemma ReadPointCloud_unsupported_witness :
  ReadPointCloud "scan.PLY.xyz" 0 "auto" true true false
    (world_with three_points) =
    Ok false
      (logged
         (Msg Warning
            "Read geometry::PointCloud failed: unknown file extension.\n")
         (world_with three_points)).
Proof.
  apply (ReadPointCloud_unsupported "scan.PLY.xyz" 0 "auto" true true false
           (world_with three_points)); vm_compute; discriminate.
Defined.

Lemma WritePointCloud_unsupported_witness :
  WritePointCloud "cloud" 0 false false false (world_with three_points) =
    Ok false
      (logged
         (Msg Warning
            "Write geometry::PointCloud failed: unknown file extension.\n")
         (world_with three_points)).
Proof.
  apply (WritePointCloud_unsupported "cloud" 0 false false false
           (world_with three_points)); vm_compute; discriminate.
Defined.

Lemma CreatePointCloudFromFile_unsupported_witness :
  CreatePointCloudFromFile "scan.ply" "obj" false (world_with three_points) =
    Ok 1
      (logged
         (Msg Warning
            "Read geometry::PointCloud failed: unknown file extension.\n")
         (set_cloud 1 empty_cloud (world_with three_points))).
Proof.
  apply (CreatePointCloudFromFile_unsupported "scan.ply" "obj" false
           (world_with three_points)); vm_compute; discriminate.
Defined.

(** With a supported format the reader of that format runs, whatever the
    file is called. *)
Example ReadPointCloud_by_format :
  ReadPointCloud "scan.xyz" 0 "PLY" true true false (world_with three_points) =
    Ok false
      (logged
         (Msg Warning
            "Read geometry::PointCloud failed: unknown file extension.\n")
         (world_with three_points)) /\
  exists w',
    ReadPointCloud "scan.xyz" 0 "ply" false false false
      (world_with three_points) = Ok true w' /\
    heap w' !! 0 = Some one_point.
Proof.
  split; [vm_compute; reflexivity|].
  eexists. split; vm_compute; reflexivity.
Qed.
End PointCloudIORuns.

(** ** C6: the input after a reduction, and the calls that return *)

Section C6_total.
Context {F : Type} `{Float32 F} `{!Platform F}.
Implicit Types (w : world F) (pc : PointCloud F).
Import thrust thrust_facts.
Local Open Scope Z_scope.

(** A run that does not leave a buffer needs no allowance for it. *)
Lemma wp_returns {A} (m : M F A) (Q : A -> world F -> Prop)
    (E : world F -> Prop) w :
  wp True m Q E w -> m w <> Fault -> wp False m Q E w.
Proof. unfold wp. destruct (m w); [auto|auto|]. intros _ Hf. now apply Hf. Qed.

Lemma VoxelDownSample_returns this (voxel_size : F) pc w :
  heap w !! this = Some pc ->
  vsize (points_ pc) <= INT_MAX ->
  exists w', VoxelDownSample this voxel_size w = Ok (fresh (dom (heap w))) w'.
Proof.
  intros Hthis Hfit. set (output := fresh (dom (heap w))).
  assert (Hne : output <> this)
    by (apply not_eq_sym; eapply fresh_ne; eauto).
  destruct (fleb voxel_size F0) eqn:Hle.
  { unfold VoxelDownSample.
    rewrite (bind_Ok _ _ _ _ _ (make_shared_run w)). fold output. rewrite Hle.
    eexists. reflexivity. }
  destruct (fltb (fmul voxel_size (of_int INT_MAX))
              (maxCoeff
                 (vsub
                    (vadd (GetMaxBound pc)
                       (vscale (voxel_size, voxel_size, voxel_size) Fhalf))
                    (vsub (GetMinBound pc)
                       (vscale (voxel_size, voxel_size, voxel_size) Fhalf)))))
    eqn:Hsmall.
  { unfold VoxelDownSample.
    rewrite (bind_Ok _ _ _ _ _ (make_shared_run w)). fold output. rewrite Hle.
    erewrite bind_Ok
      by (apply load_run; rewrite heap_set_cloud_ne by done; exact Hthis).
    cbv zeta. rewrite Hsmall. eexists. reflexivity. }
  rewrite (VoxelDownSample_run this voxel_size pc w Hthis Hfit Hle Hsmall).
  eexists. reflexivity.
Qed.

(** The run of [UniformDownSample] for a stride that does not divide the
    number of points: the copy of the points leaves the output buffer. *)
Lemma UniformDownSample_remainder_run this (k : Z) pc w :
  heap w !! this = Some pc ->
  0 < k ->
  vsize (points_ pc) `div` k <= INT_MAX ->
  vsize (points_ pc) + k < 2 ^ 63 ->
  vsize (points_ pc) `mod` k <> 0 ->
  UniformDownSample this k w = Fault.
Proof.
  intros Hthis Hk Hint Hdiff Hmod.
  set (n := vsize (points_ pc)) in *.
  set (output := fresh (dom (heap w))).
  assert (Hn : 0 <= n) by apply vsize_nonneg.
  assert (Hne : this <> output) by (eapply fresh_ne; eauto).
  assert (Hq : 0 <= n `div` k) by (apply Z.div_pos; lia).
  destruct (strided_range_Some (points_ pc) k Hk Hdiff) as (ps & Hps & Hlps).
  fold n in Hlps. rewrite strided_count, decide_False in Hlps by done.
  unfold UniformDownSample.
  rewrite (bind_Ok _ _ _ _ _ (load_run _ _ _ Hthis)).
  rewrite (bind_Ok _ _ _ _ _ (make_shared_run w)). fold output. fold n.
  replace (k =? 0) with false by (symmetry; apply Z.eqb_neq; lia).
  rewrite int_wrap_small by (unfold INT_MAX in *; lia).
  rewrite size_t_wrap_small by (unfold INT_MAX in *; lia).
  rewrite difference_wrap_small by lia.
  destruct (HasNormals pc), (HasColors pc).
  all: repeat (erewrite bind_Ok;
               [|first [apply (when_resize_run true) | apply (when_resize_run false)
                       | erewrite resize_run by apply heap_set_cloud_eq;
                         rewrite set_cloud_twice; reflexivity]]).
  all: apply bind_Fault;
    eapply strided_copy_Fault; [done|exact Hthis|exact Hps|];
    cbn [get_buffer set_buffer points_ normals_ colors_];
    rewrite length_resized; lia.
Qed.

(** C6.  Whenever one of [SelectByIndex], [VoxelDownSample],
    [UniformDownSample], [RemoveRadiusOutliers] and
    [RemoveStatisticalOutliers] returns or raises, the input cloud (and
    every other cloud of the store) has the buffers it had before the
    call, and a returned cloud is a newly allocated one.  The calls do
    return or raise, and so leave the input as it was: [SelectByIndex]
    for indices in range (distinct when inverted), [VoxelDownSample] for
    up to [INT_MAX] points, [UniformDownSample] for a stride that divides
    the number of points, the two outlier filters for legal parameters
    and k-d tree answers of the expected size.  For a stride [k >= 1] that
    does not divide the number of points [UniformDownSample] writes past
    the end of the output buffer: it returns no cloud, and what became of
    the input is not known. *)
Theorem reductions_leave_input (this : loc) (pc : PointCloud F) (w : world F) :
  heap w !! this = Some pc ->
  (forall indices invert,
     wp True (SelectByIndex this indices invert)
       (fresh_output w this pc) (input_unchanged w this pc) w) /\
  (forall voxel_size,
     wp True (VoxelDownSample this voxel_size)
       (fresh_output w this pc) (input_unchanged w this pc) w) /\
  (forall every_k_points,
     wp True (UniformDownSample this every_k_points)
       (fresh_output w this pc) (input_unchanged w this pc) w) /\
  (forall nb_points search_radius,
     wp True (RemoveRadiusOutliers this nb_points search_radius)
       (fun r => fresh_output w this pc r.1) (input_unchanged w this pc) w) /\
  (forall nb_neighbors std_ratio,
     wp True (RemoveStatisticalOutliers this nb_neighbors std_ratio)
       (fun r => fresh_output w this pc r.1) (input_unchanged w this pc) w) /\
  (forall indices invert,
     vsize (points_ pc) < 2 ^ 64 ->
     Forall (in_range (vsize (points_ pc))) indices ->
     (invert = true -> NoDup indices) ->
     wp False (SelectByIndex this indices invert)
       (fresh_output w this pc) (input_unchanged w this pc) w) /\
  (forall voxel_size,
     vsize (points_ pc) <= INT_MAX ->
     wp False (VoxelDownSample this voxel_size)
       (fresh_output w this pc) (input_unchanged w this pc) w) /\
  (forall every_k_points,
     0 < every_k_points ->
     vsize (points_ pc) `div` every_k_points <= INT_MAX ->
     vsize (points_ pc) + every_k_points < 2 ^ 63 ->
     vsize (points_ pc) `mod` every_k_points = 0 ->
     wp False (UniformDownSample this every_k_points)
       (fresh_output w this pc) (input_unchanged w this pc) w) /\
  (forall nb_points search_radius tmp_indices dist,
     1 <= nb_points < 2 ^ 63 - 1 ->
     fleb search_radius F0 = false ->
     (nb_points + 1) * vsize (points_ pc) < 2 ^ 63 ->
     SearchRadius pc (points_ pc) search_radius (nb_points + 1) =
       (tmp_indices, dist) ->
     length tmp_indices =
       (length (points_ pc) * Z.to_nat (nb_points + 1))%nat ->
     wp False (RemoveRadiusOutliers this nb_points search_radius)
       (fun r => fresh_output w this pc r.1) (input_unchanged w this pc) w) /\
  (forall nb_neighbors std_ratio tmp_indices dist,
     1 <= nb_neighbors < 2 ^ 31 ->
     fleb std_ratio F0 = false ->
     nb_neighbors * vsize (points_ pc) < 2 ^ 63 ->
     SearchKNN pc (points_ pc) nb_neighbors = (tmp_indices, dist) ->
     length dist = (length (points_ pc) * Z.to_nat nb_neighbors)%nat ->
     wp False (RemoveStatisticalOutliers this nb_neighbors std_ratio)
       (fun r => fresh_output w this pc r.1) (input_unchanged w this pc) w) /\
  (forall every_k_points,
     0 < every_k_points ->
     vsize (points_ pc) `div` every_k_points <= INT_MAX ->
     vsize (points_ pc) + every_k_points < 2 ^ 63 ->
     vsize (points_ pc) `mod` every_k_points <> 0 ->
     UniformDownSample this every_k_points w = Fault).
Proof.
  intros Hthis.
  assert (HS : forall indices invert,
    wp True (SelectByIndex this indices invert)
      (fresh_output w this pc) (input_unchanged w this pc) w)
    by (intros; eapply SelectByIndex_output; eauto using output_at_fresh).
  assert (HV : forall voxel_size,
    wp True (VoxelDownSample this voxel_size)
      (fresh_output w this pc) (input_unchanged w this pc) w)
    by (intros; eapply VoxelDownSample_output; eauto using output_at_fresh).
  assert (HU : forall every_k_points,
    wp True (UniformDownSample this every_k_points)
      (fresh_output w this pc) (input_unchanged w this pc) w)
    by (intros; eapply UniformDownSample_output;
        eauto using output_at_fresh, kept_unchanged).
  assert (HR : forall nb_points search_radius,
    wp True (RemoveRadiusOutliers this nb_points search_radius)
      (fun r => fresh_output w this pc r.1) (input_unchanged w this pc) w)
    by (intros; eapply RemoveRadiusOutliers_output;
        eauto using kept_unchanged; intros; simpl; eauto using output_at_fresh).
  assert (HT : forall nb_neighbors std_ratio,
    wp True (RemoveStatisticalOutliers this nb_neighbors std_ratio)
      (fun r => fresh_output w this pc r.1) (input_unchanged w this pc) w)
    by (intros; eapply RemoveStatisticalOutliers_output;
        eauto using kept_unchanged; intros; simpl; eauto using output_at_fresh).
  split; [exact HS|]. split; [exact HV|]. split; [exact HU|].
  split; [exact HR|]. split; [exact HT|].
  split; [|split; [|split; [|split; [|split]]]].
  - intros indices invert Hn Hall Hdup. apply wp_returns; [apply HS|].
    destruct invert.
    + destruct (SelectByIndex_inverted this indices pc w Hthis Hn Hall
                  (Hdup eq_refl)) as (sel & Hrun & _).
      now rewrite Hrun.
    + destruct (SelectByIndex_plain this indices pc w Hthis Hall)
        as (sel & Hrun & _).
      now rewrite Hrun.
  - intros voxel_size Hfit. apply wp_returns; [apply HV|].
    destruct (VoxelDownSample_returns this voxel_size pc w Hthis Hfit)
      as (w' & Hrun).
    now rewrite Hrun.
  - intros k Hk Hint Hdiff Hmod. apply wp_returns; [apply HU|].
    destruct (UniformDownSample_divides_run this k pc w Hthis Hk Hint Hdiff
                Hmod) as (sel & Hrun & _).
    now rewrite Hrun.
  - intros nb_points search_radius tmp_indices dist Hnb Hrad Hfit Hkd Hlen.
    apply wp_returns; [apply HR|].
    destruct (RemoveRadiusOutliers_run this nb_points search_radius pc w
                tmp_indices dist Hthis Hnb Hrad) as (sel & Hrun & _);
      [unfold vsize in Hfit; lia|exact Hkd|exact Hlen|].
    now rewrite Hrun.
  - intros nb_neighbors std_ratio tmp_indices dist Hnb Hratio Hfit Hkd Hlen.
    apply wp_returns; [apply HT|].
    destruct (RemoveStatisticalOutliers_run this nb_neighbors std_ratio pc w
                tmp_indices dist Hthis Hnb Hratio) as [Hzero Hsome];
      [unfold vsize in Hfit; lia|exact Hkd|exact Hlen|].
    match type of Hzero with
    | ?v = 0 -> _ => destruct (decide (v = 0)) as [Hv|Hv]
    end.
    + now rewrite (Hzero Hv).
    + destruct (Hsome Hv) as (sel & Hrun & _). now rewrite Hrun.
  - intros k Hk Hint Hdiff Hmod.
    now apply UniformDownSample_remainder_run with (pc := pc).
Qed.
End C6_total.

Section C6_runs.
Import Exact.
#[local] Existing Instance Q_Float32.
#[local] Existing Instance raising.

Lemma reductions_leave_input_witness :
  wp False (SelectByIndex 0 [0%Z] true)
    (fresh_output (world_with one_point) 0 one_point)
    (input_unchanged (world_with one_point) 0 one_point)
    (world_with one_point) /\
  wp False (VoxelDownSample 0 1%Q)
    (fresh_output (world_with one_point) 0 one_point)
    (input_unchanged (world_with one_point) 0 one_point)
    (world_with one_point) /\
  wp False (UniformDownSample 0 1%Z)
    (fresh_output (world_with one_point) 0 one_point)
    (input_unchanged (world_with one_point) 0 one_point)
    (world_with one_point) /\
  wp True (UniformDownSample 0 2%Z)
    (fresh_output (world_with one_point) 0 one_point)
    (input_unchanged (world_with one_point) 0 one_point)
    (world_with one_point) /\
  UniformDownSample 0 2%Z (world_with one_point) = Fault.
Proof.
  destruct (reductions_leave_input 0 one_point (world_with one_point)
              eq_refl)
    as (_ & _ & HU & _ & _ & HS' & HV' & HU' & _ & _ & HF).
  split; [|split; [|split; [|split]]].
  - apply HS'; [vm_compute; reflexivity| |intros _].
    + repeat constructor; unfold in_range; simpl; lia.
    + apply NoDup_singleton.
  - apply HV'. vm_compute. discriminate.
  - apply HU'; [lia|vm_compute; discriminate|vm_compute; reflexivity|
                reflexivity].
  - apply HU.
  - apply HF; [lia|vm_compute; discriminate|vm_compute; reflexivity|].
    vm_compute. discriminate.
Defined.
End C6_runs.
